(** * IfcModelChecker: export engine, validation engine, IDS converter
    and stores

    A shallow embedding of [services/ifcExport.ts], of the validation core
    ([checkElement], [runValidation]) and the validation service that
    feeds it, of the stores ([updatePropertyValue], the edit history,
    the selection, the visibility and the validation result), of the
    loader's conversion of parsed elements, of [isPsetCommon] and of
    [idsToRulePack], together with the fragment of the ECMAScript
    built-ins these functions call ([String.prototype.indexOf],
    [substring], [replace], regular expressions,
    [Number.prototype.toFixed], [Number::toString]).

    Strings are sequences of code units; the embedding covers the code
    units below 256, written as [ascii].  Numbers are IEEE 754 binary64
    values, written as [spec_float] with precision 53 and [emax] 1024. *)

From stdpp Require Import base gmap.
From Stdlib Require Import ZArith Lia Bool List Ascii String.
From Stdlib Require Import Floats.SpecFloat.
Import ListNotations.

Local Open Scope string_scope.
Local Open Scope Z_scope.

#[local] Arguments String.append !s1 s2 : simpl nomatch.

(** ** String primitives *)

Module Js.

Fixpoint str_take (n : nat) (s : string) : string :=
  match n, s with
  | S n', String c s' => String c (str_take n' s')
  | _, _ => EmptyString
  end.

Fixpoint str_drop (n : nat) (s : string) : string :=
  match n, s with
  | S n', String _ s' => str_drop n' s'
  | _, _ => s
  end.

Definition strlen (s : string) : Z := Z.of_nat (String.length s).

Definition clamp (i len : Z) : Z := Z.min (Z.max i 0) len.

(** [s.substring(a, b)]: both ends are clamped to the string and swapped
    when out of order. *)
Definition substring (s : string) (a b : Z) : string :=
  let a' := clamp a (strlen s) in
  let b' := clamp b (strlen s) in
  let from := Z.min a' b' in
  let to := Z.max a' b' in
  str_take (Z.to_nat (to - from)) (str_drop (Z.to_nat from) s).

(** [s.substring(a)] *)
Definition substring_from (s : string) (a : Z) : string :=
  substring s a (strlen s).

(** The first offset at which [pat] occurs in [s]. *)
Fixpoint find (pat s : string) : option nat :=
  if String.prefix pat s then Some O
  else match s with
       | EmptyString => None
       | String _ s' => option_map S (find pat s')
       end.

(** [s.indexOf(pat, pos)], with [-1] for no occurrence. *)
Definition indexOf_from (s pat : string) (pos : Z) : Z :=
  let k := clamp pos (strlen s) in
  match find pat (str_drop (Z.to_nat k) s) with
  | Some i => k + Z.of_nat i
  | None => -1
  end.

Definition indexOf (s pat : string) : Z := indexOf_from s pat 0.

Definition startsWith (s pat : string) : bool := String.prefix pat s.

Definition endsWith (s pat : string) : bool :=
  String.eqb (str_drop (String.length s - String.length pat) s) pat
  && (String.length pat <=? String.length s)%nat.

Definition dollar : ascii := "$"%char.

(** [GetSubstitution] for a replacement without captures: [$$] is a
    dollar sign, [$&] the match, [$`] the text before it and [$'] the
    text after it; any other [$] stands for itself. *)
Fixpoint getSubstitution (matched before after repl : string) : string :=
  match repl with
  | EmptyString => EmptyString
  | String c t =>
      if Ascii.eqb c dollar then
        match t with
        | String d t' =>
            if Ascii.eqb d dollar then
              String dollar (getSubstitution matched before after t')
            else if Ascii.eqb d "&"%char then
              matched ++ getSubstitution matched before after t'
            else if Ascii.eqb d "`"%char then
              before ++ getSubstitution matched before after t'
            else if Ascii.eqb d "'"%char then
              after ++ getSubstitution matched before after t'
            else String c (getSubstitution matched before after t)
        | EmptyString => String c EmptyString
        end
      else String c (getSubstitution matched before after t)
  end.

(** [s.replace(pat, repl)] with a string pattern: the first occurrence
    only, the replacement expanded by [getSubstitution]. *)
Definition replace (s pat repl : string) : string :=
  match find pat s with
  | None => s
  | Some i =>
      let before := str_take i s in
      let after := str_drop (i + String.length pat) s in
      before ++ getSubstitution pat before after repl ++ after
  end.

End Js.

(** ** Regular expressions

    A backtracking matcher for the fragment of ECMAScript patterns the
    sources use: character tests, sequence, alternation, greedy
    repetition, capture groups and the two anchors.  Alternatives are
    tried left to right and a repetition takes as many rounds as it can
    before giving one back, as [RegExp.prototype.exec] does. *)

Module Regex.

Inductive regex : Type :=
| Eps : regex
| Chr : (ascii -> bool) -> regex
| Seq : regex -> regex -> regex
| Alt : regex -> regex -> regex
| Star : regex -> regex
| Group : nat -> regex -> regex
| Bol : regex
| Eol : regex.

Definition Plus (r : regex) : regex := Seq r (Star r).
Definition Opt (r : regex) : regex := Alt r Eps.

Fixpoint seq (rs : list regex) : regex :=
  match rs with
  | [] => Eps
  | [r] => r
  | r :: rs' => Seq r (seq rs')
  end.

Record mstate : Type := MState {
  m_pos : nat;
  m_rest : string;
  m_caps : list (nat * string)
}.

Definition advance (c : ascii) (s' : string) (st : mstate) : mstate :=
  {| m_pos := S (m_pos st); m_rest := s'; m_caps := m_caps st |}.

Definition set_cap (i : nat) (from : mstate) (st : mstate) : mstate :=
  {| m_pos := m_pos st; m_rest := m_rest st;
     m_caps := (i, Js.str_take (m_pos st - m_pos from) (m_rest from)) :: m_caps st |}.

(** The rounds of a repetition: one more round of [body] when it moves
    on in the input and the rest then matches, else the rest at once.
    No more rounds can succeed than code units are left. *)
Fixpoint star_loop (body : mstate -> (mstate -> option mstate) -> option mstate)
  (k : mstate -> option mstate) (fuel : nat) (st : mstate) {struct fuel}
  : option mstate :=
  match fuel with
  | O => k st
  | S fuel' =>
      match body st (fun st' =>
              if (m_pos st' =? m_pos st)%nat then None
              else star_loop body k fuel' st') with
      | Some res => Some res
      | None => k st
      end
  end.

Fixpoint rmatch (r : regex) (st : mstate) (k : mstate -> option mstate)
  {struct r} : option mstate :=
  match r with
  | Eps => k st
  | Chr p =>
      match m_rest st with
      | String c s' => if p c then k (advance c s' st) else None
      | EmptyString => None
      end
  | Seq a b => rmatch a st (fun st' => rmatch b st' k)
  | Alt a b =>
      match rmatch a st k with
      | Some res => Some res
      | None => rmatch b st k
      end
  | Star a => star_loop (rmatch a) k (String.length (m_rest st)) st
  | Group i a => rmatch a st (fun st' => k (set_cap i st st'))
  | Bol => if (m_pos st =? 0)%nat then k st else None
  | Eol => match m_rest st with EmptyString => k st | _ => None end
  end.

(** The leftmost match at or after offset [pos], [s] being the rest of
    the input from there. *)
Fixpoint search (r : regex) (pos : nat) (s : string) : option (nat * mstate) :=
  match rmatch r {| m_pos := pos; m_rest := s; m_caps := [] |} Some with
  | Some st => Some (pos, st)
  | None =>
      match s with
      | EmptyString => None
      | String _ s' => search r (S pos) s'
      end
  end.

Definition exec (r : regex) (s : string) : option (nat * mstate) :=
  search r O s.

Definition test (r : regex) (s : string) : bool :=
  match exec r s with Some _ => true | None => false end.

(** Capture [i] of a match; a group that took no part is the empty
    string here. *)
Fixpoint capture (i : nat) (caps : list (nat * string)) : string :=
  match caps with
  | [] => EmptyString
  | (j, v) :: caps' => if (i =? j)%nat then v else capture i caps'
  end.

(** [s.replace(re, repl)] for a pattern without the [g] flag. *)
Definition replace (s : string) (r : regex) (repl : string) : string :=
  match exec r s with
  | None => s
  | Some (i, st) =>
      let before := Js.str_take i s in
      let matched := Js.str_take (m_pos st - i) (Js.str_drop i s) in
      before ++ Js.getSubstitution matched before (m_rest st) repl ++ m_rest st
  end.

(** [s.replace(re, repl)] for a pattern with the [g] flag: every match
    from left to right, an empty match stepping one code unit on. *)
Fixpoint replace_all_from (fuel : nat) (whole : string) (r : regex)
  (repl : string) (pos : nat) (s : string) : string :=
  match fuel with
  | O => s
  | S fuel' =>
      match search r pos s with
      | None => s
      | Some (i, st) =>
          let skipped := Js.str_take (i - pos) s in
          let matched := Js.str_take (m_pos st - i) (Js.str_drop (i - pos) s) in
          let sub := Js.getSubstitution matched (Js.str_take i whole) (m_rest st) repl in
          if (m_pos st =? i)%nat then
            match m_rest st with
            | EmptyString => skipped ++ sub
            | String c s' =>
                skipped ++ sub ++ String c (replace_all_from fuel' whole r repl (S i) s')
            end
          else skipped ++ sub ++ replace_all_from fuel' whole r repl (m_pos st) (m_rest st)
      end
  end.

Definition replace_all (s : string) (r : regex) (repl : string) : string :=
  replace_all_from (S (String.length s)) s r repl O s.

(** *** Character tests *)

Definition code (c : ascii) : N := N_of_ascii c.

(** [Canonicalize] under the [i] flag: the upper-case form when it is
    one code unit and does not move a non-ASCII unit into ASCII. *)
Definition canonicalize (c : ascii) : N :=
  let n := code c in
  if ((97 <=? n) && (n <=? 122))%N then (n - 32)%N
  else if (n =? 181)%N then 924%N
  else if (n =? 255)%N then 376%N
  else if ((224 <=? n) && (n <=? 254) && negb (n =? 247))%N then (n - 32)%N
  else n.

Definition lit (c : ascii) : regex := Chr (Ascii.eqb c).

Definition lit_i (c : ascii) : regex :=
  Chr (fun ch => (canonicalize ch =? canonicalize c)%N).

Fixpoint word_i (w : string) : regex :=
  match w with
  | EmptyString => Eps
  | String c EmptyString => lit_i c
  | String c w' => Seq (lit_i c) (word_i w')
  end.

(** [\d] *)
Definition is_digit (c : ascii) : bool :=
  ((48 <=? code c) && (code c <=? 57))%N.

(** [\s], as far as it lies below 256: tab, line feed, vertical tab,
    form feed, carriage return, space and no-break space. *)
Definition is_space (c : ascii) : bool :=
  (((9 <=? code c) && (code c <=? 13)) || (code c =? 32) || (code c =? 160))%N.

(** [[^...]] *)
Definition none_of (cs : list ascii) (c : ascii) : bool :=
  negb (existsb (Ascii.eqb c) cs).

(** [[^...]] under the [i] flag *)
Definition none_of_i (cs : list ascii) (c : ascii) : bool :=
  negb (existsb (fun a => (canonicalize a =? canonicalize c)%N) cs).

End Regex.

(** ** Numbers

    A number is a binary64 value [(-1)^s * m * 2^e].  [Number::toString]
    and [Number.prototype.toFixed] are defined on the exact value, as
    ECMA-262 defines them. *)

Module Num.

Definition number : Type := spec_float.

Definition prec : Z := 53.
Definition emax : Z := 1024.

(** The values a binary64 number can take. *)
Definition is_double (x : number) : bool := valid_binary prec emax x.

(** [x === y] on numbers: [NaN] equals nothing, the two zeros are equal. *)
Definition strict_eq (x y : number) : bool := SFeqb x y.

(** Numerator and denominator of [m * 2^e]. *)
Definition numer (m e : Z) : Z := m * 2 ^ Z.max e 0.
Definition denom (e : Z) : Z := 2 ^ Z.max (- e) 0.

(** [Number.isInteger] *)
Definition isInteger (x : number) : bool :=
  match x with
  | S754_zero _ => true
  | S754_finite _ m e => numer (Z.pos m) e mod denom e =? 0
  | S754_infinity _ | S754_nan => false
  end.

(** The integer part of the magnitude of a finite number. *)
Definition magnitude (x : number) : Z :=
  match x with
  | S754_finite _ m e => numer (Z.pos m) e / denom e
  | _ => 0
  end.

Definition is_negative (x : number) : bool :=
  match x with
  | S754_finite s _ _ => s
  | S754_infinity s => s
  | _ => false
  end.

(** *** Decimal digits *)

Definition digit_char (d : Z) : ascii := ascii_of_N (48 + Z.to_N d).

Fixpoint digits_fuel (fuel : nat) (v : Z) : string :=
  match fuel with
  | O => EmptyString
  | S fuel' =>
      if v <? 10 then String (digit_char v) EmptyString
      else digits_fuel fuel' (v / 10) ++ String (digit_char (v mod 10)) EmptyString
  end.

(** The decimal representation of a natural number, [0] being ["0"]. *)
Definition digits (v : Z) : string :=
  digits_fuel (S (Z.to_nat (Z.log2 v))) v.

Fixpoint zeros (n : nat) : string :=
  match n with
  | O => EmptyString
  | S n' => String "0"%char (zeros n')
  end.

(** *** The shortest digits that read back as the number

    [Number::toString] takes integers [n], [k] and [s] with [k] as small
    as possible such that [s] has [k] digits and [s * 10^(n-k)] rounds
    to the number.  A real rounds to [m * 2^e] exactly when it lies
    between the midpoints to the neighbouring numbers, the midpoints
    included when [m] is even. *)

Definition emin_sub : Z := -1074.

(** The interval in units of [2^(e-2)]. *)
Definition lower4 (m e : Z) : Z :=
  if (m =? 2 ^ 52) && (emin_sub <? e) then 4 * m - 1 else 4 * m - 2.
Definition upper4 (m : Z) : Z := 4 * m + 2.

(** [c * 10^j] and [b * 2^(e-2)] over a common denominator. *)
Definition cand_scaled (e c j : Z) : Z := c * 10 ^ Z.max j 0 * 2 ^ Z.max (2 - e) 0.
Definition bound_scaled (e b j : Z) : Z := b * 2 ^ Z.max (e - 2) 0 * 10 ^ Z.max (- j) 0.

Definition in_interval (m e c j : Z) : bool :=
  let v := cand_scaled e c j in
  let lo := bound_scaled e (lower4 m e) j in
  let hi := bound_scaled e (upper4 m) j in
  if Z.even m then (lo <=? v) && (v <=? hi) else (lo <? v) && (v <? hi).

(** [floor (m * 2^e / 10^j)] *)
Definition floor_scaled (m e j : Z) : Z :=
  (numer m e * 10 ^ Z.max (- j) 0) / (denom e * 10 ^ Z.max j 0).

(** Of two candidates around the number, the nearer one, the even one
    on a tie. *)
Definition nearer (m e lo hi j : Z) : Z :=
  let x := bound_scaled e (4 * m) j in
  let dl := x - cand_scaled e lo j in
  let dh := cand_scaled e hi j - x in
  if dl <? dh then lo else if dh <? dl then hi
  else if Z.even lo then lo else hi.

(** The search by number of digits [k], [n0] being the position of the
    decimal point of the number itself. *)
Fixpoint shortest (fuel : nat) (m e n0 k : Z) : Z * Z :=
  let j := n0 - k in
  let lo := floor_scaled m e j in
  let hi := lo + 1 in
  match fuel with
  | O => (lo, k)
  | S fuel' =>
      let a := in_interval m e lo j in
      let b := in_interval m e hi j in
      if a && b then (nearer m e lo hi j, k)
      else if a then (lo, k)
      else if b then (hi, k)
      else shortest fuel' m e n0 (k + 1)
  end.

(** The least [n >= 1] with [num / den < 10^n]. *)
Fixpoint exponent_up (fuel : nat) (num den n : Z) : Z :=
  match fuel with
  | O => n
  | S fuel' =>
      if num <? den * 10 ^ n then n else exponent_up fuel' num den (n + 1)
  end.

(** The greatest [n <= 0] with [10^(n-1) <= num / den]. *)
Fixpoint exponent_down (fuel : nat) (num den n : Z) : Z :=
  match fuel with
  | O => n
  | S fuel' =>
      if num * 10 ^ (1 - n) <? den then exponent_down fuel' num den (n - 1) else n
  end.

(** The [n] with [10^(n-1) <= m * 2^e < 10^n]. *)
Definition dec_exponent (m e : Z) : Z :=
  let num := numer m e in
  let den := denom e in
  if den <=? num then exponent_up (S (Z.to_nat (Z.log2 num))) num den 1
  else exponent_down (S (Z.to_nat (Z.log2 den))) num den 0.

(** [n], [k] and the digits of [s]. *)
Definition shortest_digits (m e : Z) : Z * Z * string :=
  let n0 := dec_exponent m e in
  let fuel := Z.to_nat (Z.max n0 0 + Z.max (- e) 0) in
  let '(s, k) := shortest fuel m e n0 1 in
  if s =? 10 ^ k then (n0 + 1, 1, "1") else (n0, k, digits s).

Definition toString_pos (m e : Z) : string :=
  let '(n, k, ds) := shortest_digits m e in
  if (k <=? n) && (n <=? 21) then ds ++ zeros (Z.to_nat (n - k))
  else if (0 <? n) && (n <=? 21) then
    Js.str_take (Z.to_nat n) ds ++ "." ++ Js.str_drop (Z.to_nat n) ds
  else if (-6 <? n) && (n <=? 0) then "0." ++ zeros (Z.to_nat (- n)) ++ ds
  else
    let ex := n - 1 in
    let sign := if ex <? 0 then "-" else "+" in
    if k =? 1 then ds ++ "e" ++ sign ++ digits (Z.abs ex)
    else Js.str_take 1 ds ++ "." ++ Js.str_drop 1 ds ++ "e" ++ sign ++ digits (Z.abs ex).

(** [Number::toString] in radix 10, which is [String(x)]. *)
Definition toString (x : number) : string :=
  match x with
  | S754_nan => "NaN"
  | S754_zero _ => "0"
  | S754_infinity s => if s then "-Infinity" else "Infinity"
  | S754_finite s m e =>
      (if s then "-" else "") ++ toString_pos (Z.pos m) e
  end.

(** [x.toFixed(f)] for [0 <= f <= 100]: the integer [n] nearest to
    [x * 10^f], the larger one of two, written with [f] digits after the
    point. *)
Definition toFixed (x : number) (f : Z) : string :=
  match x with
  | S754_nan | S754_infinity _ => toString x
  | S754_zero _ =>
      if f =? 0 then "0" else "0." ++ zeros (Z.to_nat f)
  | S754_finite s m e =>
      let num := numer (Z.pos m) e in
      let den := denom e in
      if den * 10 ^ 21 <=? num then toString x
      else
        let n := (2 * num * 10 ^ f + den) / (2 * den) in
        let ds := digits n in
        let k := Js.strlen ds in
        let ds' := if k <=? f then zeros (Z.to_nat (f + 1 - k)) ++ ds else ds in
        let k' := Js.strlen ds' in
        (if s then "-" else "") ++
        (if f =? 0 then ds'
         else Js.str_take (Z.to_nat (k' - f)) ds' ++ "." ++ Js.str_drop (Z.to_nat (k' - f)) ds')
  end.

End Num.

(** ** Data model ([types/index.ts]) *)

(** [PropertyValue = string | number | boolean | null]; [undefined] is
    kept beside it because the code tests for it. *)
Inductive PropertyValue : Type :=
| VNull : PropertyValue
| VUndefined : PropertyValue
| VBool : bool -> PropertyValue
| VNum : Num.number -> PropertyValue
| VStr : string -> PropertyValue.

(** [a === b] *)
Definition strict_eq (a b : PropertyValue) : bool :=
  match a, b with
  | VNull, VNull => true
  | VUndefined, VUndefined => true
  | VBool x, VBool y => Bool.eqb x y
  | VNum x, VNum y => Num.strict_eq x y
  | VStr x, VStr y => String.eqb x y
  | _, _ => false
  end.

Definition strict_neq (a b : PropertyValue) : bool := negb (strict_eq a b).

(** An express id is the integer after [#] in a STEP record. *)
Definition ExpressID : Type := Z.

(** The text of an integer in a template literal: its decimal digits,
    after a minus sign when it is negative. *)
Definition int_toString (z : Z) : string :=
  (if z <? 0 then "-" else "") ++ Num.digits (Z.abs z).

Record Property : Type := mkProperty {
  prop_name : string;
  prop_expressID : ExpressID;
  prop_value : PropertyValue;
  prop_type : string;
  prop_originalValue : PropertyValue;
  prop_modified : bool
}.

Record PropertySet : Type := mkPropertySet {
  pset_name : string;
  pset_expressID : ExpressID;
  pset_properties : list Property;
  pset_isEditable : bool
}.

Record IfcElement : Type := mkIfcElement {
  el_expressID : ExpressID;
  el_globalId : string;
  el_name : string;
  el_tag : string;
  el_ifcClass : string;
  el_ifcType : Z;
  el_level : string;
  el_zone : string;
  el_discipline : string;
  el_psets : list PropertySet;
  el_modelID : Z
}.

(** ** Export engine ([services/ifcExport.ts]) *)

Record PatchEntry : Type := mkPatch {
  patch_expressID : ExpressID;
  patch_propertyName : string;
  patch_psetName : string;
  patch_oldValue : string;
  patch_newValue : string
}.

(** [/0+$/], [/\.$/] and [/'/g] *)
Definition re_trailing_zeros : Regex.regex :=
  Regex.Seq (Regex.Plus (Regex.lit "0")) Regex.Eol.
Definition re_trailing_dot : Regex.regex :=
  Regex.Seq (Regex.lit ".") Regex.Eol.
Definition re_quote : Regex.regex := Regex.lit "'".

Definition formatIfcValue (value : PropertyValue) : string :=
  match value with
  | VNull | VUndefined => "$"
  | VBool b => if b then ".T." else ".F."
  | VNum x =>
      if Num.isInteger x then Num.toString x
      else Regex.replace
             (Regex.replace (Num.toFixed x 6) re_trailing_zeros "")
             re_trailing_dot ".0"
  | VStr s => "'" ++ Regex.replace_all s re_quote "''" ++ "'"
  end.

Definition extractHeaderSection (text : string) : string :=
  let headerStart := Js.indexOf text "HEADER;" in
  let headerEnd := Js.indexOf_from text "ENDSEC;" headerStart in
  if (headerStart =? -1) || (headerEnd =? -1) then ""
  else Js.substring text headerStart (headerEnd + 7).

(** One round of the loop of [tryPatchExport]; [None] is the early
    [return null]. *)
Definition patchStep (result : string) (patch : PatchEntry) : option string :=
  let idStr := "#" ++ int_toString (patch_expressID patch) in
  let lineStart := Js.indexOf result (idStr ++ "=") in
  if lineStart =? -1 then None
  else
    let lineEnd := Js.indexOf_from result ";" lineStart in
    if lineEnd =? -1 then None
    else
      let originalLine := Js.substring result lineStart (lineEnd + 1) in
      let oldValFormatted := patch_oldValue patch in
      let newValFormatted := patch_newValue patch in
      let newLine := originalLine in
      if String.eqb oldValFormatted "$" then None
      else
        let oldIdx := Js.indexOf newLine oldValFormatted in
        if oldIdx =? -1 then None
        else
          let newLine :=
            Js.substring newLine 0 oldIdx ++ newValFormatted
            ++ Js.substring_from newLine (oldIdx + Js.strlen oldValFormatted) in
          Some (Js.substring result 0 lineStart ++ newLine
                ++ Js.substring_from result (lineEnd + 1)).

Fixpoint tryPatchLoop (result : string) (patches : list PatchEntry) : option string :=
  match patches with
  | [] => Some result
  | patch :: rest =>
      match patchStep result patch with
      | None => None
      | Some result' => tryPatchLoop result' rest
      end
  end.

Definition tryPatchExport (originalText : string) (patches : list PatchEntry)
  : option string :=
  tryPatchLoop originalText patches.

(** The pattern of [rebuildPropertyLine], matched without regard to
    case and anchored at both ends.  Group 1 is the record up to its
    third argument: [#], digits, [=], the keyword and [(] with white
    space allowed around the keyword, a first argument of one or more
    characters other than a comma, a second of any number of them, each
    followed by a comma, and white space.  Group 2 is the value: one or
    more characters other than a comma or a closing parenthesis, then
    optionally a parenthesis pair around characters other than a closing
    parenthesis.  Group 3 is the rest: white space, optionally a comma
    and characters other than a closing parenthesis, optionally a
    semicolon, and white space. *)
Definition re_property_line : Regex.regex :=
  let ws := Regex.Star (Regex.Chr Regex.is_space) in
  let no_comma := Regex.Chr (Regex.none_of_i [","%char]) in
  let no_paren := Regex.Chr (Regex.none_of_i [")"%char]) in
  let no_comma_paren := Regex.Chr (Regex.none_of_i [","%char; ")"%char]) in
  Regex.seq
    [ Regex.Bol;
      Regex.Group 1 (Regex.seq
        [ Regex.lit_i "#"; Regex.Plus (Regex.Chr Regex.is_digit); Regex.lit_i "=";
          ws; Regex.word_i "IFCPROPERTYSINGLEVALUE"; ws; Regex.lit_i "(";
          Regex.Plus no_comma; Regex.lit_i ","; Regex.Star no_comma;
          Regex.lit_i ","; ws ]);
      Regex.Group 2 (Regex.seq
        [ Regex.Plus no_comma_paren;
          Regex.Opt (Regex.seq
            [ Regex.lit_i "("; Regex.Star no_paren; Regex.lit_i ")" ]) ]);
      Regex.Group 3 (Regex.seq
        [ ws;
          Regex.Opt (Regex.seq [ Regex.lit_i ","; Regex.Star no_paren ]);
          Regex.Opt (Regex.lit_i ";"); ws ]);
      Regex.Eol ].

(** [/^-?\d+(\.\d+)?$/] *)
Definition re_numeric : Regex.regex :=
  Regex.seq
    [ Regex.Bol; Regex.Opt (Regex.lit "-"); Regex.Plus (Regex.Chr Regex.is_digit);
      Regex.Opt (Regex.Group 1 (Regex.seq
        [ Regex.lit "."; Regex.Plus (Regex.Chr Regex.is_digit) ]));
      Regex.Eol ].

Definition rebuildPropertyLine (line newValue : string) : option string :=
  match Regex.exec re_property_line line with
  | None => None
  | Some (_, m) =>
      let prefix := Regex.capture 1 (Regex.m_caps m) in
      let suffix := Regex.capture 3 (Regex.m_caps m) in
      let wrappedValue :=
        if String.eqb newValue "$" then "$"
        else if String.eqb newValue ".T." || String.eqb newValue ".F." then
          "IFCBOOLEAN(" ++ newValue ++ ")"
        else if Regex.test re_numeric newValue then
          "IFCREAL(" ++ newValue ++ ")"
        else if Js.startsWith newValue "'" && Js.endsWith newValue "'" then
          "IFCLABEL(" ++ newValue ++ ")"
        else newValue in
      Some (prefix ++ wrappedValue ++ suffix)
  end.

(** One round of the loop of [rewriteExport]; a patch that cannot be
    applied leaves the text as it is. *)
Definition rewriteStep (result : string) (patch : PatchEntry) : string :=
  let idStr := "#" ++ int_toString (patch_expressID patch) in
  let lineStart := Js.indexOf result (idStr ++ "=") in
  if lineStart =? -1 then result
  else
    let lineEnd := Js.indexOf_from result ";" lineStart in
    if lineEnd =? -1 then result
    else
      let originalLine := Js.substring result lineStart (lineEnd + 1) in
      match rebuildPropertyLine originalLine (patch_newValue patch) with
      | Some newLine =>
          if String.eqb newLine "" then result
          else Js.substring result 0 lineStart ++ newLine
               ++ Js.substring_from result (lineEnd + 1)
      | None => result
      end.

Definition rewriteExport (originalText : string) (patches : list PatchEntry)
  : string :=
  let headerSection := extractHeaderSection originalText in
  let result := fold_left rewriteStep patches originalText in
  let newHeaderSection := extractHeaderSection result in
  if negb (String.eqb newHeaderSection headerSection)
  then Js.replace result newHeaderSection headerSection
  else result.

(** *** The model store, as far as the export and the editing read and
    write it

    [elements] is a [Map] from express id to element; it is kept as the
    list of its entries in insertion order, which is the order
    [forEach] visits them in. *)

Record ModelState : Type := mkModelState {
  originalIfcText : option string;
  elements : list (ExpressID * IfcElement)
}.

Definition patchOf (pset : PropertySet) (prop : Property) : PatchEntry :=
  {| patch_expressID := prop_expressID prop;
     patch_propertyName := prop_name prop;
     patch_psetName := pset_name pset;
     patch_oldValue := formatIfcValue (prop_originalValue prop);
     patch_newValue := formatIfcValue (prop_value prop) |}.

Definition isModifiedProperty (prop : Property) : bool :=
  prop_modified prop && strict_neq (prop_value prop) (prop_originalValue prop).

Definition collectFromPset (pset : PropertySet) : list PatchEntry :=
  if negb (pset_isEditable pset) then []
  else List.map (patchOf pset) (List.filter isModifiedProperty (pset_properties pset)).

Definition collectFromElement (element : IfcElement) : list PatchEntry :=
  List.flat_map collectFromPset (el_psets element).

Definition collectModifiedProperties (st : ModelState) : list PatchEntry :=
  List.flat_map (fun entry => collectFromElement (snd entry)) (elements st).

(** The outcome of [exportModifiedIfc]: a thrown error or the text the
    blob is made of. *)
Inductive ExportOutcome : Type :=
| Throws : string -> ExportOutcome
| Blob : string -> ExportOutcome.

Definition exportModifiedIfc (st : ModelState) (forceRewrite : bool) : ExportOutcome :=
  match originalIfcText st with
  | None | Some EmptyString => Throws "No original IFC text available for export"
  | Some originalText =>
      let patches := collectModifiedProperties st in
      if (List.length patches =? 0)%nat then Blob originalText
      else
        let result := if negb forceRewrite then tryPatchExport originalText patches
                      else None in
        match result with
        | None | Some EmptyString => Blob (rewriteExport originalText patches)
        | Some patched => Blob patched
        end
  end.

Definition hasModifications (st : ModelState) : bool :=
  existsb (fun entry =>
    existsb (fun pset => existsb prop_modified (pset_properties pset))
            (el_psets (snd entry))) (elements st).

(** *** [updatePropertyValue] of the model store *)

(** [f] applied to the first element [p] holds of, which is the one
    [Array.prototype.find] and [Map.prototype.get] return. *)
Fixpoint update_first {A : Type} (p : A -> bool) (f : A -> A) (l : list A) : list A :=
  match l with
  | [] => []
  | x :: l' => if p x then f x :: l' else x :: update_first p f l'
  end.

Definition setValue (value : PropertyValue) (prop : Property) : Property :=
  {| prop_name := prop_name prop;
     prop_expressID := prop_expressID prop;
     prop_value := value;
     prop_type := prop_type prop;
     prop_originalValue := prop_originalValue prop;
     prop_modified := true |}.

Definition setProperties (props : list Property) (pset : PropertySet) : PropertySet :=
  {| pset_name := pset_name pset;
     pset_expressID := pset_expressID pset;
     pset_properties := props;
     pset_isEditable := pset_isEditable pset |}.

Definition setPsets (psets : list PropertySet) (el : IfcElement) : IfcElement :=
  {| el_expressID := el_expressID el; el_globalId := el_globalId el;
     el_name := el_name el; el_tag := el_tag el; el_ifcClass := el_ifcClass el;
     el_ifcType := el_ifcType el; el_level := el_level el; el_zone := el_zone el;
     el_discipline := el_discipline el; el_psets := psets;
     el_modelID := el_modelID el |}.

Definition hasKey (elementID : ExpressID) (entry : ExpressID * IfcElement) : bool :=
  fst entry =? elementID.
Definition psetNamed (psetName : string) (pset : PropertySet) : bool :=
  String.eqb (pset_name pset) psetName.
Definition propNamed (propertyName : string) (prop : Property) : bool :=
  String.eqb (prop_name prop) propertyName.

Definition updatePropertyValue (st : ModelState) (elementID : ExpressID)
  (psetName propertyName : string) (value : PropertyValue) : ModelState :=
  match List.find (hasKey elementID) (elements st) with
  | None => st
  | Some (_, el) =>
      match List.find (psetNamed psetName) (el_psets el) with
      | None => st
      | Some pset =>
          match List.find (propNamed propertyName) (pset_properties pset) with
          | None => st
          | Some _ =>
              let props := update_first (propNamed propertyName) (setValue value)
                             (pset_properties pset) in
              let psets := update_first (psetNamed psetName) (setProperties props)
                             (el_psets el) in
              {| originalIfcText := originalIfcText st;
                 elements := update_first (hasKey elementID)
                               (fun entry => (fst entry, setPsets psets (snd entry)))
                               (elements st) |}
          end
      end
  end.

(** What [IfcLoaderService.loadFile] makes of a parsed property: the
    value is also the original value and nothing is modified. *)
Definition loadProperty (name : string) (expressID : ExpressID)
  (value : PropertyValue) (type : string) : Property :=
  {| prop_name := name; prop_expressID := expressID; prop_value := value;
     prop_type := type; prop_originalValue := value; prop_modified := false |}.

(** ** Validation engine ([checkElement], [runValidation]) *)

Inductive IssueSeverity : Type := Error | Warning.
Inductive IssueType : Type := MissingParam | MissingValue | WrongValue | Naming.

Inductive CheckType : Type :=
| CkExists | CkNotEmpty | CkEquals | CkInList | CkRange | CkRegex | CkBoolean.

Record ValidationIssue : Type := mkIssue {
  issue_id : string;
  issue_discipline : string;
  issue_elementId : string;
  issue_globalId : string;
  issue_expressID : ExpressID;
  issue_ifcClass : string;
  issue_name : string;
  issue_level : string;
  issue_zone : string;
  issue_ruleId : string;
  issue_ruleName : string;
  issue_issueType : IssueType;
  issue_propertyPath : string;
  issue_expected : string;
  issue_actual : string;
  issue_severity : IssueSeverity;
  issue_suggestedFix : option string
}.

Record ValidateProperty : Type := mkVProperty {
  vprop_name : string;
  vprop_value : PropertyValue;
  vprop_type : string
}.

Record ValidatePset : Type := mkVPset {
  vpset_name : string;
  vpset_properties : list ValidateProperty
}.

Record ValidateElement : Type := mkVElement {
  ve_expressID : ExpressID;
  ve_globalId : string;
  ve_name : string;
  ve_tag : string;
  ve_ifcClass : string;
  ve_level : string;
  ve_zone : string;
  ve_discipline : string;
  ve_psets : list ValidatePset
}.

(** [expected?: any]: a value, [undefined] when left out, or an array. *)
Inductive Expected : Type :=
| ExpValue : PropertyValue -> Expected
| ExpList : list PropertyValue -> Expected.

Record Requirement : Type := mkRequirement {
  req_psetName : string;
  req_propertyName : string;
  req_checkType : CheckType;
  req_expected : Expected;
  req_min : option Num.number;
  req_max : option Num.number;
  req_pattern : option string;
  req_severity : option IssueSeverity
}.

Record Applicability : Type := mkApplicability {
  app_ifcClasses : option (list string);
  app_disciplines : option (list string);
  app_psetNames : option (list string)
}.

Record ValidateRule : Type := mkRule {
  rule_id : string;
  rule_name : string;
  rule_description : string;
  rule_applicability : Applicability;
  rule_requirements : list Requirement
}.

(** [a || b] on strings *)
Definition str_or (a b : string) : string :=
  match a with EmptyString => b | _ => a end.

Definition getElementId (el : ValidateElement) : string :=
  str_or (ve_tag el) (str_or (ve_name el) (ve_globalId el)).

Definition getDefaultSeverity (issueType : IssueType) : IssueSeverity :=
  match issueType with
  | MissingValue => Warning
  | Naming => Error
  | MissingParam | WrongValue => Error
  end.

(** [String(v)] *)
Definition js_String (v : PropertyValue) : string :=
  match v with
  | VNull => "null"
  | VUndefined => "undefined"
  | VBool b => if b then "true" else "false"
  | VNum x => Num.toString x
  | VStr s => s
  end.

(** [String(v ?? d)] *)
Definition string_or_default (v : PropertyValue) (d : string) : string :=
  match v with
  | VNull | VUndefined => d
  | _ => js_String v
  end.

(** [l.join(sep)]: [null] and [undefined] give the empty string. *)
Fixpoint join (sep : string) (l : list PropertyValue) : string :=
  match l with
  | [] => ""
  | [v] => string_or_default v ""
  | v :: l' => string_or_default v "" ++ sep ++ join sep l'
  end.

Definition expected_String (e : Expected) : string :=
  match e with
  | ExpValue v => js_String v
  | ExpList l => join "," l
  end.

(** [SameValueZero], the equality of [Array.prototype.includes]. *)
Definition same_value_zero (a b : PropertyValue) : bool :=
  match a, b with
  | VNum S754_nan, VNum S754_nan => true
  | _, _ => strict_eq a b
  end.

Definition includes (l : list PropertyValue) (v : PropertyValue) : bool :=
  existsb (fun x => same_value_zero x v) l.

Definition number_one : Num.number := S754_finite false 4503599627370496 (-52).

Definition isNaN (x : Num.number) : bool :=
  match x with S754_nan => true | _ => false end.

(** [min ?? d] in a template literal *)
Definition bound_String (b : option Num.number) (d : string) : string :=
  match b with Some x => Num.toString x | None => d end.

Section Validation.

(** Two built-ins are left open: the number a string converts to, and
    [new RegExp(pattern).test(s)], which is [None] when the pattern does
    not compile and the constructor throws. *)
Variable stringToNumber : string -> Num.number.
Variable regExpTest : string -> string -> option bool.

(** [Number(v)] *)
Definition js_Number (v : PropertyValue) : Num.number :=
  match v with
  | VNull => S754_zero false
  | VUndefined => S754_nan
  | VBool b => if b then number_one else S754_zero false
  | VNum x => x
  | VStr s => stringToNumber s
  end.

Definition mkElementIssue (element : ValidateElement) (rule : ValidateRule)
  (req : Requirement) (issueType : IssueType) (expected actual : string)
  (suggestedFix : option string) : ValidationIssue :=
  {| issue_id := int_toString (ve_expressID element) ++ "-" ++ rule_id rule
                 ++ "-" ++ req_propertyName req;
     issue_discipline := ve_discipline element;
     issue_elementId := getElementId element;
     issue_globalId := ve_globalId element;
     issue_expressID := ve_expressID element;
     issue_ifcClass := ve_ifcClass element;
     issue_name := ve_name element;
     issue_level := ve_level element;
     issue_zone := ve_zone element;
     issue_ruleId := rule_id rule;
     issue_ruleName := rule_name rule;
     issue_issueType := issueType;
     issue_propertyPath := req_psetName req ++ "." ++ req_propertyName req;
     issue_expected := expected;
     issue_actual := actual;
     issue_severity := match req_severity req with
                       | Some sev => sev
                       | None => getDefaultSeverity issueType
                       end;
     issue_suggestedFix := suggestedFix |}.

(** The [switch] on the check type, for a property that was found. *)
Definition checkValue (element : ValidateElement) (rule : ValidateRule)
  (req : Requirement) (value : PropertyValue) : list ValidationIssue :=
  let actual := string_or_default value "(empty)" in
  match req_checkType req with
  | CkExists => []
  | CkNotEmpty =>
      if strict_eq value VNull || strict_eq value VUndefined
         || strict_eq value (VStr "")
      then [mkElementIssue element rule req MissingValue
              "Value should not be empty" actual None]
      else []
  | CkEquals =>
      let differs := match req_expected req with
                     | ExpValue e => strict_neq value e
                     | ExpList _ => true
                     end in
      if differs
      then [mkElementIssue element rule req WrongValue
              (expected_String (req_expected req)) actual None]
      else []
  | CkInList =>
      let list := match req_expected req with
                  | ExpList l => l
                  | ExpValue e => [e]
                  end in
      if negb (includes list value)
      then [mkElementIssue element rule req WrongValue
              ("One of: " ++ join ", " list) actual None]
      else []
  | CkRange =>
      (* the two signs of the message that lie above code unit 255 are
         kept as the bytes of their UTF-8 form *)
      let num := js_Number value in
      if isNaN num
         || match req_min req with Some lo => SFltb num lo | None => false end
         || match req_max req with Some hi => SFltb hi num | None => false end
      then [mkElementIssue element rule req WrongValue
              (bound_String (req_min req) "-∞" ++ " ≤ value ≤ "
               ++ bound_String (req_max req) "∞") actual None]
      else []
  | CkRegex =>
      match req_pattern req with
      | None | Some EmptyString => []
      | Some pattern =>
          match regExpTest pattern (string_or_default value "") with
          | Some false =>
              [mkElementIssue element rule req Naming
                 ("Matches: " ++ pattern) actual (Some "Check naming convention")]
          | Some true | None => []
          end
      end
  | CkBoolean =>
      let isBool := match value with VBool _ => true | _ => false end in
      if negb isBool && strict_neq value (VStr "true")
         && strict_neq value (VStr "false") && strict_neq value (VStr ".T.")
         && strict_neq value (VStr ".F.")
      then [mkElementIssue element rule req WrongValue
              "Boolean value (true/false)" actual None]
      else []
  end.

(** The body of the loop over the requirements of a rule. *)
Definition checkRequirement (element : ValidateElement) (rule : ValidateRule)
  (req : Requirement) : list ValidationIssue :=
  match List.find (fun p => String.eqb (vpset_name p) (req_psetName req))
                  (ve_psets element) with
  | None =>
      match req_checkType req with
      | CkExists | CkNotEmpty =>
          [mkElementIssue element rule req MissingParam
             "Property should exist" "Property set not found" None]
      | _ => []
      end
  | Some pset =>
      match List.find (fun p => String.eqb (vprop_name p) (req_propertyName req))
                      (vpset_properties pset) with
      | None =>
          [mkElementIssue element rule req MissingParam
             "Property should exist" "Property not found" None]
      | Some prop => checkValue element rule req (vprop_value prop)
      end
  end.

(** An allow-list that is present and not empty, and does not hold [x]. *)
Definition excludedBy (allow : option (list string)) (x : string) : bool :=
  match allow with
  | Some (y :: l) => negb (existsb (String.eqb x) (y :: l))
  | Some [] | None => false
  end.

Definition checkElement (element : ValidateElement) (rule : ValidateRule)
  : list ValidationIssue :=
  let applicability := rule_applicability rule in
  if excludedBy (app_ifcClasses applicability) (ve_ifcClass element) then []
  else if excludedBy (app_disciplines applicability) (ve_discipline element) then []
  else List.flat_map (checkRequirement element rule) (rule_requirements rule).

Record ValidateResult : Type := mkResult {
  res_issues : list ValidationIssue;
  res_totalElements : Z;
  res_totalIssues : Z;
  res_errors : Z;
  res_warnings : Z;
  res_passed : Z
}.

Definition isError (i : ValidationIssue) : bool :=
  match issue_severity i with Error => true | Warning => false end.
Definition isWarning (i : ValidationIssue) : bool :=
  match issue_severity i with Warning => true | Error => false end.

(** The state of the two nested loops of [runValidation]: the issues so
    far and the set of express ids of the elements that have some. *)
Definition RunState : Type := (list ValidationIssue * gset Z)%type.

Definition runRule (element : ValidateElement) (acc : RunState)
  (rule : ValidateRule) : RunState :=
  let issues := checkElement element rule in
  if (0 <? List.length issues)%nat
  then ((fst acc ++ issues)%list, snd acc ∪ {[ ve_expressID element ]})
  else acc.

Definition runElement (rules : list ValidateRule) (acc : RunState)
  (element : ValidateElement) : RunState :=
  fold_left (runRule element) rules acc.

(** [runValidation], without the progress messages and the time stamp. *)
Definition runValidation (elements : list ValidateElement)
  (rules : list ValidateRule) : ValidateResult :=
  let total := Z.of_nat (List.length elements) in
  let '(allIssues, elementIssueMap) :=
    fold_left (runElement rules) elements ([], ∅) in
  {| res_issues := allIssues;
     res_totalElements := total;
     res_totalIssues := Z.of_nat (List.length allIssues);
     res_errors := Z.of_nat (List.length (List.filter isError allIssues));
     res_warnings := Z.of_nat (List.length (List.filter isWarning allIssues));
     res_passed := total - Z.of_nat (size elementIssueMap) |}.

End Validation.

(** ** IDS converter ([idsToRulePack]) *)

Inductive FacetType : Type :=
| FEntity | FAttribute | FProperty | FClassification | FMaterial | FPartOf.

Record IDSFacet : Type := mkFacet {
  facet_type : FacetType;
  facet_entityName : option string;
  facet_attributeName : option string;
  facet_psetName : option string;
  facet_propertyName : option string;
  facet_value : option string;
  facet_pattern : option string
}.

Inductive Cardinality : Type := Required | Optional | Prohibited.

Record IDSRequirement : Type := mkIDSRequirement {
  ireq_facet : IDSFacet;
  ireq_cardinality : Cardinality;
  ireq_description : option string
}.

Record IDSSpecification : Type := mkIDSSpecification {
  spec_name : string;
  spec_description : option string;
  spec_ifcVersion : option string;
  spec_applicability : list IDSFacet;
  spec_requirements : list IDSRequirement
}.

Record RulePack : Type := mkRulePack {
  pack_name : string;
  pack_version : string;
  pack_description : string;
  pack_rules : list ValidateRule
}.

(** [l.push(x)] *)
Definition push {A : Type} (l : list A) (x : A) : list A := (l ++ [x])%list.

(** [if (o)] on an optional string: present and not empty. *)
Definition truthy (o : option string) : bool :=
  match o with
  | Some (String _ _) => true
  | Some EmptyString | None => false
  end.

(** [o || d] *)
Definition opt_or (o : option string) (d : string) : string :=
  match o with
  | Some (String c s) => String c s
  | Some EmptyString | None => d
  end.

(** An optional string as an optional [any]. *)
Definition opt_expected (o : option string) : Expected :=
  match o with
  | Some v => ExpValue (VStr v)
  | None => ExpValue VUndefined
  end.

Definition facetTypeName (t : FacetType) : string :=
  match t with
  | FEntity => "entity"
  | FAttribute => "attribute"
  | FProperty => "property"
  | FClassification => "classification"
  | FMaterial => "material"
  | FPartOf => "partOf"
  end.

Definition dquote : string := String "034"%char EmptyString.

(** [toLowerCase] of a code unit below 256. *)
Definition lower_char (c : ascii) : ascii :=
  let n := Regex.code c in
  if ((65 <=? n) && (n <=? 90))%N then ascii_of_N (n + 32)
  else if ((192 <=? n) && (n <=? 222) && negb (n =? 215))%N then ascii_of_N (n + 32)
  else c.

Fixpoint toLowerCase (s : string) : string :=
  match s with
  | EmptyString => EmptyString
  | String c s' => String (lower_char c) (toLowerCase s')
  end.

(** [/\s+/g] *)
Definition re_spaces : Regex.regex := Regex.Plus (Regex.Chr Regex.is_space).

(** The requirement a property facet becomes. *)
Definition propertyRequirement (req : IDSRequirement) : Requirement :=
  let facet := ireq_facet req in
  let psetName := opt_or (facet_psetName facet) "" in
  let propertyName := opt_or (facet_propertyName facet) "" in
  let r (checkType : CheckType) (expected : Expected) (pattern : option string) :=
    {| req_psetName := psetName; req_propertyName := propertyName;
       req_checkType := checkType; req_expected := expected;
       req_min := None; req_max := None; req_pattern := pattern;
       req_severity := None |} in
  match ireq_cardinality req with
  | Required =>
      if truthy (facet_value facet)
      then r CkEquals (opt_expected (facet_value facet)) None
      else if truthy (facet_pattern facet)
      then r CkRegex (ExpValue VUndefined) (facet_pattern facet)
      else r CkNotEmpty (ExpValue VUndefined) None
  | Prohibited => r CkExists (ExpValue VUndefined) None
  | Optional => r CkExists (ExpValue VUndefined) None
  end.

(** The requirement an attribute facet with a name becomes. *)
Definition attributeRequirement (req : IDSRequirement) : Requirement :=
  let facet := ireq_facet req in
  {| req_psetName := "__attributes__";
     req_propertyName := opt_or (facet_attributeName facet) "";
     req_checkType := if truthy (facet_pattern facet) then CkRegex
                      else if truthy (facet_value facet) then CkEquals
                      else CkNotEmpty;
     req_expected := opt_expected (facet_value facet);
     req_min := None; req_max := None;
     req_pattern := facet_pattern facet;
     req_severity := None |}.

(** The loop over the requirements of a specification: the requirements
    and the unsupported facets so far. *)
Definition convertRequirement (specName : string)
  (acc : list Requirement * list string) (req : IDSRequirement)
  : list Requirement * list string :=
  match facet_type (ireq_facet req) with
  | FProperty => (push (fst acc) (propertyRequirement req), snd acc)
  | FAttribute =>
      if truthy (facet_attributeName (ireq_facet req))
      then (push (fst acc) (attributeRequirement req), snd acc)
      else acc
  | t =>
      (fst acc,
       push (snd acc) (facetTypeName t ++ " requirement in " ++ dquote
                       ++ specName ++ dquote))
  end.

(** The loop over the applicability facets: the classes and the
    unsupported facets so far. *)
Definition convertApplicability (specName : string)
  (acc : list string * list string) (facet : IDSFacet)
  : list string * list string :=
  let classes :=
    match facet_type facet with
    | FEntity => if truthy (facet_entityName facet)
                 then push (fst acc) (opt_or (facet_entityName facet) "")
                 else fst acc
    | _ => fst acc
    end in
  let unsupported :=
    match facet_type facet with
    | FClassification | FMaterial | FPartOf =>
        push (snd acc) (facetTypeName (facet_type facet) ++ " facet in " ++ dquote
                        ++ specName ++ dquote)
    | _ => snd acc
    end in
  (classes, unsupported).

(** The loop over the specifications: the rules and the unsupported
    facets so far. *)
Definition convertSpecification (acc : list ValidateRule * list string)
  (spec : IDSSpecification) : list ValidateRule * list string :=
  let '(ifcClasses, unsupported1) :=
    fold_left (convertApplicability (spec_name spec)) (spec_applicability spec)
              ([], snd acc) in
  let '(requirements, unsupported2) :=
    fold_left (convertRequirement (spec_name spec)) (spec_requirements spec)
              ([], unsupported1) in
  if (0 <? List.length requirements)%nat then
    (push (fst acc)
      ( {| rule_id := "ids-"
             ++ toLowerCase (Regex.replace_all (spec_name spec) re_spaces "-")
             ++ "-" ++ int_toString (Z.of_nat (List.length (fst acc)));
           rule_name := spec_name spec;
           rule_description := opt_or (spec_description spec) "";
           rule_applicability :=
             {| app_ifcClasses := if (0 <? List.length ifcClasses)%nat
                                  then Some ifcClasses else None;
                app_disciplines := None;
                app_psetNames := None |};
           rule_requirements := requirements |} ),
     unsupported2)
  else (fst acc, unsupported2).

(** [idsToRulePack], without the console warning. *)
Definition idsToRulePack (specs : list IDSSpecification) (fileName : string)
  : RulePack :=
  let '(rules, unsupportedFacets) := fold_left convertSpecification specs ([], []) in
  {| pack_name := "IDS: " ++ fileName;
     pack_version := "1.0";
     pack_description := "Imported from " ++ fileName ++ ". "
       ++ int_toString (Z.of_nat (List.length unsupportedFacets))
       ++ " unsupported facets skipped.";
     pack_rules := rules |}.

(** ** Notions the properties are stated with *)

(** The allow-lists of a rule let the element through. *)
Definition applicable (element : ValidateElement) (rule : ValidateRule) : Prop :=
  excludedBy (app_ifcClasses (rule_applicability rule)) (ve_ifcClass element) = false
  /\ excludedBy (app_disciplines (rule_applicability rule)) (ve_discipline element) = false.

(** The element has no property set of the name the requirement gives. *)
Definition psetAbsent (element : ValidateElement) (req : Requirement) : Prop :=
  forall pset, In pset (ve_psets element) -> vpset_name pset <> req_psetName req.

(** [pset] is the first property set of the element with the name the
    requirement gives. *)
Definition psetResolved (element : ValidateElement) (req : Requirement)
  (pset : ValidatePset) : Prop :=
  exists before after,
    ve_psets element = (before ++ pset :: after)%list
    /\ vpset_name pset = req_psetName req
    /\ forall p, In p before -> vpset_name p <> req_psetName req.

(** The property set has no property of the name the requirement gives. *)
Definition propertyAbsent (pset : ValidatePset) (req : Requirement) : Prop :=
  forall prop, In prop (vpset_properties pset) -> vprop_name prop <> req_propertyName req.

Definition presenceCheck (c : CheckType) : Prop := c = CkExists \/ c = CkNotEmpty.

(** An optional text that is left out or empty. *)
Definition noText (o : option string) : Prop := o = None \/ o = Some "".

(** The requirements a requirement of a specification becomes. *)
Definition convertedRequirements (req : IDSRequirement) : list Requirement :=
  match facet_type (ireq_facet req) with
  | FProperty => [propertyRequirement req]
  | FAttribute =>
      if truthy (facet_attributeName (ireq_facet req))
      then [attributeRequirement req] else []
  | _ => []
  end.

(** The properties of a model state. *)
Definition propertiesOf (st : ModelState) : list Property :=
  List.flat_map (fun entry => List.flat_map pset_properties (el_psets (snd entry)))
                (elements st).

(** A state as it is after loading: no property is modified and every
    value is the original one. *)
Definition loaded (st : ModelState) : Prop :=
  forall prop, In prop (propertiesOf st) ->
    prop_modified prop = false /\ prop_value prop = prop_originalValue prop.

(** The states the edits lead to. *)
Inductive reachable : ModelState -> Prop :=
| reachable_loaded : forall st, loaded st -> reachable st
| reachable_update : forall st elementID psetName propertyName value,
    reachable st ->
    reachable (updatePropertyValue st elementID psetName propertyName value).

(** The property [updatePropertyValue] writes to. *)
Definition lookupProperty (st : ModelState) (elementID : ExpressID)
  (psetName propertyName : string) : option Property :=
  match List.find (hasKey elementID) (elements st) with
  | None => None
  | Some (_, el) =>
      match List.find (psetNamed psetName) (el_psets el) with
      | None => None
      | Some pset => List.find (propNamed propertyName) (pset_properties pset)
      end
  end.

(** No property of an editable property set is both modified and
    different from its original value. *)
Definition noPendingEdit (st : ModelState) : Prop :=
  forall entry pset prop,
    In entry (elements st) -> In pset (el_psets (snd entry)) ->
    pset_isEditable pset = true -> In prop (pset_properties pset) ->
    ~ (prop_modified prop = true
       /\ strict_neq (prop_value prop) (prop_originalValue prop) = true).

(** [pat] occurs in [s] at offset [i]. *)
Definition Occurs (pat s : string) (i : nat) : Prop :=
  exists a b, s = a ++ pat ++ b /\ String.length a = i.

Definition Contains (pat s : string) : Prop := exists i, Occurs pat s i.

(** [s] is [a], then the first occurrence of [pat], then [b]. *)
Definition FirstAt (pat s a b : string) : Prop :=
  s = a ++ pat ++ b /\ forall j, (j < String.length a)%nat -> ~ Occurs pat s j.

(** The text a record starts with in the file: [#], its id and [=]. *)
Definition patchKey (p : PatchEntry) : string :=
  "#" ++ int_toString (patch_expressID p) ++ "=".

(** [pre] is the text before the first occurrence of [key], [body] the
    text from there up to the first semicolon and [post] the text after
    that semicolon; the line of the record is [body] and the semicolon. *)
Definition Located (key cur pre body post : string) : Prop :=
  (exists r, FirstAt key cur pre r)
  /\ cur = pre ++ body ++ ";" ++ post
  /\ FirstAt ";" (body ++ ";" ++ post) body post.

(** The four ways a patch fails on the text [cur]. *)
Definition PatchFails (cur : string) (p : PatchEntry) : Prop :=
  ~ Contains (patchKey p) cur
  \/ (exists pre r, FirstAt (patchKey p) cur pre r
                    /\ ~ Contains ";" (patchKey p ++ r))
  \/ patch_oldValue p = "$"
  \/ (exists pre body post,
        Located (patchKey p) cur pre body post
        /\ ~ Contains (patch_oldValue p) (body ++ ";")).

(** The patch turns [cur] into [out]: the first occurrence of the old
    value in the line of the record is replaced by the new value. *)
Definition PatchApplies (cur : string) (p : PatchEntry) (out : string) : Prop :=
  patch_oldValue p <> "$"
  /\ exists pre body post a b,
       Located (patchKey p) cur pre body post
       /\ FirstAt (patch_oldValue p) (body ++ ";") a b
       /\ out = pre ++ (a ++ patch_newValue p ++ b) ++ post.

(** The patches applied one after the other, each to the text the ones
    before it left. *)
Inductive Patched : string -> list PatchEntry -> string -> Prop :=
| Patched_nil : forall text, Patched text [] text
| Patched_cons : forall text p mid rest out,
    PatchApplies text p mid -> Patched mid rest out ->
    Patched text (p :: rest) out.

(** Every code unit of [s] passes the test [p]. *)
Fixpoint str_forall (p : ascii -> bool) (s : string) : bool :=
  match s with
  | EmptyString => true
  | String c s' => p c && str_forall p s'
  end.

(** The number a string of decimal digits stands for. *)
Fixpoint digits_value (acc : Z) (s : string) : Z :=
  match s with
  | EmptyString => acc
  | String c s' => digits_value (10 * acc + (Z.of_N (Regex.code c) - 48)) s'
  end.

(** The id an issue is given. *)
Definition issueId (expressID : ExpressID) (ruleId propertyName : string) : string :=
  int_toString expressID ++ "-" ++ ruleId ++ "-" ++ propertyName.

(** The text with every single quote written twice. *)
Fixpoint doubleQuotes (s : string) : string :=
  match s with
  | EmptyString => EmptyString
  | String c s' =>
      if Ascii.eqb c "'" then String "'" (String "'" (doubleQuotes s'))
      else String c (doubleQuotes s')
  end.

Definition is_zero (c : ascii) : bool := Ascii.eqb "0" c.

(** The text without the zeros it ends with. *)
Fixpoint stripZeros (s : string) : string :=
  match s with
  | EmptyString => EmptyString
  | String c s' =>
      if str_forall is_zero (String c s') then EmptyString
      else String c (stripZeros s')
  end.

(** The digits after the decimal point once trimmed: the zeros at the
    end are dropped, and one zero is kept when nothing else is left. *)
Definition trimFraction (digits : string) : string :=
  match stripZeros digits with
  | EmptyString => "0"
  | kept => kept
  end.

(** The state of a match that has read all the input left. *)
Definition at_end (st : Regex.mstate) : Regex.mstate :=
  {| Regex.m_pos := Regex.m_pos st + String.length (Regex.m_rest st);
     Regex.m_rest := ""; Regex.m_caps := Regex.m_caps st |}.

(** The text with [0] added when it ends with a decimal point. *)
Fixpoint padPoint (s : string) : string :=
  match s with
  | EmptyString => EmptyString
  | String c s' =>
      match s' with
      | EmptyString => if Ascii.eqb "." c then ".0" else String c EmptyString
      | _ => String c (padPoint s')
      end
  end.

(** [n] is the integer nearest to [num / den * 10^f], the larger one of
    two. *)
Definition roundsTo (num den f n : Z) : Prop :=
  2 * n * den - den <= 2 * num * 10 ^ f < 2 * n * den + den.

Definition signText (negative : bool) : string :=
  if negative then "-" else "".

(** What a header section is: it starts with [HEADER;] and ends with
    its only [ENDSEC;]. *)
Definition headerShaped (header body : string) : Prop :=
  (exists rest, header = "HEADER;" ++ rest)
  /\ FirstAt "ENDSEC;" header body "".

(** ** Constants ([constants/index.ts]) *)

(** [\w] *)
Definition is_word (c : ascii) : bool :=
  let n := Regex.code c in
  (((48 <=? n) && (n <=? 57)) || ((65 <=? n) && (n <=? 90)) || (n =? 95)
   || ((97 <=? n) && (n <=? 122)))%N.

(** A literal text in a pattern without the [i] flag. *)
Fixpoint word (w : string) : Regex.regex :=
  match w with
  | EmptyString => Regex.Eps
  | String c EmptyString => Regex.lit c
  | String c w' => Regex.Seq (Regex.lit c) (word w')
  end.

(** [/^Pset_\w+Common$/] *)
Definition PSET_COMMON_REGEX : Regex.regex :=
  Regex.seq [ Regex.Bol; word "Pset_"; Regex.Plus (Regex.Chr is_word);
              word "Common"; Regex.Eol ].

Definition isPsetCommon (psetName : string) : bool :=
  Regex.test PSET_COMMON_REGEX psetName.

(** ** The loader ([IfcLoaderService.loadFile], the [result] message) *)

Record ParsedProperty : Type := mkParsedProperty {
  pp_name : string;
  pp_expressID : ExpressID;
  pp_value : PropertyValue;
  pp_type : string
}.

Record ParsedPset : Type := mkParsedPset {
  ppset_name : string;
  ppset_expressID : ExpressID;
  ppset_properties : list ParsedProperty
}.

Record ParsedElement : Type := mkParsedElement {
  pe_expressID : ExpressID;
  pe_globalId : string;
  pe_name : string;
  pe_tag : string;
  pe_ifcClass : string;
  pe_ifcType : Z;
  pe_level : string;
  pe_zone : string;
  pe_psets : list ParsedPset
}.

(** [m.set(k, v)] on the entries of a [Map]: the value of an entry that
    is there is replaced where it stands, a new entry goes to the end. *)
Definition map_set (m : list (ExpressID * IfcElement)) (k : ExpressID)
  (v : IfcElement) : list (ExpressID * IfcElement) :=
  if existsb (hasKey k) m then update_first (hasKey k) (fun _ => (k, v)) m
  else push m (k, v).

Section Loader.

(** The discipline of a class is a lookup in a table of the constants;
    it is left open here. *)
Variable getDiscipline : string -> string.

Definition loadPset (ps : ParsedPset) : PropertySet :=
  {| pset_name := ppset_name ps;
     pset_expressID := ppset_expressID ps;
     pset_isEditable := isPsetCommon (ppset_name ps);
     pset_properties :=
       List.map (fun p => loadProperty (pp_name p) (pp_expressID p) (pp_value p)
                            (pp_type p))
                (ppset_properties ps) |}.

Definition loadElement (parsed : ParsedElement) : IfcElement :=
  {| el_expressID := pe_expressID parsed;
     el_globalId := pe_globalId parsed;
     el_name := pe_name parsed;
     el_tag := pe_tag parsed;
     el_ifcClass := pe_ifcClass parsed;
     el_ifcType := pe_ifcType parsed;
     el_level := pe_level parsed;
     el_zone := pe_zone parsed;
     el_discipline := getDiscipline (pe_ifcClass parsed);
     el_psets := List.map loadPset (pe_psets parsed);
     el_modelID := 0 |}.

(** The loop that fills the map of the elements. *)
Definition loadElements (parsed : list ParsedElement)
  : list (ExpressID * IfcElement) :=
  fold_left (fun m p => map_set m (pe_expressID p) (loadElement p)) parsed [].

(** The model store once the file is read and parsed, as far as the
    export and the editing read it. *)
Definition loadFile (originalText : string) (parsed : list ParsedElement)
  : ModelState :=
  {| originalIfcText := Some originalText; elements := loadElements parsed |}.

End Loader.

(** ** The stores ([useEditHistoryStore], [useSelectionStore],
    [useVisibilityStore], [useValidationStore]) *)

(** A [Set] of numbers, kept as its members in insertion order. *)
Module NumberSet.

Definition t : Type := list Z.

Definition has (s : t) (x : Z) : bool := existsb (Z.eqb x) s.

Definition add (s : t) (x : Z) : t := if has s x then s else push s x.

Definition delete (s : t) (x : Z) : t := List.filter (fun y => negb (y =? x)) s.

(** [new Set(ids)] *)
Definition of_list (ids : list Z) : t := fold_left add ids [].

End NumberSet.

(** [l[l.length - 1]] *)
Fixpoint lastItem {A : Type} (l : list A) : option A :=
  match l with
  | [] => None
  | [x] => Some x
  | _ :: l' => lastItem l'
  end.

(** *** Edit history *)

Record EditAction : Type := mkEditAction {
  act_elementIDs : list ExpressID;
  act_psetName : string;
  act_propertyName : string;
  act_oldValues : list (ExpressID * PropertyValue);
  act_newValue : PropertyValue;
  act_timestamp : Z
}.

Record EditHistoryState : Type := mkEditHistory {
  undoStack : list EditAction;
  redoStack : list EditAction
}.

Definition pushEdit (action : EditAction) (s : EditHistoryState) : EditHistoryState :=
  {| undoStack := push (undoStack s) action; redoStack := [] |}.

(** [undo] and [redo] return the action, or [undefined] when the stack
    is empty, and leave the new state. *)
Definition undo (s : EditHistoryState) : option EditAction * EditHistoryState :=
  match lastItem (undoStack s) with
  | None => (None, s)
  | Some action =>
      (Some action,
       {| undoStack := removelast (undoStack s);
          redoStack := push (redoStack s) action |})
  end.

Definition redo (s : EditHistoryState) : option EditAction * EditHistoryState :=
  match lastItem (redoStack s) with
  | None => (None, s)
  | Some action =>
      (Some action,
       {| redoStack := removelast (redoStack s);
          undoStack := push (undoStack s) action |})
  end.

Definition clear (s : EditHistoryState) : EditHistoryState :=
  {| undoStack := []; redoStack := [] |}.

(** *** The edit of one property and its undo
    ([handlePropertyChange], [handleUndo] of the inspector)

    The two stores the handlers write to are the model and the edit
    history; [now] is the time stamp the action is given. *)

Definition AppState : Type := (ModelState * EditHistoryState)%type.

Definition handlePropertyChange (element : IfcElement) (now : Z)
  (pset : PropertySet) (prop : Property) (newValue : PropertyValue)
  (app : AppState) : AppState :=
  let oldValues := [ (el_expressID element, prop_value prop) ] in
  let history :=
    pushEdit {| act_elementIDs := [ el_expressID element ];
                act_psetName := pset_name pset;
                act_propertyName := prop_name prop;
                act_oldValues := oldValues;
                act_newValue := newValue;
                act_timestamp := now |} (snd app) in
  (updatePropertyValue (fst app) (el_expressID element) (pset_name pset)
     (prop_name prop) newValue,
   history).

Definition handleUndo (app : AppState) : AppState :=
  match undo (snd app) with
  | (None, _) => app
  | (Some action, history) =>
      (fold_left
         (fun st entry =>
            updatePropertyValue st (fst entry) (act_psetName action)
              (act_propertyName action) (snd entry))
         (act_oldValues action) (fst app),
       history)
  end.

(** *** Selection *)

Record SelectionState : Type := mkSelection {
  selectedIDs : NumberSet.t;
  hoveredID : option Z;
  lastSelectedID : option Z
}.

Definition select (id : Z) (s : SelectionState) : SelectionState :=
  {| selectedIDs := NumberSet.of_list [ id ];
     hoveredID := hoveredID s;
     lastSelectedID := Some id |}.

Definition toggleSelect (id : Z) (s : SelectionState) : SelectionState :=
  let next := selectedIDs s in
  {| selectedIDs := if NumberSet.has next id then NumberSet.delete next id
                    else NumberSet.add next id;
     hoveredID := hoveredID s;
     lastSelectedID := Some id |}.

Definition addToSelection (ids : list Z) (s : SelectionState) : SelectionState :=
  {| selectedIDs := fold_left NumberSet.add ids (selectedIDs s);
     hoveredID := hoveredID s;
     lastSelectedID := match lastItem ids with
                       | Some id => Some id
                       | None => lastSelectedID s
                       end |}.

Definition removeFromSelection (ids : list Z) (s : SelectionState) : SelectionState :=
  {| selectedIDs := fold_left NumberSet.delete ids (selectedIDs s);
     hoveredID := hoveredID s;
     lastSelectedID := lastSelectedID s |}.

Definition clearSelection (s : SelectionState) : SelectionState :=
  {| selectedIDs := []; hoveredID := None; lastSelectedID := None |}.

Definition setHovered (id : option Z) (s : SelectionState) : SelectionState :=
  {| selectedIDs := selectedIDs s; hoveredID := id;
     lastSelectedID := lastSelectedID s |}.

(** *** Visibility *)

Record VisibilityState : Type := mkVisibility {
  hiddenIDs : NumberSet.t;
  isolatedIDs : option NumberSet.t
}.

Definition hideElements (ids : list Z) (s : VisibilityState) : VisibilityState :=
  {| hiddenIDs := fold_left NumberSet.add ids (hiddenIDs s);
     isolatedIDs := isolatedIDs s |}.

Definition unhideAll (s : VisibilityState) : VisibilityState :=
  {| hiddenIDs := []; isolatedIDs := None |}.

Definition isolateElements (ids : list Z) (s : VisibilityState) : VisibilityState :=
  {| isolatedIDs := Some (NumberSet.of_list ids); hiddenIDs := [] |}.

Definition clearIsolation (s : VisibilityState) : VisibilityState :=
  {| hiddenIDs := hiddenIDs s; isolatedIDs := None |}.

Definition isVisible (s : VisibilityState) (id : Z) : bool :=
  match isolatedIDs s with
  | Some isolated => NumberSet.has isolated id
  | None => negb (NumberSet.has (hiddenIDs s) id)
  end.

(** *** Validation result *)

Definition getIssuesForElement (validationResult : option ValidateResult)
  (expressID : ExpressID) : list ValidationIssue :=
  match validationResult with
  | None => []
  | Some result =>
      List.filter (fun i => issue_expressID i =? expressID) (res_issues result)
  end.

(** ** The validation service ([ValidationService.validate]) *)

Definition toValidateProperty (p : Property) : ValidateProperty :=
  {| vprop_name := prop_name p; vprop_value := prop_value p;
     vprop_type := prop_type p |}.

Definition toValidatePset (ps : PropertySet) : ValidatePset :=
  {| vpset_name := pset_name ps;
     vpset_properties := List.map toValidateProperty (pset_properties ps) |}.

Definition toValidateElement (el : IfcElement) : ValidateElement :=
  {| ve_expressID := el_expressID el;
     ve_globalId := el_globalId el;
     ve_name := el_name el;
     ve_tag := el_tag el;
     ve_ifcClass := el_ifcClass el;
     ve_level := el_level el;
     ve_zone := el_zone el;
     ve_discipline := el_discipline el;
     ve_psets := List.map toValidatePset (el_psets el) |}.

(** The outcome of [validate]: a thrown error, or the result the worker
    sends back. *)
Inductive ValidateOutcome : Type :=
| ValidateThrows : string -> ValidateOutcome
| Validated : ValidateResult -> ValidateOutcome.

Section ValidationService.

Variable stringToNumber : string -> Num.number.
Variable regExpTest : string -> string -> option bool.

(** [validate], without the worker and the progress messages: the
    elements of the model store are handed to [runValidation] in the
    order of the map, with the rules of the pack. *)
Definition validate (st : ModelState) (rulePack : RulePack) : ValidateOutcome :=
  if (List.length (elements st) =? 0)%nat then ValidateThrows "No model loaded"
  else Validated
         (runValidation stringToNumber regExpTest
            (List.map (fun entry => toValidateElement (snd entry)) (elements st))
            (pack_rules rulePack)).

End ValidationService.

(** ** Notions of the further properties *)

(** The value [rebuildPropertyLine] writes for a formatted value: the
    wrapper is chosen by the shape of the text. *)
Definition wrapValue (newValue : string) : string :=
  if String.eqb newValue "$" then "$"
  else if String.eqb newValue ".T." || String.eqb newValue ".F." then
    "IFCBOOLEAN(" ++ newValue ++ ")"
  else if Regex.test re_numeric newValue then
    "IFCREAL(" ++ newValue ++ ")"
  else if Js.startsWith newValue "'" && Js.endsWith newValue "'" then
    "IFCLABEL(" ++ newValue ++ ")"
  else newValue.
Section ValidationNotions.

Variable stringToNumber : string -> Num.number.
Variable regExpTest : string -> string -> option bool.

(** The issues of an element under the rules, rule by rule. *)
Definition issuesOf (rules : list ValidateRule) (element : ValidateElement)
  : list ValidationIssue :=
  List.flat_map (checkElement stringToNumber regExpTest element) rules.

(** The element has no issue under the rules. *)
Definition passes (rules : list ValidateRule) (element : ValidateElement) : bool :=
  match issuesOf rules element with [] => true | _ :: _ => false end.

End ValidationNotions.

(** An allow-list lets [x] through: it is left out, empty, or holds [x]. *)
Definition allows (allow : option (list string)) (x : string) : Prop :=
  match allow with
  | None | Some [] => True
  | Some l => In x l
  end.

(** The keys of the map of the elements are distinct and each is the
    express id of its element. *)
Definition wellKeyed (st : ModelState) : Prop :=
  NoDup (List.map fst (elements st))
  /\ forall entry, In entry (elements st) -> el_expressID (snd entry) = fst entry.
(** The specification has a requirement that converts: a property
    facet, or an attribute facet with a name. *)
Definition convertible (spec : IDSSpecification) : bool :=
  match List.flat_map convertedRequirements (spec_requirements spec) with
  | [] => false
  | _ :: _ => true
  end.

(** The names of the entity facets of the applicability that have one. *)
Definition entityNames (spec : IDSSpecification) : list string :=
  List.flat_map
    (fun facet =>
       match facet_type facet, facet_entityName facet with
       | FEntity, Some (String c s) => [ String c s ]
       | _, _ => []
       end)
    (spec_applicability spec).

(** The facets that are counted as unsupported: a classification,
    material or part-of facet of the applicability, and a requirement
    whose facet is neither a property nor an attribute. *)
Definition unsupportedApplicability (facet : IDSFacet) : bool :=
  match facet_type facet with
  | FClassification | FMaterial | FPartOf => true
  | _ => false
  end.

Definition unsupportedRequirement (req : IDSRequirement) : bool :=
  match facet_type (ireq_facet req) with
  | FProperty | FAttribute => false
  | _ => true
  end.

Definition unsupportedCount (spec : IDSSpecification) : nat :=
  (List.length (List.filter unsupportedApplicability (spec_applicability spec))
   + List.length (List.filter unsupportedRequirement (spec_requirements spec)))%nat.

(** The rule a convertible specification becomes when [index] rules
    were made before it. *)
Definition ruleOf (index : nat) (spec : IDSSpecification) : ValidateRule :=
  {| rule_id := "ids-" ++ toLowerCase (Regex.replace_all (spec_name spec) re_spaces "-")
                ++ "-" ++ int_toString (Z.of_nat index);
     rule_name := spec_name spec;
     rule_description := opt_or (spec_description spec) "";
     rule_applicability :=
       {| app_ifcClasses := match entityNames spec with
                            | [] => None
                            | names => Some names
                            end;
          app_disciplines := None;
          app_psetNames := None |};
     rule_requirements :=
       List.flat_map convertedRequirements (spec_requirements spec) |}.

Fixpoint rulesFrom (index : nat) (specs : list IDSSpecification)
  : list ValidateRule :=
  match specs with
  | [] => []
  | spec :: rest =>
      if convertible spec then ruleOf index spec :: rulesFrom (S index) rest
      else rulesFrom index rest
  end.
(** Every property set is editable exactly when its name matches
    [isPsetCommon], as the loader sets it. *)
Definition editableByName (st : ModelState) : Prop :=
  forall entry pset,
    In entry (elements st) -> In pset (el_psets (snd entry)) ->
    pset_isEditable pset = isPsetCommon (pset_name pset).

(** A write to the model store: element, property set, property, value. *)
Definition Edit : Type := (ExpressID * string * string * PropertyValue)%type.

Definition applyEdit (st : ModelState) (e : Edit) : ModelState :=
  let '(elementID, psetName, propertyName, value) := e in
  updatePropertyValue st elementID psetName propertyName value.

Definition applyEdits (edits : list Edit) (st : ModelState) : ModelState :=
  fold_left applyEdit edits st.

(** The texts a pattern stands for, the anchors standing for the empty
    text. *)
Inductive lang : Regex.regex -> string -> Prop :=
| lang_eps : lang Regex.Eps ""
| lang_chr : forall p c, p c = true -> lang (Regex.Chr p) (String c "")
| lang_seq : forall a b s t, lang a s -> lang b t -> lang (Regex.Seq a b) (s ++ t)
| lang_alt_l : forall a b s, lang a s -> lang (Regex.Alt a b) s
| lang_alt_r : forall a b s, lang b s -> lang (Regex.Alt a b) s
| lang_star_nil : forall a, lang (Regex.Star a) ""
| lang_star_cons : forall a s t,
    lang a s -> lang (Regex.Star a) t -> lang (Regex.Star a) (s ++ t)
| lang_group : forall i a s, lang a s -> lang (Regex.Group i a) s
| lang_bol : lang Regex.Bol ""
| lang_eol : lang Regex.Eol "".

(** The pattern has no capture group. *)
Fixpoint groupfree (r : Regex.regex) : bool :=
  match r with
  | Regex.Group _ _ => false
  | Regex.Seq a b | Regex.Alt a b => groupfree a && groupfree b
  | Regex.Star a => groupfree a
  | _ => true
  end.

(** The state [st'] of a match lies [consumed] further on in the input
    than [st]. *)
Definition ahead (st : Regex.mstate) (consumed : string) (st' : Regex.mstate)
  : Prop :=
  Regex.m_rest st = consumed ++ Regex.m_rest st'
  /\ Regex.m_pos st' = (Regex.m_pos st + String.length consumed)%nat.
(** No character test of the pattern lets the code unit [c] through. *)
Fixpoint rejects (c : ascii) (r : Regex.regex) : bool :=
  match r with
  | Regex.Chr p => negb (p c)
  | Regex.Seq a b | Regex.Alt a b => rejects c a && rejects c b
  | Regex.Star a | Regex.Group _ a => rejects c a
  | _ => true
  end.

(** How often the code unit [c] occurs in [s]. *)
Fixpoint count (c : ascii) (s : string) : nat :=
  match s with
  | EmptyString => O
  | String d s' => ((if Ascii.eqb d c then 1 else 0) + count c s')%nat
  end.

(** A record the pattern of [rebuildPropertyLine] cannot match: after
    its first two arguments, which hold no comma, it has two closing
    parentheses or more, as a record with a typed value and its own
    closing parenthesis has, or a closing parenthesis and no opening
    one, as a record without a value has. *)
Definition closedRecord (line : string) : Prop :=
  exists a b rest,
    line = a ++ "," ++ b ++ "," ++ rest
    /\ count "," a = O /\ count "," b = O
    /\ ((2 <= count ")" rest)%nat
        \/ ((1 <= count ")" rest)%nat /\ count "(" rest = O)).
(** The three groups of the pattern of [rebuildPropertyLine]. *)
Definition re_line_prefix : Regex.regex :=
  let ws := Regex.Star (Regex.Chr Regex.is_space) in
  let no_comma := Regex.Chr (Regex.none_of_i [","%char]) in
  Regex.seq
    [ Regex.lit_i "#"; Regex.Plus (Regex.Chr Regex.is_digit); Regex.lit_i "=";
      ws; Regex.word_i "IFCPROPERTYSINGLEVALUE"; ws; Regex.lit_i "(";
      Regex.Plus no_comma; Regex.lit_i ","; Regex.Star no_comma;
      Regex.lit_i ","; ws ].

Definition re_line_value : Regex.regex :=
  let no_paren := Regex.Chr (Regex.none_of_i [")"%char]) in
  let no_comma_paren := Regex.Chr (Regex.none_of_i [","%char; ")"%char]) in
  Regex.seq
    [ Regex.Plus no_comma_paren;
      Regex.Opt (Regex.seq
        [ Regex.lit_i "("; Regex.Star no_paren; Regex.lit_i ")" ]) ].

Definition re_line_suffix : Regex.regex :=
  let ws := Regex.Star (Regex.Chr Regex.is_space) in
  let no_paren := Regex.Chr (Regex.none_of_i [")"%char]) in
  Regex.seq
    [ ws;
      Regex.Opt (Regex.seq [ Regex.lit_i ","; Regex.Star no_paren ]);
      Regex.Opt (Regex.lit_i ";"); ws ].

(** The line of the record [key] starts in [text]: from the first
    occurrence of [key] up to the first semicolon after it, that
    semicolon included. *)
Definition recordLine (key text : string) : option string :=
  match Js.find key text with
  | None => None
  | Some lineStart =>
      match Js.find ";" (Js.str_drop lineStart text) with
      | None => None
      | Some i => Some (Js.str_take (S i) (Js.str_drop lineStart text))
      end
  end.

(** ** Sample data *)

Module Sample.

(** A STEP file whose header holds a comment with two dollar signs and
    the text of a record. *)
Definition text : string :=
  "ISO-10303-21;HEADER;/* $$ #7=IFCPROPERTYSINGLEVALUE('Ref',$,IFCLABEL('A'); */"
  ++ "FILE_SCHEMA(('IFC4'));ENDSEC;DATA;"
  ++ "#7=IFCPROPERTYSINGLEVALUE('Ref',$,IFCLABEL('A'),$);ENDSEC;END-ISO-10303-21;".

Definition property (value : PropertyValue) (modified : bool) : Property :=
  {| prop_name := "Ref"; prop_expressID := 7; prop_value := value;
     prop_type := "IfcLabel"; prop_originalValue := VStr "A";
     prop_modified := modified |}.

Definition state (value : PropertyValue) (modified : bool) : ModelState :=
  {| originalIfcText := Some text;
     elements :=
       [ (5, {| el_expressID := 5; el_globalId := "guid-5"; el_name := "Wall";
                el_tag := "tag-5"; el_ifcClass := "IfcWall"; el_ifcType := 2391406946;
                el_level := "Level 1"; el_zone := ""; el_discipline := "Architecture";
                el_psets :=
                  [ {| pset_name := "Pset_WallCommon"; pset_expressID := 6;
                       pset_properties := [ property value modified ];
                       pset_isEditable := true |} ];
                el_modelID := 0 |}) ] |}.

Definition patch : PatchEntry :=
  {| patch_expressID := 7; patch_propertyName := "Ref";
     patch_psetName := "Pset_WallCommon";
     patch_oldValue := "'A'"; patch_newValue := "'B'" |}.

(** A record whose value is absent, and the patch that gives it one. *)
Definition nullLine : string := "#1=IFCPROPERTYSINGLEVALUE('N',$,$,$);".


(** A model state whose original text is the empty text. *)
Definition emptyState : ModelState :=
  {| originalIfcText := Some ""; elements := [] |}.

(** A record on its own. *)
Definition line : string := "#7=IFCPROPERTYSINGLEVALUE('Ref',$,IFCLABEL('A'),$);".

(** The numbers [42] and [3.14]. *)
Definition fortyTwo : Num.number := S754_finite false 5910974510923776 (-47).
Definition pi314 : Num.number := S754_finite false 7070651414971679 (-51).

Definition noNumber (s : string) : Num.number := S754_nan.
Definition noRegExp (pattern s : string) : option bool := None.

Definition element : ValidateElement :=
  {| ve_expressID := 1; ve_globalId := "guid-1"; ve_name := "Wall"; ve_tag := "";
     ve_ifcClass := "IfcWall"; ve_level := ""; ve_zone := "";
     ve_discipline := "Architecture"; ve_psets := [] |}.

Definition requirement (propertyName : string) : Requirement :=
  {| req_psetName := "Pset_WallCommon"; req_propertyName := propertyName;
     req_checkType := CkExists; req_expected := ExpValue VUndefined;
     req_min := None; req_max := None; req_pattern := None; req_severity := None |}.

Definition rule (id propertyName : string) : ValidateRule :=
  {| rule_id := id; rule_name := "Rule"; rule_description := "";
     rule_applicability :=
       {| app_ifcClasses := None; app_disciplines := None; app_psetNames := None |};
     rule_requirements := [ requirement propertyName ] |}.

(** The issue of the sample element for the sample rule of a given id. *)
Definition issue (ruleId : string) : ValidationIssue :=
  mkElementIssue element (rule ruleId "FireRating") (requirement "FireRating")
    MissingParam "Property should exist" "Property set not found" None.

Definition facet (value pattern : option string) : IDSFacet :=
  {| facet_type := FProperty; facet_entityName := None; facet_attributeName := None;
     facet_psetName := Some "Pset_WallCommon"; facet_propertyName := Some "FireRating";
     facet_value := value; facet_pattern := pattern |}.

Definition specification (value pattern : option string) : IDSSpecification :=
  {| spec_name := "Fire rating"; spec_description := None; spec_ifcVersion := None;
     spec_applicability := [];
     spec_requirements :=
       [ {| ireq_facet := facet value pattern; ireq_cardinality := Required;
            ireq_description := None |} ] |}.

(** A file with two records of a wall, and what the parser makes of it. *)
Definition cleanText : string :=
  "ISO-10303-21;HEADER;FILE_SCHEMA(('IFC4'));ENDSEC;DATA;"
  ++ "#7=IFCPROPERTYSINGLEVALUE('Ref',$,IFCLABEL('A'),$);"
  ++ "#8=IFCPROPERTYSINGLEVALUE('IsExternal',$,IFCBOOLEAN(.T.),$);"
  ++ "ENDSEC;END-ISO-10303-21;".

Definition parsedPset : ParsedPset :=
  {| ppset_name := "Pset_WallCommon"; ppset_expressID := 6;
     ppset_properties :=
       [ {| pp_name := "Ref"; pp_expressID := 7; pp_value := VStr "A";
            pp_type := "IfcLabel" |};
         {| pp_name := "IsExternal"; pp_expressID := 8; pp_value := VBool true;
            pp_type := "IfcBoolean" |} ] |}.

Definition parsedWall : ParsedElement :=
  {| pe_expressID := 5; pe_globalId := "guid-5"; pe_name := "Wall";
     pe_tag := "tag-5"; pe_ifcClass := "IfcWall"; pe_ifcType := 2391406946;
     pe_level := "Level 1"; pe_zone := ""; pe_psets := [ parsedPset ] |}.

Definition disciplineOf (ifcClass : string) : string := "Architecture".

(** The model the file loads as, its element, property set and first
    property. *)
Definition wall : ModelState := loadFile disciplineOf cleanText [ parsedWall ].
Definition wallElement : IfcElement := loadElement disciplineOf parsedWall.
Definition wallPset : PropertySet := loadPset parsedPset.
Definition refProperty : Property := loadProperty "Ref" 7 (VStr "A") "IfcLabel".

(** The edit of [Ref] from [A] to [B]. *)
Definition action : EditAction :=
  {| act_elementIDs := [ 5 ]; act_psetName := "Pset_WallCommon";
     act_propertyName := "Ref"; act_oldValues := [ (5, VStr "A") ];
     act_newValue := VStr "B"; act_timestamp := 0 |}.

(** A rule for doors only. *)
Definition doorRule : ValidateRule :=
  {| rule_id := "door"; rule_name := "Doors"; rule_description := "";
     rule_applicability :=
       {| app_ifcClasses := Some [ "IfcDoor" ]; app_disciplines := None;
          app_psetNames := None |};
     rule_requirements := [ requirement "FireRating" ] |}.

(** A pack with the sample rule. *)
Definition pack : RulePack :=
  {| pack_name := "Pack"; pack_version := "1.0"; pack_description := "";
     pack_rules := [ rule "R1" "FireRating" ] |}.

(** A requirement on the attribute [Name] with a literal and a pattern. *)
Definition attributeReq : IDSRequirement :=
  {| ireq_facet :=
       {| facet_type := FAttribute; facet_entityName := None;
          facet_attributeName := Some "Name"; facet_psetName := None;
          facet_propertyName := None; facet_value := Some "Wall-01";
          facet_pattern := Some "^W" |};
     ireq_cardinality := Prohibited; ireq_description := None |}.

Definition attributeSpec : IDSSpecification :=
  {| spec_name := "Wall names"; spec_description := None; spec_ifcVersion := None;
     spec_applicability := []; spec_requirements := [ attributeReq ] |}.

(** A file whose one record has no value, and the model in which that
    property was given the value [x]. *)
Definition unsetText : string :=
  "ISO-10303-21;HEADER;ENDSEC;DATA;" ++ nullLine ++ "ENDSEC;END-ISO-10303-21;".

Definition unsetState : ModelState :=
  {| originalIfcText := Some unsetText;
     elements :=
       [ (2, {| el_expressID := 2; el_globalId := "guid-2"; el_name := "Wall";
                el_tag := ""; el_ifcClass := "IfcWall"; el_ifcType := 2391406946;
                el_level := ""; el_zone := ""; el_discipline := "Architecture";
                el_psets :=
                  [ {| pset_name := "Pset_WallCommon"; pset_expressID := 3;
                       pset_properties :=
                         [ {| prop_name := "N"; prop_expressID := 1;
                              prop_value := VStr "x"; prop_type := "IfcLabel";
                              prop_originalValue := VNull;
                              prop_modified := true |} ];
                       pset_isEditable := true |} ];
                el_modelID := 0 |}) ] |}.

End Sample.

(** * Properties *)

(** ** Strings *)

Lemma str_app_nil_r (s : string) : s ++ "" = s.
Proof. induction s; simpl; congruence. Qed.

Lemma str_app_assoc (a b c : string) : (a ++ b) ++ c = a ++ b ++ c.
Proof. induction a; simpl; congruence. Qed.

Lemma str_length_app (a b : string) :
  String.length (a ++ b) = (String.length a + String.length b)%nat.
Proof. induction a; simpl; congruence. Qed.

Lemma str_take_drop (n : nat) (s : string) : Js.str_take n s ++ Js.str_drop n s = s.
Proof.
  revert s. induction n as [|n IH]; intros s; [reflexivity|].
  destruct s; simpl; [reflexivity|]. now rewrite IH.
Qed.

Lemma str_take_app (a b : string) : Js.str_take (String.length a) (a ++ b) = a.
Proof. induction a; simpl; [now destruct b|congruence]. Qed.

Lemma str_drop_app (a b : string) : Js.str_drop (String.length a) (a ++ b) = b.
Proof. induction a; simpl; [reflexivity|assumption]. Qed.

Lemma str_length_take (n : nat) (s : string) :
  String.length (Js.str_take n s) = Nat.min n (String.length s).
Proof.
  revert s. induction n as [|n IH]; intros s; [reflexivity|].
  destruct s; simpl; [reflexivity|]. now rewrite IH.
Qed.

Lemma str_length_drop (n : nat) (s : string) :
  String.length (Js.str_drop n s) = (String.length s - n)%nat.
Proof.
  revert s. induction n as [|n IH]; intros s; simpl; [lia|].
  destruct s; simpl; [reflexivity|]. now rewrite IH.
Qed.

Lemma str_take_all (n : nat) (s : string) :
  (String.length s <= n)%nat -> Js.str_take n s = s.
Proof.
  revert s. induction n as [|n IH]; intros s Hn.
  - destruct s; [reflexivity|simpl in Hn; lia].
  - destruct s; simpl; [reflexivity|]. rewrite IH; [reflexivity|simpl in Hn; lia].
Qed.

Lemma str_drop_drop (n m : nat) (s : string) :
  Js.str_drop n (Js.str_drop m s) = Js.str_drop (m + n) s.
Proof.
  revert s. induction m as [|m IH]; intros s; [reflexivity|].
  destruct s; simpl; [now destruct n|]. apply IH.
Qed.

Lemma str_app_inv (a b c d : string) :
  a ++ b = c ++ d -> String.length a = String.length c -> a = c /\ b = d.
Proof.
  revert c. induction a as [|x a IH]; intros c Heq Hlen.
  - destruct c; [now split|discriminate].
  - destruct c as [|y c]; [discriminate|].
    simpl in *. injection Heq as -> Heq. injection Hlen as Hlen.
    destruct (IH c Heq Hlen) as [-> ->]. now split.
Qed.

Lemma prefix_iff (pat s : string) :
  String.prefix pat s = true <-> exists r, s = pat ++ r.
Proof.
  revert s. induction pat as [|c pat IH]; intros s; simpl.
  - split; [intros _; now exists s|now destruct s].
  - destruct s as [|d s]; simpl.
    + split; [discriminate|]. intros [r Hr]. discriminate.
    + destruct (ascii_dec c d) as [->|Hne].
      * rewrite IH. split; intros [r Hr]; exists r; congruence.
      * split; [discriminate|]. intros [r Hr]. congruence.
Qed.

Lemma occurs_iff (pat s : string) (i : nat) :
  Occurs pat s i <->
  (i <= String.length s)%nat /\ String.prefix pat (Js.str_drop i s) = true.
Proof.
  split.
  - intros (a & b & -> & <-). split.
    + rewrite str_length_app. lia.
    + rewrite str_drop_app. apply prefix_iff. now exists b.
  - intros [Hi Hpre]. apply prefix_iff in Hpre as [r Hr].
    exists (Js.str_take i s), r. split.
    + rewrite <- Hr. symmetry. apply str_take_drop.
    + rewrite str_length_take. lia.
Qed.

Lemma occurs_tail (pat : string) (c : ascii) (s : string) (i : nat) :
  Occurs pat (String c s) (S i) <-> Occurs pat s i.
Proof.
  rewrite !occurs_iff. simpl. split; intros [H1 H2]; split; try assumption; lia.
Qed.

Lemma occurs_head (pat s : string) :
  Occurs pat s 0 <-> String.prefix pat s = true.
Proof.
  rewrite occurs_iff. cbn [Js.str_drop]. split; [now intros [_ H]|].
  intros H. split; [lia|assumption].
Qed.

Lemma find_occurs (pat s : string) (i : nat) :
  Js.find pat s = Some i -> Occurs pat s i.
Proof.
  revert i. induction s as [|c s IH]; intros i; cbn [Js.find].
  - destruct (String.prefix pat "") eqn:Hp; [|discriminate].
    intros [= <-]. now apply occurs_head.
  - destruct (String.prefix pat (String c s)) eqn:Hp.
    + intros [= <-]. now apply occurs_head.
    + destruct (Js.find pat s) as [k|]; cbn [option_map]; [|discriminate].
      intros [= <-]. apply occurs_tail. now apply IH.
Qed.

Lemma find_least (pat s : string) (i j : nat) :
  Js.find pat s = Some i -> (j < i)%nat -> ~ Occurs pat s j.
Proof.
  revert i j. induction s as [|c s IH]; intros i j; cbn [Js.find].
  - destruct (String.prefix pat "") eqn:Hp; [|discriminate].
    intros [= <-] Hj. lia.
  - destruct (String.prefix pat (String c s)) eqn:Hp.
    + intros [= <-] Hj. lia.
    + destruct (Js.find pat s) as [k|] eqn:Hfind; cbn [option_map]; [|discriminate].
      intros [= <-] Hj Hocc. destruct j as [|j].
      * apply occurs_head in Hocc. congruence.
      * apply occurs_tail in Hocc. apply (IH k j eq_refl); [lia|assumption].
Qed.

Lemma find_none (pat s : string) (j : nat) :
  Js.find pat s = None -> ~ Occurs pat s j.
Proof.
  revert j. induction s as [|c s IH]; intros j; cbn [Js.find].
  - destruct (String.prefix pat "") eqn:Hp; [discriminate|].
    intros _ Hocc. apply occurs_iff in Hocc as [Hj Hpre]. simpl in Hj.
    assert (j = O) as -> by lia. cbn [Js.str_drop] in Hpre. congruence.
  - destruct (String.prefix pat (String c s)) eqn:Hp; [discriminate|].
    destruct (Js.find pat s) as [k|] eqn:Hfind; cbn [option_map]; [discriminate|].
    intros _ Hocc. destruct j as [|j].
    + apply occurs_head in Hocc. congruence.
    + apply occurs_tail in Hocc. now apply (IH j).
Qed.

Lemma find_Some_iff (pat s : string) (i : nat) :
  Js.find pat s = Some i <->
  Occurs pat s i /\ forall j, (j < i)%nat -> ~ Occurs pat s j.
Proof.
  split.
  - intros H. split; [now apply find_occurs|].
    intros j Hj. now apply (find_least pat s i j).
  - intros [Hocc Hfirst]. destruct (Js.find pat s) as [k|] eqn:Hfind.
    + f_equal. destruct (Nat.lt_trichotomy k i) as [Hlt|[Heq|Hgt]].
      * exfalso. apply (Hfirst k Hlt). now apply find_occurs.
      * assumption.
      * exfalso. now apply (find_least pat s k i Hfind Hgt).
    + exfalso. now apply (find_none pat s i Hfind).
Qed.

Lemma find_None_iff (pat s : string) :
  Js.find pat s = None <-> ~ Contains pat s.
Proof.
  split.
  - intros H [i Hocc]. now apply (find_none pat s i H).
  - intros H. destruct (Js.find pat s) as [k|] eqn:Hfind; [|reflexivity].
    exfalso. apply H. exists k. now apply find_occurs.
Qed.

Lemma find_FirstAt (pat s : string) (i : nat) :
  Js.find pat s = Some i <->
  FirstAt pat s (Js.str_take i s) (Js.str_drop (i + String.length pat) s)
  /\ (i <= String.length s)%nat.
Proof.
  rewrite find_Some_iff. unfold FirstAt. split.
  - intros [Hocc Hfirst]. destruct Hocc as (a & b & Hs & Hlen).
    assert (Js.str_take i s = a) as Ha.
    { subst s i. apply str_take_app. }
    assert (Js.str_drop (i + String.length pat) s = b) as Hb.
    { subst s i. rewrite <- str_drop_drop, str_drop_app. apply str_drop_app. }
    rewrite Ha, Hb. repeat split; [assumption| |].
    + intros j Hj. apply Hfirst. lia.
    + subst s i. rewrite str_length_app. lia.
  - intros [[Hs Hfirst] Hi].
    assert (String.length (Js.str_take i s) = i) as Hlen
      by (rewrite str_length_take; lia).
    split.
    + exists (Js.str_take i s), (Js.str_drop (i + String.length pat) s). now split.
    + intros j Hj. apply Hfirst. lia.
Qed.

(** ** Lists *)

Lemma find_none_iff {A : Type} (p : A -> bool) (l : list A) :
  List.find p l = None <-> forall x, In x l -> p x = false.
Proof.
  induction l as [|a l IH]; simpl.
  - split; [intros _ x []|reflexivity].
  - destruct (p a) eqn:Hpa.
    + split; [discriminate|]. intros H. rewrite (H a) in Hpa; [discriminate|now left].
    + rewrite IH. split.
      * intros H x [<-|Hx]; [assumption|now apply H].
      * intros H x Hx. apply H. now right.
Qed.

Lemma find_first_iff {A : Type} (p : A -> bool) (l : list A) (x : A) :
  List.find p l = Some x <->
  exists before after, l = (before ++ x :: after)%list /\ p x = true
                       /\ forall y, In y before -> p y = false.
Proof.
  induction l as [|a l IH]; simpl.
  - split; [discriminate|]. intros (before & after & H & _). now destruct before.
  - destruct (p a) eqn:Hpa.
    + split.
      * intros [= <-]. exists [], l. repeat split; [assumption|intros y []].
      * intros (before & after & Hl & Hx & Hbefore).
        destruct before as [|b before]; simpl in Hl; injection Hl as -> ->.
        -- reflexivity.
        -- rewrite (Hbefore b) in Hpa; [discriminate|now left].
    + rewrite IH. split.
      * intros (before & after & -> & Hx & Hbefore).
        exists (a :: before), after. repeat split; [assumption|].
        intros y [<-|Hy]; [assumption|now apply Hbefore].
      * intros (before & after & Hl & Hx & Hbefore).
        destruct before as [|b before]; simpl in Hl; injection Hl as -> ->.
        -- congruence.
        -- exists before, after. repeat split; [assumption|].
           intros y Hy. apply Hbefore. now right.
Qed.

(** ** Validation results ([runValidation]) *)

Section ValidationFacts.

Variable stringToNumber : string -> Num.number.
Variable regExpTest : string -> string -> option bool.

Lemma errors_warnings_partition (l : list ValidationIssue) :
  (List.length (List.filter isError l) + List.length (List.filter isWarning l)
   = List.length l)%nat.
Proof.
  induction l as [|i l IH]; simpl; [reflexivity|].
  unfold isError, isWarning in *.
  destruct (issue_severity i); simpl; lia.
Qed.

Lemma runRule_ids element acc rule :
  snd (runRule stringToNumber regExpTest element acc rule)
  ⊆ snd acc ∪ {[ ve_expressID element ]}.
Proof.
  unfold runRule.
  destruct (0 <? List.length _)%nat; simpl;
    [reflexivity | apply union_subseteq_l].
Qed.

Lemma runElement_ids rules element acc :
  snd (runElement stringToNumber regExpTest rules acc element)
  ⊆ snd acc ∪ {[ ve_expressID element ]}.
Proof.
  unfold runElement. revert acc.
  induction rules as [|rule rules IH]; intros acc; simpl.
  - apply union_subseteq_l.
  - etransitivity; [apply IH|].
    apply union_least; [apply runRule_ids | apply union_subseteq_r].
Qed.

Lemma runElement_size rules element acc :
  (size (snd (runElement stringToNumber regExpTest rules acc element))
   <= S (size (snd acc)))%nat.
Proof.
  etransitivity; [apply subseteq_size, runElement_ids|].
  rewrite size_union_alt.
  assert (size ({[ve_expressID element]} ∖ snd acc : gset Z) <= 1)%nat.
  { etransitivity; [apply subseteq_size|].
    - apply subseteq_difference_l. reflexivity.
    - rewrite size_singleton. lia. }
  lia.
Qed.

Lemma run_size rules elements acc :
  (size (snd (fold_left (runElement stringToNumber regExpTest rules) elements acc))
   <= size (snd acc) + List.length elements)%nat.
Proof.
  revert acc. induction elements as [|el els IH]; intros acc; simpl.
  - lia.
  - etransitivity; [apply IH|].
    pose proof (runElement_size rules el acc). lia.
Qed.

(** C10: the errors and the warnings of a validation result add up to
    its issues, and the number of passed elements lies between zero and
    the number of elements. *)
Theorem runValidation_counts (elements : list ValidateElement)
  (rules : list ValidateRule) :
  let res := runValidation stringToNumber regExpTest elements rules in
  res_errors res + res_warnings res = res_totalIssues res
  /\ 0 <= res_passed res <= res_totalElements res.
Proof.
  unfold runValidation.
  pose proof (run_size rules elements ([], ∅)) as Hsize.
  cbn [snd] in Hsize. rewrite size_empty in Hsize.
  destruct (fold_left _ elements _) as [allIssues elementIssueMap] eqn:Hrun.
  cbn [snd res_errors res_warnings res_totalIssues res_passed res_totalElements] in *.
  pose proof (errors_warnings_partition allIssues).
  split; lia.
Qed.

End ValidationFacts.

(** ** Missing property sets and properties ([checkElement]) *)

Section CheckElementFacts.

Variable stringToNumber : string -> Num.number.
Variable regExpTest : string -> string -> option bool.


Lemma checkElement_applicable element rule :
  applicable element rule ->
  checkElement stringToNumber regExpTest element rule
  = List.flat_map (checkRequirement stringToNumber regExpTest element rule) (rule_requirements rule).
Proof.
  intros [Hc Hd]. unfold checkElement. now rewrite Hc, Hd.
Qed.

Lemma find_pset_absent element req :
  psetAbsent element req ->
  List.find (fun p => String.eqb (vpset_name p) (req_psetName req)) (ve_psets element)
  = None.
Proof.
  intros H. apply find_none_iff. intros x Hx.
  apply String.eqb_neq. now apply H.
Qed.

Lemma find_pset_resolved element req pset :
  psetResolved element req pset ->
  List.find (fun p => String.eqb (vpset_name p) (req_psetName req)) (ve_psets element)
  = Some pset.
Proof.
  intros (before & after & Hl & Hname & Hbefore).
  apply find_first_iff. exists before, after. repeat split.
  - assumption.
  - now apply String.eqb_eq.
  - intros y Hy. apply String.eqb_neq. now apply Hbefore.
Qed.

(** C6: for an applicable element the issues are those of the
    requirements in turn; a requirement whose property set is absent
    gives one [MissingParam] issue when its check is [exists] or
    [notEmpty] and none otherwise, and a requirement whose property set
    is there but lacks the property gives one [MissingParam] issue
    whatever its check. *)
Theorem checkElement_missing (element : ValidateElement) (rule : ValidateRule) :
  applicable element rule ->
  checkElement stringToNumber regExpTest element rule
  = List.flat_map (checkRequirement stringToNumber regExpTest element rule) (rule_requirements rule)
  /\ forall req, In req (rule_requirements rule) ->
       (psetAbsent element req ->
          (presenceCheck (req_checkType req) ->
             exists issue, checkRequirement stringToNumber regExpTest element rule req = [issue]
                           /\ issue_issueType issue = MissingParam)
          /\ (~ presenceCheck (req_checkType req) ->
                checkRequirement stringToNumber regExpTest element rule req = []))
       /\ (forall pset, psetResolved element req pset -> propertyAbsent pset req ->
             exists issue, checkRequirement stringToNumber regExpTest element rule req = [issue]
                           /\ issue_issueType issue = MissingParam).
Proof.
  intros Happ. split; [now apply checkElement_applicable|].
  intros req _. split.
  - intros Habs. unfold checkRequirement.
    rewrite (find_pset_absent _ _ Habs). unfold presenceCheck. split.
    + intros [-> | ->]; eexists; split; reflexivity.
    + intros Hno. destruct (req_checkType req); try reflexivity;
        exfalso; apply Hno; auto.
  - intros pset Hres Hprop. unfold checkRequirement.
    rewrite (find_pset_resolved _ _ _ Hres).
    assert (List.find (fun p => String.eqb (vprop_name p) (req_propertyName req))
              (vpset_properties pset) = None) as ->.
    { apply find_none_iff. intros x Hx. apply String.eqb_neq. now apply Hprop. }
    eexists; split; reflexivity.
Qed.

End CheckElementFacts.

(** ** IDS conversion ([idsToRulePack]) *)

Lemma convertRequirement_fold specName reqs acc :
  fst (fold_left (convertRequirement specName) reqs acc)
  = (fst acc ++ List.flat_map convertedRequirements reqs)%list.
Proof.
  revert acc. induction reqs as [|req reqs IH]; intros acc; simpl.
  - now rewrite app_nil_r.
  - rewrite IH. unfold convertRequirement, convertedRequirements, push.
    destruct (facet_type (ireq_facet req)); simpl;
      try destruct (truthy _); simpl;
      rewrite <- ?app_assoc, ?app_nil_r; reflexivity.
Qed.

Lemma convertSpecification_rules acc spec :
  List.flat_map convertedRequirements (spec_requirements spec) <> [] ->
  exists rule,
    fst (convertSpecification acc spec) = (fst acc ++ [rule])%list
    /\ rule_name rule = spec_name spec
    /\ rule_requirements rule
       = List.flat_map convertedRequirements (spec_requirements spec).
Proof.
  intros Hne. unfold convertSpecification.
  destruct (fold_left (convertApplicability _) _ _) as [ifcClasses unsupported1].
  pose proof (convertRequirement_fold (spec_name spec) (spec_requirements spec)
                ([], unsupported1)) as Hreqs.
  destruct (fold_left (convertRequirement _) _ _) as [requirements unsupported2].
  simpl in Hreqs. subst requirements.
  destruct (List.flat_map convertedRequirements (spec_requirements spec)) eqn:Hfm;
    [contradiction|].
  simpl. eexists. split; [reflexivity|]. split; reflexivity.
Qed.

Lemma convertSpecification_keeps acc spec rule :
  In rule (fst acc) -> In rule (fst (convertSpecification acc spec)).
Proof.
  intros Hin. unfold convertSpecification.
  destruct (fold_left (convertApplicability _) _ _) as [ifcClasses unsupported1].
  destruct (fold_left (convertRequirement _) _ _) as [requirements unsupported2].
  destruct (0 <? _)%nat; simpl; [|assumption].
  unfold push. apply in_or_app. now left.
Qed.

Lemma convertSpecifications_keep specs acc rule :
  In rule (fst acc) -> In rule (fst (fold_left convertSpecification specs acc)).
Proof.
  revert acc. induction specs as [|spec specs IH]; intros acc Hin; simpl.
  - assumption.
  - apply IH. now apply convertSpecification_keeps.
Qed.

Lemma convertSpecifications_rules specs acc spec :
  In spec specs ->
  List.flat_map convertedRequirements (spec_requirements spec) <> [] ->
  exists rule,
    In rule (fst (fold_left convertSpecification specs acc))
    /\ rule_name rule = spec_name spec
    /\ rule_requirements rule
       = List.flat_map convertedRequirements (spec_requirements spec).
Proof.
  revert acc. induction specs as [|spec' specs IH]; intros acc Hin Hne; simpl.
  - destruct Hin.
  - destruct Hin as [-> | Hin].
    + destruct (convertSpecification_rules acc spec Hne) as (rule & Hacc & Hname & Hreqs).
      exists rule. split; [|now split].
      apply convertSpecifications_keep. rewrite Hacc.
      apply in_or_app. right. now left.
    + now apply IH.
Qed.

Lemma idsToRulePack_rules specs fileName :
  pack_rules (idsToRulePack specs fileName)
  = fst (fold_left convertSpecification specs ([], [])).
Proof.
  unfold idsToRulePack. now destruct (fold_left convertSpecification specs _).
Qed.

(** C9, as amended: a property requirement of a specification becomes a
    requirement of the rule of that specification, with the names of the
    facet; when the cardinality is [required] its check is [equals] with
    the literal as the expected value if the literal is there and not
    empty, else [regex] with the pattern if the pattern is there and not
    empty, else [notEmpty]; when the cardinality is [prohibited] its
    check is [exists]. *)
Theorem idsToRulePack_property_checkType (specs : list IDSSpecification)
  (fileName : string) (spec : IDSSpecification) (req : IDSRequirement) :
  In spec specs ->
  In req (spec_requirements spec) ->
  facet_type (ireq_facet req) = FProperty ->
  exists rule r,
    In rule (pack_rules (idsToRulePack specs fileName))
    /\ rule_name rule = spec_name spec
    /\ In r (rule_requirements rule)
    /\ req_psetName r = opt_or (facet_psetName (ireq_facet req)) ""
    /\ req_propertyName r = opt_or (facet_propertyName (ireq_facet req)) ""
    /\ (ireq_cardinality req = Required ->
          (forall v, facet_value (ireq_facet req) = Some v -> v <> "" ->
             req_checkType r = CkEquals /\ req_expected r = ExpValue (VStr v))
          /\ (forall pat, noText (facet_value (ireq_facet req)) ->
                facet_pattern (ireq_facet req) = Some pat -> pat <> "" ->
                req_checkType r = CkRegex /\ req_pattern r = Some pat)
          /\ (noText (facet_value (ireq_facet req)) ->
              noText (facet_pattern (ireq_facet req)) ->
              req_checkType r = CkNotEmpty))
    /\ (ireq_cardinality req = Prohibited -> req_checkType r = CkExists).
Proof.
  intros Hspec Hreq Hprop.
  assert (In (propertyRequirement req)
            (List.flat_map convertedRequirements (spec_requirements spec))) as Hin.
  { apply in_flat_map. exists req. split; [assumption|].
    unfold convertedRequirements. rewrite Hprop. now left. }
  assert (List.flat_map convertedRequirements (spec_requirements spec) <> []) as Hne.
  { intros Hnil. rewrite Hnil in Hin. destruct Hin. }
  destruct (convertSpecifications_rules specs ([], []) spec Hspec Hne)
    as (rule & Hrule & Hname & Hreqs).
  exists rule, (propertyRequirement req).
  rewrite idsToRulePack_rules. rewrite Hreqs.
  split; [assumption|]. split; [assumption|]. split; [assumption|].
  unfold propertyRequirement.
  split.
  { destruct (ireq_cardinality req); try destruct (truthy _); try destruct (truthy _);
      reflexivity. }
  split.
  { destruct (ireq_cardinality req); try destruct (truthy _); try destruct (truthy _);
      reflexivity. }
  split.
  - intros Hcard. rewrite Hcard. split; [|split].
    + intros v Hv Hv'. rewrite Hv. destruct v; [contradiction|]. split; reflexivity.
    + intros pat Hno Hpat Hpat'.
      assert (truthy (facet_value (ireq_facet req)) = false) as ->
        by (destruct Hno as [-> | ->]; reflexivity).
      rewrite Hpat. destruct pat; [contradiction|]. split; reflexivity.
    + intros Hno Hno'.
      assert (truthy (facet_value (ireq_facet req)) = false) as ->
        by (destruct Hno as [-> | ->]; reflexivity).
      assert (truthy (facet_pattern (ireq_facet req)) = false) as ->
        by (destruct Hno' as [-> | ->]; reflexivity).
      reflexivity.
  - intros Hcard. rewrite Hcard. reflexivity.
Qed.

(** ** Round trip of an unedited model ([exportModifiedIfc]) *)

Lemma flat_map_nil_iff {A B : Type} (f : A -> list B) (l : list A) :
  List.flat_map f l = [] <-> forall x, In x l -> f x = [].
Proof.
  induction l as [|a l IH]; simpl.
  - split; [intros _ x []|reflexivity].
  - split.
    + intros H. apply app_eq_nil in H as [Ha Hl].
      intros x [<-|Hx]; [assumption|]. now apply IH.
    + intros H. rewrite (H a) by now left. simpl.
      apply IH. intros x Hx. apply H. now right.
Qed.

Lemma filter_nil_iff {A : Type} (p : A -> bool) (l : list A) :
  List.filter p l = [] <-> forall x, In x l -> p x = false.
Proof.
  induction l as [|a l IH]; simpl.
  - split; [intros _ x []|reflexivity].
  - destruct (p a) eqn:Hpa.
    + split; [discriminate|]. intros H. rewrite (H a) in Hpa; [discriminate|now left].
    + rewrite IH. split.
      * intros H x [<-|Hx]; [assumption|now apply H].
      * intros H x Hx. apply H. now right.
Qed.

Lemma collectModifiedProperties_nil (st : ModelState) :
  collectModifiedProperties st = [] <-> noPendingEdit st.
Proof.
  unfold collectModifiedProperties, collectFromElement, collectFromPset, noPendingEdit.
  rewrite flat_map_nil_iff. split.
  - intros H entry pset prop Hentry Hpset Hedit Hprop [Hmod Hneq].
    specialize (H entry Hentry). rewrite flat_map_nil_iff in H.
    specialize (H pset Hpset). rewrite Hedit in H. simpl in H.
    apply map_eq_nil in H. rewrite filter_nil_iff in H.
    specialize (H prop Hprop). unfold isModifiedProperty in H.
    rewrite Hmod, Hneq in H. discriminate.
  - intros H entry Hentry. apply flat_map_nil_iff. intros pset Hpset.
    destruct (pset_isEditable pset) eqn:Hedit; simpl; [|reflexivity].
    assert (List.filter isModifiedProperty (pset_properties pset) = []) as ->;
      [|reflexivity].
    apply filter_nil_iff. intros prop Hprop.
    destruct (isModifiedProperty prop) eqn:Hm; [|reflexivity].
    exfalso. apply (H entry pset prop Hentry Hpset Hedit Hprop).
    unfold isModifiedProperty in Hm. now apply andb_true_iff in Hm.
Qed.

(** C1, as amended: when no property of an editable property set is
    both modified and different from its original value and the
    original text is there and not empty, the export is the original
    text, whether or not the rewrite is forced. *)
Theorem exportModifiedIfc_unmodified (st : ModelState) (text : string)
  (forceRewrite : bool) :
  noPendingEdit st ->
  originalIfcText st = Some text ->
  text <> "" ->
  exportModifiedIfc st forceRewrite = Blob text.
Proof.
  intros Hno Htext Hne. unfold exportModifiedIfc. rewrite Htext.
  destruct text as [|c text]; [contradiction|].
  apply collectModifiedProperties_nil in Hno. now rewrite Hno.
Qed.

(** ** The modified flag ([updatePropertyValue]) *)

Lemma in_update_first {A : Type} (p : A -> bool) (f : A -> A) (l : list A) (y : A) :
  In y (update_first p f l) -> In y l \/ exists x, In x l /\ p x = true /\ y = f x.
Proof.
  induction l as [|a l IH]; simpl; [intros []|].
  destruct (p a) eqn:Hpa; simpl.
  - intros [<-|Hy]; [right; exists a; auto | left; now right].
  - intros [<-|Hy]; [left; now left|].
    destruct (IH Hy) as [Hin | (x & Hx & Hpx & ->)]; [left; now right|].
    right. exists x. auto.
Qed.

Lemma find_update_first {A : Type} (p : A -> bool) (f : A -> A) (l : list A) :
  (forall x, p x = true -> p (f x) = true) ->
  List.find p (update_first p f l) = option_map f (List.find p l).
Proof.
  intros Hf. induction l as [|a l IH]; simpl; [reflexivity|].
  destruct (p a) eqn:Hpa; simpl.
  - now rewrite (Hf a Hpa).
  - now rewrite Hpa.
Qed.

Lemma updatePropertyValue_properties st elementID psetName propertyName value prop :
  In prop (propertiesOf (updatePropertyValue st elementID psetName propertyName value)) ->
  In prop (propertiesOf st) \/ prop_modified prop = true.
Proof.
  unfold updatePropertyValue.
  destruct (List.find (hasKey elementID) (elements st)) as [[k el]|] eqn:Hel;
    [|now left].
  destruct (List.find (psetNamed psetName) (el_psets el)) as [pset|] eqn:Hpset;
    [|now left].
  destruct (List.find (propNamed propertyName) (pset_properties pset)) as [p0|] eqn:Hp;
    [|now left].
  unfold propertiesOf. simpl. intros Hin.
  apply in_flat_map in Hin as (entry & Hentry & Hin).
  apply in_update_first in Hentry as [Hentry | (entry0 & Hentry0 & Hkey & ->)].
  { left. apply in_flat_map. eauto. }
  simpl in Hin. apply in_flat_map in Hin as (ps & Hps & Hin).
  apply find_some in Hel as [Hel _].
  apply in_update_first in Hps as [Hps | (ps0 & Hps0 & Hname & ->)].
  { apply find_some in Hpset as [Hpset _].
    left. apply in_flat_map. exists (k, el). split; [assumption|].
    apply in_flat_map. eauto. }
  simpl in Hin.
  apply in_update_first in Hin as [Hin | (p1 & Hp1 & _ & ->)]; [|now right].
  left. apply in_flat_map. exists (k, el). split; [assumption|].
  apply in_flat_map. apply find_some in Hpset as [Hpset _]. eauto.
Qed.

Lemma lookupProperty_update st elementID psetName propertyName value prop :
  lookupProperty st elementID psetName propertyName = Some prop ->
  lookupProperty (updatePropertyValue st elementID psetName propertyName value)
                 elementID psetName propertyName
  = Some (setValue value prop).
Proof.
  unfold lookupProperty, updatePropertyValue.
  destruct (List.find (hasKey elementID) (elements st)) as [[k el]|] eqn:Hel;
    [|discriminate].
  destruct (List.find (psetNamed psetName) (el_psets el)) as [pset|] eqn:Hpset;
    [|discriminate].
  intros Hp. rewrite Hp. simpl.
  rewrite find_update_first by (intros x Hx; exact Hx). rewrite Hel. simpl.
  rewrite find_update_first by (intros x Hx; exact Hx). rewrite Hpset. simpl.
  rewrite find_update_first by (intros x Hx; exact Hx). rewrite Hp. reflexivity.
Qed.

(** C7, as amended: in every state the edits lead to, a property whose
    value is not its original value is modified; and the property an
    edit writes to is modified afterwards and holds the new value,
    whatever that value is, its original value unchanged. *)
Theorem modified_flag_sticky :
  (forall st, reachable st ->
     forall prop, In prop (propertiesOf st) ->
       prop_value prop <> prop_originalValue prop -> prop_modified prop = true)
  /\ (forall st elementID psetName propertyName value prop,
        lookupProperty st elementID psetName propertyName = Some prop ->
        exists prop',
          lookupProperty (updatePropertyValue st elementID psetName propertyName value)
                         elementID psetName propertyName = Some prop'
          /\ prop_modified prop' = true
          /\ prop_value prop' = value
          /\ prop_originalValue prop' = prop_originalValue prop).
Proof.
  split.
  - intros st Hreach. induction Hreach as [st Hload | st id psn pn v Hreach IH].
    + intros prop Hin Hneq. destruct (Hload prop Hin) as [_ Heq]. contradiction.
    + intros prop Hin Hneq.
      apply updatePropertyValue_properties in Hin as [Hin | Hmod]; [|assumption].
      now apply IH.
  - intros st id psn pn v prop Hlook.
    exists (setValue v prop). split; [now apply lookupProperty_update|].
    repeat split.
Qed.

(** ** Index arithmetic of [indexOf] and [substring] *)

Lemma find_bound (pat s : string) (i : nat) :
  Js.find pat s = Some i -> (i + String.length pat <= String.length s)%nat.
Proof.
  intros H. apply find_occurs in H as (a & b & -> & <-).
  rewrite !str_length_app. lia.
Qed.

Lemma indexOf_from_find (s pat : string) (k : nat) :
  (k <= String.length s)%nat ->
  Js.indexOf_from s pat (Z.of_nat k)
  = match Js.find pat (Js.str_drop k s) with
    | Some i => Z.of_nat (k + i)
    | None => -1
    end.
Proof.
  intros Hk. unfold Js.indexOf_from, Js.clamp, Js.strlen.
  replace (Z.min (Z.max (Z.of_nat k) 0) (Z.of_nat (String.length s)))
    with (Z.of_nat k) by lia.
  rewrite Nat2Z.id. destruct (Js.find pat (Js.str_drop k s)); [lia|reflexivity].
Qed.

Lemma indexOf_find (s pat : string) :
  Js.indexOf s pat
  = match Js.find pat s with Some i => Z.of_nat i | None => -1 end.
Proof.
  unfold Js.indexOf. change 0 with (Z.of_nat 0).
  rewrite indexOf_from_find by lia. reflexivity.
Qed.

Lemma substring_take_drop (s : string) (a b : nat) :
  (a <= b)%nat -> (b <= String.length s)%nat ->
  Js.substring s (Z.of_nat a) (Z.of_nat b)
  = Js.str_take (b - a) (Js.str_drop a s).
Proof.
  intros Hab Hb. unfold Js.substring, Js.clamp, Js.strlen.
  replace (Z.min (Z.max (Z.of_nat a) 0) (Z.of_nat (String.length s)))
    with (Z.of_nat a) by lia.
  replace (Z.min (Z.max (Z.of_nat b) 0) (Z.of_nat (String.length s)))
    with (Z.of_nat b) by lia.
  replace (Z.min (Z.of_nat a) (Z.of_nat b)) with (Z.of_nat a) by lia.
  replace (Z.max (Z.of_nat a) (Z.of_nat b)) with (Z.of_nat b) by lia.
  rewrite Nat2Z.id. f_equal. lia.
Qed.

Lemma substring_from_drop (s : string) (a : nat) :
  (a <= String.length s)%nat ->
  Js.substring_from s (Z.of_nat a) = Js.str_drop a s.
Proof.
  intros Ha. unfold Js.substring_from, Js.strlen.
  rewrite substring_take_drop by lia.
  apply str_take_all. rewrite str_length_drop. lia.
Qed.

Lemma substring_prefix (s : string) (b : nat) :
  (b <= String.length s)%nat ->
  Js.substring s 0 (Z.of_nat b) = Js.str_take b s.
Proof.
  intros Hb. change 0 with (Z.of_nat 0).
  rewrite substring_take_drop by lia. simpl. f_equal. lia.
Qed.

(** The loop body of [tryPatchExport] in terms of offsets. *)
Lemma patchStep_offsets (cur : string) (p : PatchEntry) :
  patchStep cur p =
  match Js.find ("#" ++ int_toString (patch_expressID p) ++ "=") cur with
  | None => None
  | Some ls =>
      match Js.find ";" (Js.str_drop ls cur) with
      | None => None
      | Some i =>
          let line := Js.str_take (S i) (Js.str_drop ls cur) in
          if String.eqb (patch_oldValue p) "$" then None
          else
            match Js.find (patch_oldValue p) line with
            | None => None
            | Some oi =>
                Some (Js.str_take ls cur
                      ++ (Js.str_take oi line ++ patch_newValue p
                          ++ Js.str_drop (oi + String.length (patch_oldValue p)) line)
                      ++ Js.str_drop (ls + S i) cur)
            end
      end
  end.
Proof.
  unfold patchStep.
  replace (("#" ++ int_toString (patch_expressID p)) ++ "=")
    with ("#" ++ int_toString (patch_expressID p) ++ "=")
    by (symmetry; apply str_app_assoc).
  set (key := "#" ++ int_toString (patch_expressID p) ++ "=").
  rewrite indexOf_find.
  destruct (Js.find key cur) as [ls|] eqn:Hls; [|reflexivity].
  pose proof (find_bound _ _ _ Hls) as Hlsb.
  replace (Z.of_nat ls =? -1) with false by (symmetry; apply Z.eqb_neq; lia).
  rewrite indexOf_from_find by lia.
  destruct (Js.find ";" (Js.str_drop ls cur)) as [i|] eqn:Hi; [|reflexivity].
  pose proof (find_bound _ _ _ Hi) as Hib. rewrite str_length_drop in Hib.
  simpl in Hib.
  replace (Z.of_nat (ls + i) =? -1) with false by (symmetry; apply Z.eqb_neq; lia).
  replace (Z.of_nat (ls + i) + 1) with (Z.of_nat (ls + S i)) by lia.
  rewrite substring_take_drop by lia.
  replace (ls + S i - ls)%nat with (S i) by lia.
  cbv zeta.
  set (line := Js.str_take (S i) (Js.str_drop ls cur)).
  destruct (String.eqb (patch_oldValue p) "$"); [reflexivity|].
  rewrite indexOf_find.
  destruct (Js.find (patch_oldValue p) line) as [oi|] eqn:Hoi; [|reflexivity].
  pose proof (find_bound _ _ _ Hoi) as Hoib.
  replace (Z.of_nat oi =? -1) with false by (symmetry; apply Z.eqb_neq; lia).
  rewrite substring_prefix by lia.
  unfold Js.strlen at 1.
  replace (Z.of_nat oi + Z.of_nat (String.length (patch_oldValue p)))
    with (Z.of_nat (oi + String.length (patch_oldValue p))) by lia.
  rewrite substring_from_drop by lia.
  rewrite substring_prefix by lia.
  rewrite substring_from_drop by lia.
  reflexivity.
Qed.

(** ** The patch attempt ([tryPatchExport]) *)

Lemma FirstAt_find (pat s a b : string) :
  FirstAt pat s a b -> Js.find pat s = Some (String.length a).
Proof.
  intros [Hs Hfirst]. apply find_Some_iff. split; [|assumption].
  exists a, b. now split.
Qed.

Lemma find_FirstAt_take (pat s : string) (i : nat) :
  Js.find pat s = Some i ->
  FirstAt pat s (Js.str_take i s) (Js.str_drop (i + String.length pat) s)
  /\ String.length (Js.str_take i s) = i.
Proof.
  intros H. apply find_FirstAt in H as [H Hi]. split; [assumption|].
  rewrite str_length_take. lia.
Qed.

Lemma str_take_app_plus (a b : string) (n : nat) :
  Js.str_take (String.length a + n) (a ++ b) = a ++ Js.str_take n b.
Proof. induction a; simpl; congruence. Qed.

Lemma FirstAt_unique (pat s a b a' b' : string) :
  FirstAt pat s a b -> FirstAt pat s a' b' -> a = a' /\ b = b'.
Proof.
  intros H H'. pose proof (FirstAt_find _ _ _ _ H) as Hf.
  pose proof (FirstAt_find _ _ _ _ H') as Hf'.
  rewrite Hf in Hf'. injection Hf' as Hlen.
  destruct H as [Hs _], H' as [Hs' _]. rewrite Hs in Hs'.
  apply str_app_inv in Hs' as [-> Hrest]; [|assumption].
  apply str_app_inv in Hrest as [_ ->]; [|reflexivity]. now split.
Qed.

Lemma located_offsets (key cur : string) (ls i : nat) :
  Js.find key cur = Some ls ->
  Js.find ";" (Js.str_drop ls cur) = Some i ->
  Located key cur (Js.str_take ls cur) (Js.str_take i (Js.str_drop ls cur))
          (Js.str_drop (ls + S i) cur)
  /\ Js.str_take (S i) (Js.str_drop ls cur)
     = Js.str_take i (Js.str_drop ls cur) ++ ";".
Proof.
  intros Hls Hi.
  destruct (find_FirstAt_take _ _ _ Hls) as [Hkey Hlen].
  destruct (find_FirstAt_take _ _ _ Hi) as [Hsemi Hlen'].
  simpl in Hsemi. rewrite str_drop_drop in Hsemi.
  replace (ls + (i + 1))%nat with (ls + S i)%nat in Hsemi by lia.
  assert (Js.str_drop ls cur
          = Js.str_take i (Js.str_drop ls cur) ++ ";" ++ Js.str_drop (ls + S i) cur)
    as Hdrop by apply Hsemi.
  split.
  - split; [eexists; exact Hkey|]. split.
    + rewrite <- Hdrop. symmetry. apply str_take_drop.
    + rewrite <- Hdrop. exact Hsemi.
  - rewrite Hdrop at 1.
    replace (S i) with (String.length (Js.str_take i (Js.str_drop ls cur)) + 1)%nat
      by lia.
    rewrite str_take_app_plus. reflexivity.
Qed.

Lemma located_finds (key cur pre body post : string) :
  Located key cur pre body post ->
  Js.find key cur = Some (String.length pre)
  /\ Js.find ";" (Js.str_drop (String.length pre) cur) = Some (String.length body)
  /\ Js.str_take (String.length pre) cur = pre
  /\ Js.str_take (S (String.length body)) (Js.str_drop (String.length pre) cur)
     = body ++ ";"
  /\ Js.str_drop (String.length pre + S (String.length body)) cur = post.
Proof.
  intros ([r Hkey] & Hcur & Hsemi).
  assert (Js.str_drop (String.length pre) cur = body ++ ";" ++ post) as Hdrop.
  { rewrite Hcur at 1. apply str_drop_app. }
  split; [now apply FirstAt_find in Hkey|].
  split; [rewrite Hdrop; now apply FirstAt_find in Hsemi|].
  split; [rewrite Hcur at 1; apply str_take_app|].
  split.
  - rewrite Hdrop. replace (S (String.length body)) with (String.length body + 1)%nat
      by lia.
    rewrite str_take_app_plus. reflexivity.
  - rewrite <- str_drop_drop, Hdrop.
    replace (S (String.length body)) with (String.length body + 1)%nat by lia.
    rewrite <- str_drop_drop, str_drop_app. reflexivity.
Qed.

Lemma patchStep_applies (cur : string) (p : PatchEntry) (out : string) :
  patchStep cur p = Some out <-> PatchApplies cur p out.
Proof.
  rewrite patchStep_offsets. fold (patchKey p). split.
  - destruct (Js.find (patchKey p) cur) as [ls|] eqn:Hls; [|discriminate].
    destruct (Js.find ";" (Js.str_drop ls cur)) as [i|] eqn:Hi; [|discriminate].
    cbv zeta. destruct (located_offsets _ _ _ _ Hls Hi) as [Hloc Hline].
    rewrite Hline.
    destruct (String.eqb (patch_oldValue p) "$") eqn:Hold; [discriminate|].
    destruct (Js.find (patch_oldValue p) _) as [oi|] eqn:Hoi; [|discriminate].
    intros [= <-]. split; [now apply String.eqb_neq|].
    destruct (find_FirstAt_take _ _ _ Hoi) as [Hfirst _].
    do 5 eexists. split; [exact Hloc|]. split; [exact Hfirst|]. reflexivity.
  - intros (Hold & pre & body & post & a & b & Hloc & Hfirst & ->).
    destruct (located_finds _ _ _ _ _ Hloc) as (Hls & Hi & Hpre & Hline & Hpost).
    rewrite Hls, Hi. cbv zeta. rewrite Hline, Hpre, Hpost.
    apply String.eqb_neq in Hold. rewrite Hold.
    rewrite (FirstAt_find _ _ _ _ Hfirst).
    destruct Hfirst as [Hs _]. rewrite Hs at 1 2.
    rewrite str_take_app.
    rewrite <- str_drop_drop, str_drop_app, str_drop_app. reflexivity.
Qed.

Lemma patchStep_fails (cur : string) (p : PatchEntry) :
  patchStep cur p = None <-> PatchFails cur p.
Proof.
  rewrite patchStep_offsets. fold (patchKey p). unfold PatchFails. split.
  - destruct (Js.find (patchKey p) cur) as [ls|] eqn:Hls;
      [|intros _; left; now apply find_None_iff].
    destruct (Js.find ";" (Js.str_drop ls cur)) as [i|] eqn:Hi.
    + cbv zeta. destruct (located_offsets _ _ _ _ Hls Hi) as [Hloc Hline].
      rewrite Hline.
      destruct (String.eqb (patch_oldValue p) "$") eqn:Hold;
        [intros _; right; right; left; now apply String.eqb_eq|].
      destruct (Js.find (patch_oldValue p) _) as [oi|] eqn:Hoi; [discriminate|].
      intros _. right; right; right. do 3 eexists. split; [exact Hloc|].
      now apply find_None_iff.
    + intros _. right; left.
      destruct (find_FirstAt_take _ _ _ Hls) as [Hkey Hlen].
      do 2 eexists. split; [exact Hkey|].
      apply find_None_iff.
      destruct Hkey as [Hcur _].
      assert (Js.str_drop ls cur
              = patchKey p ++ Js.str_drop (ls + String.length (patchKey p)) cur) as <-;
        [|assumption].
      rewrite Hcur at 1. rewrite <- Hlen at 1. apply str_drop_app.
  - intros [Hno | [(pre & r & Hkey & Hno) | [Hold | (pre & body & post & Hloc & Hno)]]].
    + apply find_None_iff in Hno. now rewrite Hno.
    + rewrite (FirstAt_find _ _ _ _ Hkey).
      destruct Hkey as [Hcur _].
      assert (Js.str_drop (String.length pre) cur = patchKey p ++ r) as ->
        by (rewrite Hcur at 1; apply str_drop_app).
      apply find_None_iff in Hno. now rewrite Hno.
    + destruct (Js.find (patchKey p) cur); [|reflexivity].
      destruct (Js.find ";" _); [|reflexivity].
      cbv zeta. apply String.eqb_eq in Hold. now rewrite Hold.
    + destruct (located_finds _ _ _ _ _ Hloc) as (Hls & Hi & Hpre & Hline & Hpost).
      rewrite Hls, Hi. cbv zeta. rewrite Hline.
      destruct (String.eqb (patch_oldValue p) "$"); [reflexivity|].
      apply find_None_iff in Hno. now rewrite Hno.
Qed.

Lemma tryPatchExport_patched (text : string) (patches : list PatchEntry) (out : string) :
  tryPatchExport text patches = Some out <-> Patched text patches out.
Proof.
  unfold tryPatchExport. revert text.
  induction patches as [|p rest IH]; intros text; simpl.
  - split; [intros [= <-]; constructor|]. intros H. inversion H. reflexivity.
  - split.
    + destruct (patchStep text p) as [mid|] eqn:Hstep; [|discriminate].
      intros H. apply patchStep_applies in Hstep. apply IH in H.
      econstructor; eassumption.
    + intros H. inversion H as [|t p' mid rest' out' Happ Hrest]; subst.
      apply patchStep_applies in Happ. rewrite Happ. now apply IH.
Qed.

(** C3: the patch attempt gives [null] exactly when some patch of the
    sequence, met with the text the patches before it left, fails in
    one of the four ways: its record is not found, the semicolon that
    ends it is not found, its old value is [$], or its old value does
    not occur in the line; otherwise it gives the text patched by all
    of them in turn. *)
Theorem tryPatchExport_null_iff (text : string) (patches : list PatchEntry) :
  (tryPatchExport text patches = None <->
   exists before p after cur,
     patches = (before ++ p :: after)%list
     /\ Patched text before cur
     /\ PatchFails cur p)
  /\ (forall out, tryPatchExport text patches = Some out <-> Patched text patches out).
Proof.
  split; [|intros out; apply tryPatchExport_patched].
  unfold tryPatchExport. revert text.
  induction patches as [|p rest IH]; intros text; simpl.
  - split; [discriminate|]. intros (before & q & after & cur & H & _).
    now destruct before.
  - destruct (patchStep text p) as [mid|] eqn:Hstep.
    + rewrite IH. apply patchStep_applies in Hstep. split.
      * intros (before & q & after & cur & -> & Hpatched & Hfails).
        exists (p :: before), q, after, cur. repeat split; [|assumption].
        econstructor; eassumption.
      * intros (before & q & after & cur & Heq & Hpatched & Hfails).
        destruct before as [|p' before]; simpl in Heq; injection Heq as <- ->.
        -- inversion Hpatched; subst. apply patchStep_fails in Hfails.
           apply patchStep_applies in Hstep. congruence.
        -- inversion Hpatched as [|t p'' mid' rest' out' Happ Hrest]; subst.
           apply patchStep_applies in Happ, Hstep.
           rewrite Hstep in Happ. injection Happ as <-.
           exists before, q, after, cur. repeat split; assumption.
    + split; [|reflexivity]. intros _.
      exists [], p, rest, text. repeat split; [constructor|].
      now apply patchStep_fails.
Qed.


(** ** Decimal digits *)

Lemma str_forall_app (p : ascii -> bool) (a b : string) :
  str_forall p (a ++ b) = str_forall p a && str_forall p b.
Proof. induction a; simpl; [reflexivity|]. now rewrite IHa, andb_assoc. Qed.

Lemma digit_char_code (d : Z) :
  0 <= d < 10 -> Z.of_N (Regex.code (Num.digit_char d)) = 48 + d.
Proof.
  intros Hd. unfold Regex.code, Num.digit_char.
  rewrite N_ascii_embedding; [lia|].
  assert (Z.to_N d < 10)%N by lia. lia.
Qed.

Lemma digit_char_is_digit (d : Z) :
  d < 10 -> Regex.is_digit (Num.digit_char d) = true.
Proof.
  intros Hd. unfold Regex.is_digit, Regex.code, Num.digit_char.
  assert (Z.to_N d < 10)%N by lia.
  rewrite N_ascii_embedding by lia.
  apply andb_true_iff. split; apply N.leb_le; lia.
Qed.

Lemma digits_fuel_all_digits (fuel : nat) (v : Z) :
  str_forall Regex.is_digit (Num.digits_fuel fuel v) = true.
Proof.
  revert v. induction fuel as [|fuel IH]; intros v; simpl; [reflexivity|].
  destruct (v <? 10) eqn:Hv; simpl.
  - rewrite digit_char_is_digit; [reflexivity|]. now apply Z.ltb_lt.
  - rewrite str_forall_app, IH. simpl.
    rewrite digit_char_is_digit; [reflexivity|].
    apply Z.mod_pos_bound. lia.
Qed.

Lemma digits_all_digits (v : Z) : str_forall Regex.is_digit (Num.digits v) = true.
Proof. apply digits_fuel_all_digits. Qed.

Lemma digits_value_app (acc : Z) (s : string) (c : ascii) :
  digits_value acc (s ++ String c EmptyString)
  = 10 * digits_value acc s + (Z.of_N (Regex.code c) - 48).
Proof. revert acc. induction s; intros acc; simpl; [reflexivity|apply IHs]. Qed.

Lemma digits_fuel_value (fuel : nat) (v : Z) :
  0 <= v < 2 ^ Z.of_nat fuel ->
  digits_value 0 (Num.digits_fuel fuel v) = v.
Proof.
  revert v. induction fuel as [|fuel IH]; intros v Hv.
  - simpl in *. lia.
  - cbn [Num.digits_fuel]. destruct (v <? 10) eqn:Hlt.
    + apply Z.ltb_lt in Hlt. simpl. rewrite digit_char_code; lia.
    + apply Z.ltb_ge in Hlt. rewrite digits_value_app.
      rewrite Nat2Z.inj_succ, Z.pow_succ_r in Hv by lia.
      rewrite IH.
      * rewrite digit_char_code by (apply Z.mod_pos_bound; lia).
        pose proof (Z.div_mod v 10). lia.
      * split; [apply Z.div_pos; lia|].
        apply Z.div_lt_upper_bound; lia.
Qed.

Lemma digits_value_digits (v : Z) : 0 <= v -> digits_value 0 (Num.digits v) = v.
Proof.
  intros Hv. unfold Num.digits. apply digits_fuel_value.
  split; [assumption|].
  rewrite Nat2Z.inj_succ, Z2Nat.id by apply Z.log2_nonneg.
  destruct (Z.eq_dec v 0) as [->|Hne]; [reflexivity|].
  apply Z.log2_spec. lia.
Qed.

Lemma digits_inj (v w : Z) : 0 <= v -> 0 <= w -> Num.digits v = Num.digits w -> v = w.
Proof.
  intros Hv Hw Heq. rewrite <- (digits_value_digits v), <- (digits_value_digits w)
    by assumption. now rewrite Heq.
Qed.

Lemma int_toString_nonneg (z : Z) : 0 <= z -> int_toString z = Num.digits z.
Proof.
  intros Hz. unfold int_toString.
  replace (z <? 0) with false by (symmetry; apply Z.ltb_ge; lia).
  now rewrite Z.abs_eq.
Qed.

Lemma all_digits_no_dash (s : string) :
  str_forall Regex.is_digit s = true -> ~ Contains "-" s.
Proof.
  intros Hall (i & a & b & -> & _).
  rewrite !str_forall_app in Hall. simpl in Hall.
  apply andb_true_iff in Hall as [_ Hall]. discriminate.
Qed.

(** ** Text split at a separator *)

Lemma str_app_split (a b c d : string) :
  a ++ b = c ++ d -> (String.length a <= String.length c)%nat ->
  exists m, c = a ++ m /\ b = m ++ d.
Proof.
  revert c. induction a as [|x a IH]; intros c Heq Hlen; simpl in *.
  - exists c. now split.
  - destruct c as [|y c]; simpl in *; [lia|].
    injection Heq as -> Heq.
    destruct (IH c Heq ltac:(lia)) as (m & -> & ->). exists m. now split.
Qed.

Lemma split_first (sep : ascii) (a b a' b' : string) :
  a ++ String sep b = a' ++ String sep b' ->
  ~ Contains (String sep "") a -> ~ Contains (String sep "") a' ->
  a = a' /\ b = b'.
Proof.
  assert (forall a b a' b', a ++ String sep b = a' ++ String sep b' ->
            (String.length a <= String.length a')%nat ->
            ~ Contains (String sep "") a' -> a = a' /\ b = b') as Hle.
  { clear. intros a b a' b' Heq Hlen Hno.
    destruct (str_app_split _ _ _ _ Heq Hlen) as (m & -> & Hm).
    destruct m as [|c m]; simpl in Hm.
    - injection Hm as ->. now rewrite str_app_nil_r.
    - injection Hm as <- _. exfalso. apply Hno.
      exists (String.length a), a, m. now split. }
  intros Heq Hno Hno'.
  destruct (Nat.le_ge_cases (String.length a) (String.length a')) as [Hlen|Hlen].
  - now apply (Hle a b a' b').
  - symmetry in Heq. destruct (Hle a' b' a b Heq Hlen Hno) as [-> ->]. now split.
Qed.

Lemma split_last (sep : ascii) (a b a' b' : string) :
  a ++ String sep b = a' ++ String sep b' ->
  ~ Contains (String sep "") b -> ~ Contains (String sep "") b' ->
  a = a' /\ b = b'.
Proof.
  assert (forall a b a' b', a ++ String sep b = a' ++ String sep b' ->
            (String.length a <= String.length a')%nat ->
            ~ Contains (String sep "") b -> a = a' /\ b = b') as Hle.
  { clear. intros a b a' b' Heq Hlen Hno.
    destruct (str_app_split _ _ _ _ Heq Hlen) as (m & -> & Hm).
    destruct m as [|c m]; simpl in Hm.
    - injection Hm as ->. now rewrite str_app_nil_r.
    - injection Hm as _ ->. exfalso. apply Hno.
      exists (String.length m), m, b'. now split. }
  intros Heq Hno Hno'.
  destruct (Nat.le_ge_cases (String.length a) (String.length a')) as [Hlen|Hlen].
  - now apply (Hle a b a' b').
  - symmetry in Heq. destruct (Hle a' b' a b Heq Hlen Hno') as [-> ->]. now split.
Qed.

(** ** Issue ids ([checkElement]) *)

Section IssueIds.

Variable stringToNumber : string -> Num.number.
Variable regExpTest : string -> string -> option bool.

Lemma checkRequirement_issue element rule req issue :
  In issue (checkRequirement stringToNumber regExpTest element rule req) ->
  exists issueType expected actual suggestedFix,
    issue = mkElementIssue element rule req issueType expected actual suggestedFix.
Proof.
  unfold checkRequirement, checkValue.
  repeat match goal with
         | |- context [match ?x with _ => _ end] => destruct x
         end;
    simpl; intros Hin; try contradiction;
    destruct Hin as [<-|[]]; do 4 eexists; reflexivity.
Qed.

Lemma checkElement_emits element rule issue :
  In issue (checkElement stringToNumber regExpTest element rule) ->
  exists req, In req (rule_requirements rule)
    /\ issue_id issue
       = issueId (ve_expressID element) (rule_id rule) (req_propertyName req).
Proof.
  unfold checkElement.
  destruct (excludedBy _ _); [intros []|].
  destruct (excludedBy _ _); [intros []|].
  intros Hin. apply in_flat_map in Hin as (req & Hreq & Hin).
  exists req. split; [assumption|].
  apply checkRequirement_issue in Hin as (t & e & a & f & ->). reflexivity.
Qed.

Lemma issueId_inj (e1 e2 : ExpressID) (r1 r2 p1 p2 : string) :
  0 <= e1 -> 0 <= e2 ->
  (~ Contains "-" p1 /\ ~ Contains "-" p2)
  \/ (~ Contains "-" r1 /\ ~ Contains "-" r2) ->
  issueId e1 r1 p1 = issueId e2 r2 p2 ->
  e1 = e2 /\ r1 = r2 /\ p1 = p2.
Proof.
  intros He1 He2 Hfree. unfold issueId.
  rewrite !int_toString_nonneg by assumption.
  pose proof (all_digits_no_dash _ (digits_all_digits e1)) as Hd1.
  pose proof (all_digits_no_dash _ (digits_all_digits e2)) as Hd2.
  intros Heq. destruct Hfree as [[Hp1 Hp2] | [Hr1 Hr2]].
  - assert ((Num.digits e1 ++ "-" ++ r1) ++ String "-" p1
            = (Num.digits e2 ++ "-" ++ r2) ++ String "-" p2) as Heq'.
    { rewrite !str_app_assoc. exact Heq. }
    apply split_last in Heq' as [Heq' ->]; [|assumption|assumption].
    apply (split_first "-") in Heq' as [Hd ->]; [|assumption|assumption].
    apply digits_inj in Hd; [|assumption|assumption]. now subst.
  - apply (split_first "-") in Heq as [Hd Heq]; [|assumption|assumption].
    apply (split_first "-") in Heq as [-> ->]; [|assumption|assumption].
    apply digits_inj in Hd; [|assumption|assumption]. now subst.
Qed.

(** C8, as amended: every issue has the id made of the express id of
    its element, the id of its rule and the property name of one of the
    requirements of the rule, hyphens between them; and two issues whose
    express ids are not negative and whose property names, or whose
    rule ids, hold no hyphen have different ids when they differ in
    express id, rule id or property name. *)
Theorem checkElement_issue_ids (element1 element2 : ValidateElement)
  (rule1 rule2 : ValidateRule) (issue1 issue2 : ValidationIssue) :
  In issue1 (checkElement stringToNumber regExpTest element1 rule1) ->
  In issue2 (checkElement stringToNumber regExpTest element2 rule2) ->
  exists req1 req2,
    In req1 (rule_requirements rule1) /\ In req2 (rule_requirements rule2)
    /\ issue_id issue1
       = issueId (ve_expressID element1) (rule_id rule1) (req_propertyName req1)
    /\ issue_id issue2
       = issueId (ve_expressID element2) (rule_id rule2) (req_propertyName req2)
    /\ (0 <= ve_expressID element1 -> 0 <= ve_expressID element2 ->
        (~ Contains "-" (req_propertyName req1) /\ ~ Contains "-" (req_propertyName req2))
        \/ (~ Contains "-" (rule_id rule1) /\ ~ Contains "-" (rule_id rule2)) ->
        (ve_expressID element1, rule_id rule1, req_propertyName req1)
        <> (ve_expressID element2, rule_id rule2, req_propertyName req2) ->
        issue_id issue1 <> issue_id issue2).
Proof.
  intros H1 H2.
  apply checkElement_emits in H1 as (req1 & Hreq1 & Hid1).
  apply checkElement_emits in H2 as (req2 & Hreq2 & Hid2).
  exists req1, req2. repeat split; try assumption.
  intros He1 He2 Hfree Hne Heq. apply Hne.
  rewrite Hid1, Hid2 in Heq.
  apply issueId_inj in Heq as (-> & -> & ->); try assumption. reflexivity.
Qed.

End IssueIds.

(** ** The claims on sample data *)

(** C1, the claim as stated fails: with the empty text as the original
    text and nothing modified, the export throws. *)
Lemma exportModifiedIfc_empty_text_throws :
  noPendingEdit Sample.emptyState
  /\ originalIfcText Sample.emptyState = Some ""
  /\ exportModifiedIfc Sample.emptyState false
     = Throws "No original IFC text available for export".
Proof.
  split; [|split; reflexivity].
  apply collectModifiedProperties_nil. reflexivity.
Qed.

Lemma exportModifiedIfc_unmodified_witness :
  noPendingEdit (Sample.state (VStr "A") false)
  /\ exportModifiedIfc (Sample.state (VStr "A") false) false = Blob Sample.text.
Proof.
  assert (noPendingEdit (Sample.state (VStr "A") false)) as Hno
    by (apply collectModifiedProperties_nil; reflexivity).
  split; [exact Hno|].
  apply (exportModifiedIfc_unmodified (Sample.state (VStr "A") false) Sample.text false).
  - exact Hno.
  - reflexivity.
  - discriminate.
Defined.

(** C2, the header is not kept: the record #7 is first met in the
    comment of the header, its line there is rebuilt, and putting the
    original header back through [replace] turns the two dollar signs
    of the comment into one. *)
Theorem rewriteExport_header_altered :
  extractHeaderSection Sample.text
  = "HEADER;/* $$ #7=IFCPROPERTYSINGLEVALUE('Ref',$,IFCLABEL('A'); */"
    ++ "FILE_SCHEMA(('IFC4'));ENDSEC;"
  /\ extractHeaderSection (rewriteExport Sample.text [Sample.patch])
     = "HEADER;/* $ #7=IFCPROPERTYSINGLEVALUE('Ref',$,IFCLABEL('A'); */"
       ++ "FILE_SCHEMA(('IFC4'));ENDSEC;"
  /\ extractHeaderSection (rewriteExport Sample.text [Sample.patch])
     <> extractHeaderSection Sample.text
  /\ exportModifiedIfc (Sample.state (VStr "B") true) true
     = Blob (rewriteExport Sample.text [Sample.patch]).
Proof.
  split; [vm_compute; reflexivity|].
  split; [vm_compute; reflexivity|].
  split; [vm_compute; discriminate|].
  vm_compute; reflexivity.
Qed.




Lemma checkElement_missing_witness :
  applicable Sample.element (Sample.rule "R1" "FireRating")
  /\ exists issue,
       checkRequirement Sample.noNumber Sample.noRegExp Sample.element
         (Sample.rule "R1" "FireRating") (Sample.requirement "FireRating") = [issue]
       /\ issue_issueType issue = MissingParam.
Proof.
  assert (applicable Sample.element (Sample.rule "R1" "FireRating")) as Happ
    by (split; reflexivity).
  split; [exact Happ|].
  destruct (checkElement_missing Sample.noNumber Sample.noRegExp Sample.element
              (Sample.rule "R1" "FireRating") Happ) as [_ Hreq].
  destruct (Hreq (Sample.requirement "FireRating") (or_introl eq_refl)) as [Habs _].
  apply Habs.
  - intros pset [].
  - left. reflexivity.
Defined.

(** C7, the claim as stated fails: writing the original value back
    leaves the property modified with its value equal to the original
    value. *)
Lemma updatePropertyValue_same_value :
  loaded (Sample.state (VStr "A") false)
  /\ propertiesOf (updatePropertyValue (Sample.state (VStr "A") false)
                     5 "Pset_WallCommon" "Ref" (VStr "A"))
     = [ Sample.property (VStr "A") true ]
  /\ prop_modified (Sample.property (VStr "A") true) = true
  /\ strict_eq (prop_value (Sample.property (VStr "A") true))
               (prop_originalValue (Sample.property (VStr "A") true)) = true.
Proof.
  split; [|repeat split].
  intros prop [<-|[]]. split; reflexivity.
Qed.

Lemma modified_flag_sticky_witness :
  prop_modified (Sample.property (VStr "B") true) = true
  /\ exists prop',
       lookupProperty (updatePropertyValue (Sample.state (VStr "A") false)
                         5 "Pset_WallCommon" "Ref" (VStr "B"))
                      5 "Pset_WallCommon" "Ref" = Some prop'
       /\ prop_modified prop' = true
       /\ prop_value prop' = VStr "B"
       /\ prop_originalValue prop' = VStr "A".
Proof.
  destruct modified_flag_sticky as [Hflag Hupdate]. split.
  - apply (Hflag (updatePropertyValue (Sample.state (VStr "A") false)
                    5 "Pset_WallCommon" "Ref" (VStr "B"))).
    + apply reachable_update, reachable_loaded.
      intros prop [<-|[]]. split; reflexivity.
    + left. reflexivity.
    + discriminate.
  - apply (Hupdate (Sample.state (VStr "A") false) 5 "Pset_WallCommon" "Ref"
             (VStr "B") (Sample.property (VStr "A") false)).
    reflexivity.
Defined.

(** C8, the claim as stated fails: the rule [a-b] with the property [c]
    and the rule [a] with the property [b-c] give the same element
    issues of one id. *)
Lemma checkElement_issue_id_clash :
  List.map issue_id (checkElement Sample.noNumber Sample.noRegExp Sample.element
                       (Sample.rule "a-b" "c")) = [ "1-a-b-c" ]
  /\ List.map issue_id (checkElement Sample.noNumber Sample.noRegExp Sample.element
                          (Sample.rule "a" "b-c")) = [ "1-a-b-c" ]
  /\ (ve_expressID Sample.element, "a-b", "c") <> (ve_expressID Sample.element, "a", "b-c").
Proof.
  split; [reflexivity|]. split; [reflexivity|discriminate].
Qed.

Lemma checkElement_issue_ids_witness :
  In (Sample.issue "R1") (checkElement Sample.noNumber Sample.noRegExp Sample.element
                            (Sample.rule "R1" "FireRating"))
  /\ In (Sample.issue "R2") (checkElement Sample.noNumber Sample.noRegExp Sample.element
                               (Sample.rule "R2" "FireRating"))
  /\ issue_id (Sample.issue "R1") <> issue_id (Sample.issue "R2").
Proof.
  assert (In (Sample.issue "R1")
            (checkElement Sample.noNumber Sample.noRegExp Sample.element
               (Sample.rule "R1" "FireRating"))) as H1 by (left; reflexivity).
  assert (In (Sample.issue "R2")
            (checkElement Sample.noNumber Sample.noRegExp Sample.element
               (Sample.rule "R2" "FireRating"))) as H2 by (left; reflexivity).
  split; [exact H1|]. split; [exact H2|].
  destruct (checkElement_issue_ids Sample.noNumber Sample.noRegExp
              Sample.element Sample.element
              (Sample.rule "R1" "FireRating") (Sample.rule "R2" "FireRating")
              (Sample.issue "R1") (Sample.issue "R2") H1 H2)
    as (req1 & req2 & Hreq1 & Hreq2 & _ & _ & Hne).
  destruct Hreq1 as [<-|[]]. destruct Hreq2 as [<-|[]].
  apply Hne.
  - simpl. lia.
  - simpl. lia.
  - left. split; apply find_None_iff; reflexivity.
  - discriminate.
Defined.

(** C9, the claim as stated fails: a requirement whose literal value is
    there but empty becomes a [notEmpty] check. *)
Lemma idsToRulePack_empty_literal :
  facet_value (Sample.facet (Some "") None) = Some ""
  /\ List.map (fun rule => List.map req_checkType (rule_requirements rule))
       (pack_rules (idsToRulePack [ Sample.specification (Some "") None ] "a.ids"))
     = [ [ CkNotEmpty ] ].
Proof. split; reflexivity. Qed.

Lemma idsToRulePack_property_checkType_witness :
  exists rule r,
    In rule (pack_rules (idsToRulePack [ Sample.specification (Some "2HR") None ] "a.ids"))
    /\ rule_name rule = "Fire rating"
    /\ In r (rule_requirements rule)
    /\ req_checkType r = CkEquals
    /\ req_expected r = ExpValue (VStr "2HR").
Proof.
  destruct (idsToRulePack_property_checkType
              [ Sample.specification (Some "2HR") None ] "a.ids"
              (Sample.specification (Some "2HR") None)
              {| ireq_facet := Sample.facet (Some "2HR") None;
                 ireq_cardinality := Required; ireq_description := None |}
              (or_introl eq_refl) (or_introl eq_refl) eq_refl)
    as (rule & r & Hrule & Hname & Hr & _ & _ & Hreq & _).
  destruct (Hreq eq_refl) as [Hvalue _].
  destruct (Hvalue "2HR" eq_refl) as [Hcheck Hexp]; [discriminate|].
  exists rule, r. repeat split; assumption.
Defined.


(** ** Pattern replacement in [formatIfcValue] *)

Lemma search_ge (r : Regex.regex) (pos : nat) (s : string) (i : nat)
  (st : Regex.mstate) :
  Regex.search r pos s = Some (i, st) -> (pos <= i)%nat.
Proof.
  revert pos. induction s as [|c s IH]; intros pos; cbn [Regex.search].
  - destruct (Regex.rmatch r _ Some); [intros [= <- _]; lia|discriminate].
  - destruct (Regex.rmatch r _ Some); [intros [= <- _]; lia|].
    intros H. apply IH in H. lia.
Qed.

Lemma search_chr (p : ascii -> bool) (pos : nat) (s : string) :
  Regex.search (Regex.Chr p) pos s =
  match s with
  | EmptyString => None
  | String c s' =>
      if p c then Some (pos, {| Regex.m_pos := S pos; Regex.m_rest := s';
                                Regex.m_caps := [] |})
      else Regex.search (Regex.Chr p) (S pos) s'
  end.
Proof. destruct s as [|c s]; simpl; [reflexivity|]. now destruct (p c). Qed.

Lemma replace_all_quote_from (fuel : nat) (whole : string) (pos : nat) (s : string) :
  (String.length s < fuel)%nat ->
  Regex.replace_all_from fuel whole re_quote "''" pos s = doubleQuotes s.
Proof.
  revert fuel pos. induction s as [|c s IH]; intros fuel pos Hfuel.
  - destruct fuel; [simpl in Hfuel; lia|]. reflexivity.
  - destruct fuel as [|fuel]; [simpl in Hfuel; lia|].
    simpl in Hfuel. cbn [Regex.replace_all_from doubleQuotes].
    unfold re_quote, Regex.lit. rewrite search_chr.
    destruct (Ascii.eqb "'" c) eqn:Hc.
    + apply Ascii.eqb_eq in Hc. subst c. cbn [Regex.m_pos Regex.m_rest].
      replace (S pos =? pos)%nat with false by (symmetry; apply Nat.eqb_neq; lia).
      replace (pos - pos)%nat with O by lia.
      replace (S pos - pos)%nat with 1%nat by lia.
      rewrite Ascii.eqb_refl. cbn.
      f_equal. f_equal. apply (IH fuel (S pos)). lia.
    + rewrite Ascii.eqb_sym, Hc.
      specialize (IH (S fuel) (S pos) ltac:(lia)).
      cbn [Regex.replace_all_from] in IH. unfold re_quote, Regex.lit in IH.
      rewrite <- IH.
      destruct (Regex.search (Regex.Chr (Ascii.eqb "'")) (S pos) s)
        as [[i st]|] eqn:Hsearch; [|reflexivity].
      apply search_ge in Hsearch.
      replace (i - pos)%nat with (S (i - S pos)) by lia.
      cbn [Js.str_take Js.str_drop].
      destruct (Regex.m_pos st =? i)%nat; [destruct (Regex.m_rest st)|]; reflexivity.
Qed.

Lemma replace_all_quote (s : string) :
  Regex.replace_all s re_quote "''" = doubleQuotes s.
Proof. unfold Regex.replace_all. apply replace_all_quote_from. lia. Qed.

Lemma star_zeros_eol (fuel : nat) (st : Regex.mstate) :
  (String.length (Regex.m_rest st) <= fuel)%nat ->
  Regex.star_loop (Regex.rmatch (Regex.lit "0"))
    (fun st' => Regex.rmatch Regex.Eol st' Some) fuel st
  = if str_forall is_zero (Regex.m_rest st) then Some (at_end st) else None.
Proof.
  destruct st as [pos rest caps]. cbn [Regex.m_rest].
  revert fuel pos. induction rest as [|c rest IH]; intros fuel pos Hfuel.
  - unfold at_end. cbn. rewrite Nat.add_0_r. destruct fuel; reflexivity.
  - destruct fuel as [|fuel]; [simpl in Hfuel; lia|]. simpl in Hfuel.
    cbn [Regex.star_loop Regex.rmatch Regex.lit Regex.m_rest str_forall].
    unfold is_zero at 1. destruct (Ascii.eqb "0" c) eqn:Hc; cbn [andb].
    + unfold Regex.advance. cbn [Regex.m_pos Regex.m_rest Regex.m_caps].
      replace (S pos =? pos)%nat with false by (symmetry; apply Nat.eqb_neq; lia).
      rewrite IH by lia. cbn [Regex.m_rest].
      destruct (str_forall is_zero rest); [|reflexivity].
      unfold at_end. cbn. f_equal. f_equal. lia.
    + reflexivity.
Qed.

Lemma rmatch_trailing_zeros (st : Regex.mstate) :
  Regex.rmatch re_trailing_zeros st Some
  = match Regex.m_rest st with
    | EmptyString => None
    | String _ _ =>
        if str_forall is_zero (Regex.m_rest st) then Some (at_end st) else None
    end.
Proof.
  destruct st as [pos rest caps]. unfold re_trailing_zeros, Regex.Plus.
  cbn [Regex.rmatch Regex.lit Regex.m_rest].
  destruct rest as [|c rest]; [reflexivity|].
  cbn [str_forall]. unfold is_zero at 1.
  destruct (Ascii.eqb "0" c); cbn [andb]; [|reflexivity].
  unfold Regex.advance. cbn [Regex.m_pos Regex.m_rest Regex.m_caps].
  rewrite star_zeros_eol by (cbn; lia). cbn [Regex.m_rest].
  destruct (str_forall is_zero rest); [|reflexivity].
  unfold at_end. cbn. f_equal. f_equal. lia.
Qed.

Lemma search_trailing_zeros (pos : nat) (s : string) :
  match Regex.search re_trailing_zeros pos s with
  | None => stripZeros s = s
  | Some (i, st) =>
      (pos <= i)%nat /\ Js.str_take (i - pos) s = stripZeros s
      /\ Regex.m_rest st = ""
  end.
Proof.
  revert pos. induction s as [|c s IH]; intros pos.
  - reflexivity.
  - cbn [Regex.search]. rewrite rmatch_trailing_zeros. cbn [Regex.m_rest stripZeros].
    destruct (str_forall is_zero (String c s)) eqn:Hz.
    + split; [lia|]. replace (pos - pos)%nat with O by lia. split; reflexivity.
    + specialize (IH (S pos)).
      destruct (Regex.search re_trailing_zeros (S pos) s) as [[i st]|].
      * destruct IH as (Hi & Htake & Hrest). split; [lia|].
        replace (i - pos)%nat with (S (i - S pos)) by lia.
        cbn [Js.str_take]. now rewrite Htake.
      * now rewrite IH.
Qed.

Lemma replace_trailing_zeros (s : string) :
  Regex.replace s re_trailing_zeros "" = stripZeros s.
Proof.
  unfold Regex.replace, Regex.exec.
  pose proof (search_trailing_zeros 0 s) as H.
  destruct (Regex.search re_trailing_zeros 0 s) as [[i st]|]; [|now rewrite H].
  destruct H as (_ & Htake & Hrest). rewrite Hrest, Nat.sub_0_r in *.
  cbn [Js.getSubstitution]. rewrite Htake. cbn. apply str_app_nil_r.
Qed.

Lemma rmatch_trailing_dot (st : Regex.mstate) :
  Regex.rmatch re_trailing_dot st Some
  = match Regex.m_rest st with
    | String c EmptyString => if Ascii.eqb "." c then Some (at_end st) else None
    | _ => None
    end.
Proof.
  destruct st as [pos rest caps]. unfold re_trailing_dot.
  cbn [Regex.rmatch Regex.lit Regex.m_rest].
  destruct rest as [|c rest]; [reflexivity|].
  destruct (Ascii.eqb "." c); [|now destruct rest].
  unfold Regex.advance. cbn [Regex.m_pos Regex.m_rest Regex.m_caps].
  destruct rest; [|reflexivity]. unfold at_end. cbn. f_equal. f_equal. lia.
Qed.

Lemma search_trailing_dot (pos : nat) (s : string) :
  match Regex.search re_trailing_dot pos s with
  | None => padPoint s = s
  | Some (i, st) =>
      (pos <= i)%nat /\ Js.str_take (i - pos) s ++ ".0" = padPoint s
      /\ Regex.m_rest st = ""
  end.
Proof.
  revert pos. induction s as [|c s IH]; intros pos.
  - reflexivity.
  - cbn [Regex.search]. rewrite rmatch_trailing_dot. cbn [Regex.m_rest padPoint].
    destruct s as [|d s].
    + destruct (Ascii.eqb "." c).
      * split; [lia|]. replace (pos - pos)%nat with O by lia. split; reflexivity.
      * reflexivity.
    + specialize (IH (S pos)).
      destruct (Regex.search re_trailing_dot (S pos) (String d s)) as [[i st]|].
      * destruct IH as (Hi & Htake & Hrest). split; [lia|].
        replace (i - pos)%nat with (S (i - S pos)) by lia.
        cbn [Js.str_take]. cbn [String.append]. now rewrite Htake.
      * now rewrite IH.
Qed.

Lemma replace_trailing_dot (s : string) :
  Regex.replace s re_trailing_dot ".0" = padPoint s.
Proof.
  unfold Regex.replace, Regex.exec.
  pose proof (search_trailing_dot 0 s) as H.
  destruct (Regex.search re_trailing_dot 0 s) as [[i st]|]; [|now rewrite H].
  destruct H as (_ & Htake & Hrest). rewrite Hrest, Nat.sub_0_r in *.
  cbn [Js.getSubstitution Ascii.eqb Bool.eqb Js.dollar]. cbn.
  exact Htake.
Qed.

(** ** Binary64 values *)

Lemma digits2_pos_bounds (m : positive) :
  2 ^ (Z.pos (digits2_pos m) - 1) <= Z.pos m < 2 ^ Z.pos (digits2_pos m).
Proof.
  induction m as [m IH|m IH|]; cbn [digits2_pos].
  - rewrite Pos2Z.inj_succ.
    replace (Z.succ (Z.pos (digits2_pos m)) - 1) with (Z.succ (Z.pos (digits2_pos m) - 1))
      by lia.
    rewrite !Z.pow_succ_r by lia. lia.
  - rewrite Pos2Z.inj_succ.
    replace (Z.succ (Z.pos (digits2_pos m)) - 1) with (Z.succ (Z.pos (digits2_pos m) - 1))
      by lia.
    rewrite !Z.pow_succ_r by lia. lia.
  - simpl. lia.
Qed.

(** A finite binary64 value has a mantissa below [2^53] and an exponent
    from [-1074] to [971]; above the least exponent the mantissa is at
    least [2^52]. *)
Lemma is_double_finite (s : bool) (m : positive) (e : Z) :
  Num.is_double (S754_finite s m e) = true ->
  Z.pos m < 2 ^ 53 /\ -1074 <= e <= 971 /\ (-1074 < e -> 2 ^ 52 <= Z.pos m).
Proof.
  unfold Num.is_double, valid_binary, bounded, canonical_mantissa, fexp, emin,
    Num.prec, Num.emax.
  intros H. apply andb_true_iff in H as [Hc He].
  apply Z.eqb_eq in Hc. apply Z.leb_le in He.
  pose proof (digits2_pos_bounds m) as [Hlo Hhi].
  assert (Z.pos (digits2_pos m) <= 53) as Hd by lia.
  split.
  - eapply Z.lt_le_trans; [exact Hhi|]. apply Z.pow_le_mono_r; lia.
  - split; [lia|]. intros Hmin.
    assert (Z.pos (digits2_pos m) = 53) as Hd' by lia.
    rewrite Hd' in Hlo. exact Hlo.
Qed.

Lemma isInteger_false_exponent (s : bool) (m : positive) (e : Z) :
  Num.isInteger (S754_finite s m e) = false -> e < 0.
Proof.
  unfold Num.isInteger, Num.numer, Num.denom. intros H.
  destruct (Z.lt_ge_cases e 0) as [Hlt|Hge]; [assumption|].
  replace (Z.max (- e) 0) with 0 in H by lia.
  rewrite Z.pow_0_r, Z.mod_1_r in H. discriminate.
Qed.

(** ** Digit strings *)

Lemma zeros_length (n : nat) : String.length (Num.zeros n) = n.
Proof. induction n; simpl; congruence. Qed.

Lemma zeros_all_digits (n : nat) : str_forall Regex.is_digit (Num.zeros n) = true.
Proof. induction n; simpl; [reflexivity|assumption]. Qed.

Lemma digits_value_zeros (n : nat) (s : string) :
  digits_value 0 (Num.zeros n ++ s) = digits_value 0 s.
Proof. induction n; simpl; [reflexivity|assumption]. Qed.

Lemma digits_value_shift (acc : Z) (s : string) :
  digits_value acc s = acc * 10 ^ Z.of_nat (String.length s) + digits_value 0 s.
Proof.
  revert acc. induction s as [|c s IH]; intros acc.
  - simpl. lia.
  - cbn [digits_value String.length]. rewrite IH.
    rewrite (IH (10 * 0 + _)). rewrite Nat2Z.inj_succ, Z.pow_succ_r by lia. lia.
Qed.

Lemma digits_value_concat (a b : string) :
  digits_value 0 (a ++ b)
  = digits_value 0 a * 10 ^ Z.of_nat (String.length b) + digits_value 0 b.
Proof.
  assert (forall acc, digits_value acc (a ++ b) = digits_value (digits_value acc a) b)
    as H by (induction a; intros acc; simpl; [reflexivity|apply IHa]).
  rewrite H. apply digits_value_shift.
Qed.

Lemma digits_fuel_nonempty (fuel : nat) (v : Z) :
  Num.digits_fuel (S fuel) v <> "".
Proof.
  cbn [Num.digits_fuel]. destruct (v <? 10); [discriminate|].
  destruct (Num.digits_fuel fuel (v / 10)); discriminate.
Qed.

Lemma digits_nonempty (v : Z) : Num.digits v <> "".
Proof. apply digits_fuel_nonempty. Qed.

Lemma str_forall_take (p : ascii -> bool) (n : nat) (s : string) :
  str_forall p s = true -> str_forall p (Js.str_take n s) = true.
Proof.
  revert s. induction n as [|n IH]; intros s; [reflexivity|].
  destruct s as [|c s]; [reflexivity|]. simpl.
  intros H. apply andb_true_iff in H as [Hc Hs]. now rewrite Hc, IH.
Qed.

Lemma str_forall_drop (p : ascii -> bool) (n : nat) (s : string) :
  str_forall p s = true -> str_forall p (Js.str_drop n s) = true.
Proof.
  revert s. induction n as [|n IH]; intros s; [trivial|].
  destruct s as [|c s]; [trivial|]. simpl.
  intros H. apply andb_true_iff in H as [Hc Hs]. now apply IH.
Qed.

(** ** Trimming *)

Lemma stripZeros_app (a : string) (c : ascii) (b : string) :
  is_zero c = false ->
  stripZeros (a ++ String c b) = a ++ String c (stripZeros b).
Proof.
  intros Hc. induction a as [|d a IH].
  - cbn [String.append stripZeros str_forall]. now rewrite Hc.
  - cbn [String.append stripZeros].
    assert (str_forall is_zero (String d (a ++ String c b)) = false) as ->.
    { cbn [str_forall]. rewrite str_forall_app. cbn [str_forall]. rewrite Hc.
      now rewrite andb_false_r, andb_false_r. }
    now rewrite IH.
Qed.

Lemma stripZeros_split (s : string) :
  exists z, s = stripZeros s ++ z /\ str_forall is_zero z = true.
Proof.
  induction s as [|c s (z & Hs & Hz)].
  - exists "". now split.
  - cbn [stripZeros]. destruct (str_forall is_zero (String c s)) eqn:Hall.
    + exists (String c s). now split.
    + exists z. split; [|assumption]. cbn [String.append]. now rewrite <- Hs.
Qed.

Lemma stripZeros_last (s : string) :
  stripZeros s = "" \/ exists t c, stripZeros s = t ++ String c "" /\ is_zero c = false.
Proof.
  induction s as [|c s IH]; [now left|].
  cbn [stripZeros]. destruct (str_forall is_zero (String c s)) eqn:Hall; [now left|].
  right. destruct IH as [Hnil | (t & d & Ht & Hd)].
  - rewrite Hnil. exists "", c. split; [reflexivity|].
    destruct (stripZeros_split s) as (z & Hs & Hz). rewrite Hnil in Hs.
    simpl in Hs. subst z. cbn [str_forall] in Hall. rewrite Hz in Hall.
    now rewrite andb_true_r in Hall.
  - rewrite Ht. exists (String c t), d. now split.
Qed.

Lemma padPoint_point (a : string) : padPoint (a ++ ".") = a ++ ".0".
Proof.
  induction a as [|c a IH]; [reflexivity|].
  cbn [String.append padPoint]. rewrite IH.
  destruct (a ++ ".") eqn:Ha; [destruct a; discriminate|reflexivity].
Qed.

Lemma padPoint_other (a : string) (c : ascii) :
  Ascii.eqb "." c = false -> padPoint (a ++ String c "") = a ++ String c "".
Proof.
  intros Hc. induction a as [|d a IH].
  - cbn [String.append padPoint]. now rewrite Hc.
  - cbn [String.append padPoint]. rewrite IH.
    destruct (a ++ String c "") eqn:Ha; [destruct a; discriminate|reflexivity].
Qed.

Lemma zero_is_digit (c : ascii) : is_zero c = true -> Regex.is_digit c = true.
Proof. unfold is_zero. intros H. apply Ascii.eqb_eq in H. now subst c. Qed.

Lemma digit_not_point (c : ascii) : Regex.is_digit c = true -> Ascii.eqb "." c = false.
Proof.
  intros H. destruct (Ascii.eqb "." c) eqn:Hc; [|reflexivity].
  apply Ascii.eqb_eq in Hc. subst c. discriminate.
Qed.

(** The text [toFixed] gives, trimmed as [formatIfcValue] trims it. *)
Lemma trim_fixed (sign ip f6 : string) :
  str_forall Regex.is_digit f6 = true ->
  padPoint (stripZeros (sign ++ ip ++ "." ++ f6))
  = sign ++ ip ++ "." ++ trimFraction f6.
Proof.
  intros Hdigits.
  replace (sign ++ ip ++ "." ++ f6) with ((sign ++ ip) ++ String "." f6)
    by (now rewrite str_app_assoc).
  rewrite stripZeros_app by reflexivity. unfold trimFraction.
  destruct (stripZeros_split f6) as (z & Hf6 & Hz).
  destruct (stripZeros_last f6) as [Hnil | (t & c & Ht & Hc)].
  - rewrite Hnil.
    replace ((sign ++ ip) ++ ".") with ((sign ++ ip) ++ ".") by reflexivity.
    rewrite padPoint_point. now rewrite !str_app_assoc.
  - rewrite Ht.
    replace ((sign ++ ip) ++ String "." (t ++ String c ""))
      with (((sign ++ ip) ++ String "." t) ++ String c "")
      by (now rewrite !str_app_assoc).
    rewrite padPoint_other.
    + rewrite !str_app_assoc. cbn [String.append].
      destruct (t ++ String c "") eqn:Hne; [destruct t; discriminate|reflexivity].
    + apply digit_not_point.
      rewrite Hf6, Ht, !str_forall_app in Hdigits. cbn [str_forall] in Hdigits.
      apply andb_true_iff in Hdigits as [Hdigits _].
      apply andb_true_iff in Hdigits as [_ Hdigits].
      now apply andb_true_iff in Hdigits as [Hdigits _].
Qed.

(** ** Numbers that are not integral ([formatIfcValue]) *)

Lemma toFixed_digits (n : Z) :
  0 <= n ->
  let ds := Num.digits n in
  let k := Js.strlen ds in
  let ds' := if k <=? 6 then Num.zeros (Z.to_nat (6 + 1 - k)) ++ ds else ds in
  let k' := Js.strlen ds' in
  exists ip f6,
    Js.str_take (Z.to_nat (k' - 6)) ds' = ip
    /\ Js.str_drop (Z.to_nat (k' - 6)) ds' = f6
    /\ ip <> "" /\ String.length f6 = 6%nat
    /\ str_forall Regex.is_digit ip = true
    /\ str_forall Regex.is_digit f6 = true
    /\ digits_value 0 ip * 10 ^ 6 + digits_value 0 f6 = n.
Proof.
  intros Hn ds k ds' k'.
  assert (str_forall Regex.is_digit ds' = true) as Hdigits.
  { subst ds'. destruct (k <=? 6); [|apply digits_all_digits].
    rewrite str_forall_app, zeros_all_digits. apply digits_all_digits. }
  assert (digits_value 0 ds' = n) as Hvalue.
  { subst ds'. destruct (k <=? 6); [rewrite digits_value_zeros|];
      now apply digits_value_digits. }
  assert (7 <= k') as Hk'.
  { subst k' ds'. unfold Js.strlen. destruct (k <=? 6) eqn:Hk.
    - apply Z.leb_le in Hk. rewrite str_length_app, zeros_length.
      subst k. unfold Js.strlen in *. lia.
    - apply Z.leb_gt in Hk. subst k. unfold Js.strlen in Hk. lia. }
  exists (Js.str_take (Z.to_nat (k' - 6)) ds'), (Js.str_drop (Z.to_nat (k' - 6)) ds').
  split; [reflexivity|]. split; [reflexivity|].
  assert (String.length (Js.str_take (Z.to_nat (k' - 6)) ds') = Z.to_nat (k' - 6))
    as Hlen by (rewrite str_length_take; subst k'; unfold Js.strlen in *; lia).
  assert (String.length (Js.str_drop (Z.to_nat (k' - 6)) ds') = 6%nat)
    as Hlen' by (rewrite str_length_drop; subst k'; unfold Js.strlen in *; lia).
  split.
  { intros Hnil. rewrite Hnil in Hlen. simpl in Hlen. lia. }
  split; [assumption|].
  split; [now apply str_forall_take|].
  split; [now apply str_forall_drop|].
  transitivity (digits_value 0 (Js.str_take (Z.to_nat (k' - 6)) ds'
                                ++ Js.str_drop (Z.to_nat (k' - 6)) ds'));
    [|now rewrite str_take_drop].
  rewrite digits_value_concat, Hlen'. reflexivity.
Qed.

Lemma nearest_roundsTo (num den f : Z) :
  0 < den ->
  roundsTo num den f ((2 * num * 10 ^ f + den) / (2 * den)).
Proof.
  intros Hden. unfold roundsTo.
  pose proof (Z.div_mod (2 * num * 10 ^ f + den) (2 * den) ltac:(lia)) as Hdm.
  pose proof (Z.mod_pos_bound (2 * num * 10 ^ f + den) (2 * den) ltac:(lia)) as Hmod.
  nia.
Qed.

Lemma formatIfcValue_fraction (s : bool) (m : positive) (e : Z) :
  Num.is_double (S754_finite s m e) = true ->
  Num.isInteger (S754_finite s m e) = false ->
  exists ip f6 n,
    formatIfcValue (VNum (S754_finite s m e))
    = signText s ++ ip ++ "." ++ trimFraction f6
    /\ ip <> "" /\ String.length f6 = 6%nat
    /\ str_forall Regex.is_digit ip = true
    /\ str_forall Regex.is_digit f6 = true
    /\ roundsTo (Num.numer (Z.pos m) e) (Num.denom e) 6 n
    /\ digits_value 0 ip * 10 ^ 6 + digits_value 0 f6 = n.
Proof.
  intros Hdouble Hint.
  apply is_double_finite in Hdouble as (Hm & He & _).
  pose proof (isInteger_false_exponent _ _ _ Hint) as Hneg.
  unfold formatIfcValue. rewrite Hint.
  rewrite replace_trailing_zeros, replace_trailing_dot.
  unfold Num.toFixed.
  set (num := Num.numer (Z.pos m) e). set (den := Num.denom e).
  assert (0 < den) as Hden by (subst den; unfold Num.denom; apply Z.pow_pos_nonneg; lia).
  assert (num = Z.pos m) as Hnum.
  { subst num. unfold Num.numer. replace (Z.max e 0) with 0 by lia. lia. }
  replace (den * 10 ^ 21 <=? num) with false.
  2:{ symmetry. apply Z.leb_gt. rewrite Hnum.
      assert (2 ^ 53 < 10 ^ 21) by reflexivity. nia. }
  set (n := (2 * num * 10 ^ 6 + den) / (2 * den)).
  assert (0 <= n) as Hn by (subst n; apply Z.div_pos; lia).
  destruct (toFixed_digits n Hn) as (ip & f6 & Hip & Hf6 & Hne & Hlen & Hdi & Hdf & Hval).
  cbv zeta in Hip, Hf6.
  change (6 =? 0) with false. cbv iota. rewrite Hip, Hf6.
  exists ip, f6, n.
  split.
  { fold (signText s). now apply trim_fixed. }
  repeat split; try assumption.
  - apply (nearest_roundsTo num den 6 Hden).
  - apply (nearest_roundsTo num den 6 Hden).
Qed.

(** ** Integral numbers ([Number::toString]) *)

Lemma exponent_up_spec (fuel : nat) (num den n : Z) :
  0 < den -> 0 <= n ->
  num < den * 10 ^ (n + Z.of_nat fuel - 1) -> (0 < fuel)%nat ->
  let r := Num.exponent_up fuel num den n in
  n <= r /\ num < den * 10 ^ r /\ (r = n \/ den * 10 ^ (r - 1) <= num).
Proof.
  intros Hden. revert n. induction fuel as [|fuel IH]; intros n Hn Hbound Hfuel;
    [lia|].
  cbn [Num.exponent_up]. destruct (num <? den * 10 ^ n) eqn:Hlt.
  - apply Z.ltb_lt in Hlt. cbv zeta. split; [lia|]. split; [assumption|now left].
  - apply Z.ltb_ge in Hlt. destruct fuel as [|fuel].
    + exfalso. replace (n + Z.of_nat 1 - 1) with n in Hbound by lia. lia.
    + destruct (IH (n + 1) ltac:(lia)) as (Hle & Hup & Hlow); [|lia|].
      { replace (n + 1 + Z.of_nat (S fuel) - 1) with (n + Z.of_nat (S (S fuel)) - 1)
          by lia. assumption. }
      cbv zeta. split; [lia|]. split; [assumption|]. right.
      destruct Hlow as [-> | Hlow]; [|assumption].
      now replace (n + 1 - 1) with n by lia.
Qed.

Lemma pow2_le_pow10 (n : Z) : 0 <= n -> 2 ^ n <= 10 ^ n.
Proof. intros Hn. apply Z.pow_le_mono_l. lia. Qed.

(** The position of the decimal point of an integer of at least one. *)
Lemma dec_exponent_integer (m e M : Z) :
  0 < m -> 1 <= M -> M * Num.denom e = Num.numer m e ->
  let n0 := Num.dec_exponent m e in
  1 <= n0 /\ 10 ^ (n0 - 1) <= M < 10 ^ n0.
Proof.
  intros Hm HM Hvalue. unfold Num.dec_exponent.
  set (num := Num.numer m e) in *. set (den := Num.denom e) in *.
  assert (0 < den) as Hden by (subst den; unfold Num.denom; apply Z.pow_pos_nonneg; lia).
  assert (den <= num) as Hle by nia.
  replace (den <=? num) with true by (symmetry; now apply Z.leb_le).
  assert (0 < num) as Hnum by lia.
  destruct (exponent_up_spec (S (Z.to_nat (Z.log2 num))) num den 1 Hden ltac:(lia))
    as (H1 & Hup & Hlow); [|lia|].
  - rewrite Nat2Z.inj_succ, Z2Nat.id by apply Z.log2_nonneg.
    replace (1 + Z.succ (Z.log2 num) - 1) with (Z.succ (Z.log2 num)) by lia.
    pose proof (Z.log2_spec num Hnum) as [_ Hlog].
    pose proof (pow2_le_pow10 (Z.succ (Z.log2 num)) ltac:(pose proof (Z.log2_nonneg num); lia)).
    nia.
  - cbv zeta. set (r := Num.exponent_up _ num den 1) in *.
    split; [assumption|]. rewrite <- Hvalue in Hup, Hlow. split.
    + destruct Hlow as [-> | Hlow]; [simpl; lia|]. nia.
    + nia.
Qed.

Lemma in_interval_bounds (m e c j : Z) :
  Num.in_interval m e c j = true ->
  Num.bound_scaled e (Num.lower4 m e) j <= Num.cand_scaled e c j
  <= Num.bound_scaled e (Num.upper4 m) j.
Proof.
  unfold Num.in_interval. destruct (Z.even m); intros H;
    apply andb_true_iff in H as [Hlo Hhi].
  - apply Z.leb_le in Hlo, Hhi. lia.
  - apply Z.ltb_lt in Hlo, Hhi. lia.
Qed.

Lemma in_interval_inside (m e c j : Z) :
  Num.bound_scaled e (Num.lower4 m e) j < Num.cand_scaled e c j ->
  Num.cand_scaled e c j < Num.bound_scaled e (Num.upper4 m) j ->
  Num.in_interval m e c j = true.
Proof.
  intros Hlo Hhi. unfold Num.in_interval. destruct (Z.even m);
    apply andb_true_iff; split;
    try (apply Z.leb_le; lia); apply Z.ltb_lt; lia.
Qed.

Lemma lower4_bounds (m e : Z) : 4 * m - 2 <= Num.lower4 m e < 4 * m.
Proof. unfold Num.lower4. destruct (_ && _); lia. Qed.

Lemma bound_scaled_lt (e b1 b2 j : Z) :
  b1 < b2 -> Num.bound_scaled e b1 j < Num.bound_scaled e b2 j.
Proof.
  intros Hb. unfold Num.bound_scaled.
  apply Z.mul_lt_mono_pos_r; [apply Z.pow_pos_nonneg; lia|].
  apply Z.mul_lt_mono_pos_r; [apply Z.pow_pos_nonneg; lia|assumption].
Qed.

Lemma pow2_split (a b : Z) : 0 <= a -> 0 <= b -> 2 ^ (a + b) = 2 ^ a * 2 ^ b.
Proof. intros. now apply Z.pow_add_r. Qed.

(** The number itself, as a candidate with no digits after the point,
    is four times the mantissa in the units of the interval. *)
Lemma exact_candidate (m e M : Z) :
  M * Num.denom e = Num.numer m e ->
  Num.cand_scaled e M 0 = Num.bound_scaled e (4 * m) 0.
Proof.
  unfold Num.denom, Num.numer, Num.cand_scaled, Num.bound_scaled. intros Hvalue.
  change (Z.max 0 0) with 0. change (Z.max (- 0) 0) with 0.
  rewrite !Z.pow_0_r, !Z.mul_1_r.
  destruct (Z.le_gt_cases e 0) as [He|He].
  - replace (Z.max e 0) with 0 in Hvalue by lia.
    replace (Z.max (- e) 0) with (- e) in Hvalue by lia.
    replace (Z.max (e - 2) 0) with 0 by lia.
    replace (Z.max (2 - e) 0) with (2 + - e) by lia.
    rewrite pow2_split by lia. rewrite Z.pow_0_r in *.
    change (2 ^ 2) with 4. nia.
  - replace (Z.max e 0) with e in Hvalue by lia.
    replace (Z.max (- e) 0) with 0 in Hvalue by lia.
    rewrite Z.pow_0_r in Hvalue.
    destruct (Z.eq_dec e 1) as [->|Hne].
    + change (Z.max (1 - 2) 0) with 0. change (Z.max (2 - 1) 0) with 1.
      change (2 ^ 1) with 2 in *. rewrite Z.pow_0_r. lia.
    + replace (Z.max (e - 2) 0) with (e - 2) by lia.
      replace (Z.max (2 - e) 0) with 0 by lia.
      replace e with (2 + (e - 2)) in Hvalue by lia.
      rewrite pow2_split in Hvalue by lia. change (2 ^ 2) with 4 in Hvalue.
      rewrite Z.pow_0_r. nia.
Qed.

Lemma exact_candidate_in_interval (m e M : Z) :
  M * Num.denom e = Num.numer m e ->
  Num.in_interval m e M 0 = true.
Proof.
  intros Hvalue. pose proof (lower4_bounds m e).
  apply in_interval_inside; rewrite (exact_candidate m e M Hvalue);
    apply bound_scaled_lt; unfold Num.upper4; lia.
Qed.

Lemma floor_scaled_exact (m e M : Z) :
  0 < m -> M * Num.denom e = Num.numer m e -> Num.floor_scaled m e 0 = M.
Proof.
  intros Hm Hvalue. unfold Num.floor_scaled.
  change (Z.max (- 0) 0) with 0. change (Z.max 0 0) with 0.
  rewrite Z.pow_0_r, !Z.mul_1_r, <- Hvalue.
  apply Z.div_mul. unfold Num.denom.
  assert (0 < 2 ^ Z.max (- e) 0) by (apply Z.pow_pos_nonneg; lia). lia.
Qed.

Lemma nearer_cases (m e lo hi j : Z) :
  Num.nearer m e lo hi j = lo \/ Num.nearer m e lo hi j = hi.
Proof.
  unfold Num.nearer. destruct (_ <? _); [now left|].
  destruct (_ <? _); [now right|]. destruct (Z.even lo); auto.
Qed.

(** The search stops at the first number of digits at which a candidate
    reads back as the number, with such a candidate. *)
Lemma shortest_spec (fuel : nat) (m e n0 k K : Z) :
  k <= K -> K < k + Z.of_nat fuel ->
  Num.in_interval m e (Num.floor_scaled m e (n0 - K)) (n0 - K) = true ->
  exists sv k',
    Num.shortest fuel m e n0 k = (sv, k')
    /\ k <= k' <= K
    /\ Num.in_interval m e sv (n0 - k') = true
    /\ (sv = Num.floor_scaled m e (n0 - k')
        \/ sv = Num.floor_scaled m e (n0 - k') + 1).
Proof.
  revert k. induction fuel as [|fuel IH]; intros k HkK Hfuel HK; [lia|].
  cbn [Num.shortest]. cbv zeta.
  destruct (Num.in_interval m e (Num.floor_scaled m e (n0 - k)) (n0 - k)) eqn:Ha;
    destruct (Num.in_interval m e (Num.floor_scaled m e (n0 - k) + 1) (n0 - k)) eqn:Hb;
    cbn [andb].
  - destruct (nearer_cases m e (Num.floor_scaled m e (n0 - k))
                (Num.floor_scaled m e (n0 - k) + 1) (n0 - k)) as [-> | ->];
      do 2 eexists; (split; [reflexivity|]); (split; [lia|]); split; auto.
  - do 2 eexists. split; [reflexivity|]. split; [lia|]. split; auto.
  - do 2 eexists. split; [reflexivity|]. split; [lia|]. split; auto.
  - assert (k <> K) as Hne by (intros ->; congruence).
    destruct (IH (k + 1) ltac:(lia) ltac:(lia) HK) as (sv & k' & Heq & Hk' & Hin & Hsv).
    exists sv, k'. split; [assumption|]. split; [lia|]. split; assumption.
Qed.

Lemma digits_fuel_enough (f f' : nat) (v : Z) :
  0 <= v < 2 ^ Z.of_nat f -> v < 2 ^ Z.of_nat f' -> (0 < f)%nat -> (0 < f')%nat ->
  Num.digits_fuel f v = Num.digits_fuel f' v.
Proof.
  revert f' v. induction f as [|f IH]; intros f' v Hv Hv' Hf Hf'; [lia|].
  destruct f' as [|f']; [lia|]. cbn [Num.digits_fuel].
  destruct (v <? 10) eqn:Hlt; [reflexivity|]. apply Z.ltb_ge in Hlt.
  rewrite !Nat2Z.inj_succ, !Z.pow_succ_r in * by lia.
  assert (0 <= v / 10 < 2 ^ Z.of_nat f) as Hq.
  { split; [apply Z.div_pos; lia|]. apply Z.div_lt_upper_bound; lia. }
  assert (v / 10 < 2 ^ Z.of_nat f') as Hq' by (apply Z.div_lt_upper_bound; lia).
  assert (1 <= v / 10) as Hq1 by (apply Z.div_le_lower_bound; lia).
  f_equal. apply IH; try assumption.
  - destruct f; [simpl in Hq; lia|lia].
  - destruct f'; [simpl in Hq'; lia|lia].
Qed.

Lemma digits_tenfold (v : Z) : 0 < v -> Num.digits (10 * v) = Num.digits v ++ "0".
Proof.
  intros Hv. unfold Num.digits at 1. cbn [Num.digits_fuel].
  replace (10 * v <? 10) with false by (symmetry; apply Z.ltb_ge; lia).
  replace (10 * v / 10) with v by (symmetry; rewrite Z.mul_comm; apply Z.div_mul; lia).
  replace ((10 * v) mod 10) with 0
    by (symmetry; rewrite Z.mul_comm; apply Z.mod_mul; lia).
  f_equal. unfold Num.digits.
  pose proof (Z.log2_spec v Hv) as [Hlo Hhi].
  pose proof (Z.log2_nonneg v) as Hnn.
  assert (Z.log2 v + 3 <= Z.log2 (10 * v)) as Hlog.
  { apply Z.log2_le_pow2; [lia|].
    rewrite Z.pow_add_r by lia. change (2 ^ 3) with 8. lia. }
  apply digits_fuel_enough.
  - split; [lia|]. rewrite Z2Nat.id by lia.
    eapply Z.lt_le_trans; [exact Hhi|]. apply Z.pow_le_mono_r; lia.
  - rewrite Nat2Z.inj_succ, Z2Nat.id by lia. exact Hhi.
  - lia.
  - lia.
Qed.

Lemma digits_pow10 (v : Z) (j : nat) :
  0 < v -> Num.digits (v * 10 ^ Z.of_nat j) = Num.digits v ++ Num.zeros j.
Proof.
  intros Hv. induction j as [|j IH].
  - simpl. rewrite Z.mul_1_r. now rewrite str_app_nil_r.
  - rewrite Nat2Z.inj_succ, Z.pow_succ_r by lia.
    replace (v * (10 * 10 ^ Z.of_nat j)) with (10 * (v * 10 ^ Z.of_nat j)) by lia.
    rewrite digits_tenfold by (apply Z.mul_pos_pos; [lia|apply Z.pow_pos_nonneg; lia]).
    rewrite IH, str_app_assoc. f_equal.
    clear. induction j; simpl; [reflexivity|]. now rewrite IHj.
Qed.

(** A binary64 integer below [10^21] is not so near to it that [10^21]
    would read back as that integer. *)
Lemma no_carry_at_21 (s : bool) (m : positive) (e M : Z) :
  Num.is_double (S754_finite s m e) = true ->
  M * Num.denom e = Num.numer (Z.pos m) e -> M < 10 ^ 21 ->
  ~ 10 ^ 21 * 2 ^ Z.max (2 - e) 0 <= (4 * Z.pos m + 2) * 2 ^ Z.max (e - 2) 0.
Proof.
  intros Hdouble Hvalue HM Hle.
  apply is_double_finite in Hdouble as (Hm & He & Hnorm).
  unfold Num.denom, Num.numer in Hvalue.
  destruct (Z.le_gt_cases e 0) as [He0|He0].
  - replace (Z.max e 0) with 0 in Hvalue by lia.
    replace (Z.max (- e) 0) with (- e) in Hvalue by lia.
    replace (Z.max (e - 2) 0) with 0 in Hle by lia.
    replace (Z.max (2 - e) 0) with (2 + - e) in Hle by lia.
    rewrite pow2_split in Hle by lia. rewrite Z.pow_0_r in *.
    change (2 ^ 2) with 4 in Hle.
    assert (0 < 2 ^ (- e)) by (apply Z.pow_pos_nonneg; lia). nia.
  - replace (Z.max e 0) with e in Hvalue by lia.
    replace (Z.max (- e) 0) with 0 in Hvalue by lia.
    rewrite Z.pow_0_r in Hvalue.
    destruct (Z.eq_dec e 1) as [->|Hne].
    + change (Z.max (1 - 2) 0) with 0 in Hle. change (Z.max (2 - 1) 0) with 1 in Hle.
      change (2 ^ 1) with 2 in *. rewrite Z.pow_0_r in Hle.
      change (10 ^ 21) with 1000000000000000000000 in *. lia.
    + replace (Z.max (e - 2) 0) with (e - 2) in Hle by lia.
      replace (Z.max (2 - e) 0) with 0 in Hle by lia.
      rewrite Z.pow_0_r in Hle.
      replace e with (2 + (e - 2)) in Hvalue by lia.
      rewrite pow2_split in Hvalue by lia. change (2 ^ 2) with 4 in Hvalue.
      assert (0 < 2 ^ (e - 2)) as Hq by (apply Z.pow_pos_nonneg; lia).
      destruct (Z.le_gt_cases e 21) as [He21|He21].
      * assert (10 ^ 21 = 4 * 2 ^ (e - 2) * (2 ^ (21 - e) * 5 ^ 21)) as Hten.
        { replace (4 * 2 ^ (e - 2) * (2 ^ (21 - e) * 5 ^ 21))
            with (2 ^ 2 * 2 ^ (e - 2) * 2 ^ (21 - e) * 5 ^ 21) by (change (2 ^ 2) with 4; lia).
          rewrite <- !Z.pow_add_r by lia.
          replace (2 + (e - 2) + (21 - e)) with 21 by lia. reflexivity. }
        set (q := 2 ^ (e - 2)) in *. set (c := 2 ^ (21 - e) * 5 ^ 21) in *.
        rewrite Hten in HM, Hle. nia.
      * specialize (Hnorm ltac:(lia)).
        assert (2 ^ 20 <= 2 ^ (e - 2)) as Hpow by (apply Z.pow_le_mono_r; lia).
        assert (2 ^ 52 * (4 * 2 ^ 20) <= M) as HM' by nia.
        assert (10 ^ 21 < 2 ^ 52 * (4 * 2 ^ 20)) by reflexivity. lia.
Qed.

(** For an integer below [2^53], the only integer that reads back as it
    is the integer itself. *)
Lemma safe_integer_exact (s : bool) (m : positive) (e M V j : Z) :
  Num.is_double (S754_finite s m e) = true ->
  M * Num.denom e = Num.numer (Z.pos m) e -> M < 2 ^ 53 ->
  0 <= j ->
  Num.in_interval (Z.pos m) e V j = true ->
  V * 10 ^ j = M.
Proof.
  intros Hdouble Hvalue HM Hj Hin.
  apply is_double_finite in Hdouble as (Hm & He & Hnorm).
  apply in_interval_bounds in Hin as [Hlo Hhi].
  pose proof (lower4_bounds (Z.pos m) e) as [Hl4 _].
  unfold Num.denom, Num.numer in Hvalue.
  unfold Num.cand_scaled, Num.bound_scaled, Num.upper4 in *.
  replace (Z.max j 0) with j in * by lia.
  replace (Z.max (- j) 0) with 0 in * by lia.
  rewrite Z.pow_0_r, Z.mul_1_r in *.
  assert (e <= 0) as He0.
  { destruct (Z.le_gt_cases e 0) as [H|H]; [assumption|exfalso].
    specialize (Hnorm ltac:(lia)).
    replace (Z.max e 0) with e in Hvalue by lia.
    replace (Z.max (- e) 0) with 0 in Hvalue by lia.
    rewrite Z.pow_0_r in Hvalue.
    assert (2 ^ 1 <= 2 ^ e) by (apply Z.pow_le_mono_r; lia).
    change (2 ^ 1) with 2 in *. change (2 ^ 53) with (2 ^ 52 * 2) in HM. nia. }
  replace (Z.max e 0) with 0 in Hvalue by lia.
  replace (Z.max (- e) 0) with (- e) in Hvalue by lia.
  replace (Z.max (e - 2) 0) with 0 in * by lia.
  replace (Z.max (2 - e) 0) with (2 + - e) in * by lia.
  rewrite pow2_split in * by lia. rewrite Z.pow_0_r in *.
  change (2 ^ 2) with 4 in *.
  assert (0 < 2 ^ (- e)) by (apply Z.pow_pos_nonneg; lia).
  set (d := 2 ^ (- e)) in *. set (W := V * 10 ^ j) in *. nia.
Qed.

Lemma toString_pos_integer (s : bool) (m : positive) (e M : Z) :
  Num.is_double (S754_finite s m e) = true ->
  1 <= M < 10 ^ 21 ->
  M * Num.denom e = Num.numer (Z.pos m) e ->
  Num.toString_pos (Z.pos m) e <> ""
  /\ str_forall Regex.is_digit (Num.toString_pos (Z.pos m) e) = true
  /\ (M < 2 ^ 53 -> Num.toString_pos (Z.pos m) e = Num.digits M).
Proof.
  intros Hdouble [HM1 HM] Hvalue.
  destruct (dec_exponent_integer (Z.pos m) e M ltac:(lia) HM1 Hvalue)
    as (Hn1 & Hnlo & Hnhi).
  set (n0 := Num.dec_exponent (Z.pos m) e) in *.
  assert (n0 <= 21) as Hn21.
  { destruct (Z.le_gt_cases n0 21) as [H|H]; [assumption|exfalso].
    assert (10 ^ 21 <= 10 ^ (n0 - 1)) by (apply Z.pow_le_mono_r; lia). lia. }
  set (fuel := Z.to_nat (Z.max n0 0 + Z.max (- e) 0)).
  destruct (shortest_spec fuel (Z.pos m) e n0 1 n0) as (sv & k & Heq & Hk & Hin & Hsv).
  { lia. }
  { subst fuel. lia. }
  { replace (n0 - n0) with 0 by lia.
    rewrite (floor_scaled_exact (Z.pos m) e M) by (lia || assumption).
    now apply exact_candidate_in_interval. }
  unfold Num.toString_pos, Num.shortest_digits. fold n0. fold fuel. rewrite Heq.
  assert (0 <= n0 - k) as Hj by lia.
  destruct (sv =? 10 ^ k) eqn:Hcarry.
  - apply Z.eqb_eq in Hcarry.
    assert (sv * 10 ^ (n0 - k) = 10 ^ n0) as Hten.
    { rewrite Hcarry, <- Z.pow_add_r by lia. f_equal. lia. }
    assert (n0 <= 20) as Hn20.
    { destruct (Z.le_gt_cases n0 20) as [H|H]; [assumption|exfalso].
      assert (n0 = 21) as Hn0 by lia.
      apply (no_carry_at_21 s m e M Hdouble Hvalue HM).
      apply in_interval_bounds in Hin as [_ Hhi].
      unfold Num.cand_scaled, Num.bound_scaled, Num.upper4 in Hhi.
      replace (Z.max (n0 - k) 0) with (n0 - k) in Hhi by lia.
      replace (Z.max (- (n0 - k)) 0) with 0 in Hhi by lia.
      rewrite Hten, Hn0, Z.pow_0_r, Z.mul_1_r in Hhi. exact Hhi. }
    replace ((1 <=? n0 + 1) && (n0 + 1 <=? 21)) with true
      by (symmetry; apply andb_true_iff; split; apply Z.leb_le; lia).
    split; [discriminate|]. split.
    + rewrite str_forall_app, zeros_all_digits. reflexivity.
    + intros Hsafe. exfalso.
      pose proof (safe_integer_exact s m e M sv (n0 - k) Hdouble Hvalue Hsafe Hj Hin).
      lia.
  - apply Z.eqb_neq in Hcarry.
    replace ((k <=? n0) && (n0 <=? 21)) with true
      by (symmetry; apply andb_true_iff; split; apply Z.leb_le; lia).
    split.
    + pose proof (digits_nonempty sv). destruct (Num.digits sv); [contradiction|discriminate].
    + split.
      * rewrite str_forall_app, zeros_all_digits, digits_all_digits. reflexivity.
      * intros Hsafe.
        pose proof (safe_integer_exact s m e M sv (n0 - k) Hdouble Hvalue Hsafe Hj Hin)
          as Hexact.
        assert (0 < 10 ^ (n0 - k)) by (apply Z.pow_pos_nonneg; lia).
        assert (0 < sv) as Hsv0 by nia.
        rewrite <- Hexact. rewrite <- (Z2Nat.id (n0 - k)) at 2 by lia.
        symmetry. now apply digits_pow10.
Qed.

Lemma formatIfcValue_integer_digits (x : Num.number) :
  Num.is_double x = true -> Num.isInteger x = true ->
  Num.magnitude x < 10 ^ 21 ->
  exists body,
    formatIfcValue (VNum x) = signText (Num.is_negative x) ++ body
    /\ body <> "" /\ str_forall Regex.is_digit body = true
    /\ (Num.magnitude x < 2 ^ 53 -> body = Num.digits (Num.magnitude x)).
Proof.
  intros Hdouble Hint Hmag. unfold formatIfcValue. rewrite Hint.
  destruct x as [s0|s0| |s0 m e]; try discriminate.
  - exists "0". repeat split; discriminate.
  - cbn [Num.toString Num.is_negative].
    unfold Num.isInteger in Hint. apply Z.eqb_eq in Hint.
    cbn [Num.magnitude] in Hmag.
    set (M := Num.numer (Z.pos m) e / Num.denom e) in *.
    assert (0 < Num.denom e) as Hden
      by (unfold Num.denom; apply Z.pow_pos_nonneg; lia).
    assert (M * Num.denom e = Num.numer (Z.pos m) e) as Hvalue.
    { subst M. pose proof (Z.div_mod (Num.numer (Z.pos m) e) (Num.denom e)). lia. }
    assert (0 < Num.numer (Z.pos m) e) as Hnum.
    { unfold Num.numer. apply Z.mul_pos_pos; [lia|apply Z.pow_pos_nonneg; lia]. }
    assert (1 <= M) as HM1 by nia.
    destruct (toString_pos_integer s0 m e M Hdouble (conj HM1 Hmag) Hvalue)
      as (Hne & Hdigits & Hsafe).
    exists (Num.toString_pos (Z.pos m) e). cbn [Num.magnitude]. fold M.
    unfold signText. repeat split; assumption.
Qed.



(** The text of an express id is the text [String] gives the number:
    for an integral binary64 number of magnitude below [2^53],
    [Number::toString] is [int_toString] of its value. *)
Lemma toString_int_toString (s : bool) (m : positive) (e : Z) :
  Num.is_double (S754_finite s m e) = true ->
  Num.isInteger (S754_finite s m e) = true ->
  Num.magnitude (S754_finite s m e) < 2 ^ 53 ->
  Num.toString (S754_finite s m e)
  = int_toString (if s then - Num.magnitude (S754_finite s m e)
                  else Num.magnitude (S754_finite s m e)).
Proof.
  intros Hdouble Hint Hmag.
  destruct formatIfcValue_integer_digits with (x := S754_finite s m e)
    as (body & Heq & _ & _ & Hsafe); try assumption.
  { assert (2 ^ 53 < 10 ^ 21) by reflexivity. lia. }
  unfold formatIfcValue in Heq. rewrite Hint in Heq. rewrite Heq, (Hsafe Hmag).
  cbn [Num.is_negative]. unfold int_toString, signText.
  set (M := Num.magnitude (S754_finite s m e)) in *.
  assert (1 <= M) as HM.
  { subst M. cbn [Num.magnitude]. unfold Num.isInteger in Hint.
    apply Z.eqb_eq in Hint.
    assert (0 < Num.denom e) by (unfold Num.denom; apply Z.pow_pos_nonneg; lia).
    assert (0 < Num.numer (Z.pos m) e)
      by (unfold Num.numer; apply Z.mul_pos_pos; [lia|apply Z.pow_pos_nonneg; lia]).
    pose proof (Z.div_mod (Num.numer (Z.pos m) e) (Num.denom e)). nia. }
  destruct s.
  - replace (- M <? 0) with true by (symmetry; apply Z.ltb_lt; lia).
    now rewrite Z.abs_opp, Z.abs_eq by lia.
  - replace (M <? 0) with false by (symmetry; apply Z.ltb_ge; lia).
    now rewrite Z.abs_eq by lia.
Qed.

(** ** The examples of the specification *)

Example format_null : formatIfcValue VNull = "$".
Proof. reflexivity. Qed.

Example format_true : formatIfcValue (VBool true) = ".T.".
Proof. reflexivity. Qed.

Example format_false : formatIfcValue (VBool false) = ".F.".
Proof. reflexivity. Qed.

Example format_42 : formatIfcValue (VNum Sample.fortyTwo) = "42".
Proof. vm_compute. reflexivity. Qed.

Example format_3_14 : formatIfcValue (VNum Sample.pi314) = "3.14".
Proof. vm_compute. reflexivity. Qed.

Example format_quote : formatIfcValue (VStr "it's") = "'it''s'".
Proof. reflexivity. Qed.

Example format_1e21 :
  formatIfcValue (VNum (S754_finite false 7629394531250000 17)) = "1e+21".
Proof. vm_compute. reflexivity. Qed.

Example rebuild_well_formed_line :
  rebuildPropertyLine "#5=IFCPROPERTYSINGLEVALUE('Name',$,IFCLABEL('value'),$);" "'x'"
  = None.
Proof. vm_compute. reflexivity. Qed.

Example rebuild_open_line :
  rebuildPropertyLine "#7=IFCPROPERTYSINGLEVALUE('Ref',$,IFCLABEL('A');" "'B'"
  = Some "#7=IFCPROPERTYSINGLEVALUE('Ref',$,IFCLABEL('B');".
Proof. vm_compute. reflexivity. Qed.

Example patch_sample_line :
  tryPatchExport Sample.line [ Sample.patch ]
  = Some "#7=IFCPROPERTYSINGLEVALUE('Ref',$,IFCLABEL('B'),$);".
Proof. vm_compute. reflexivity. Qed.

Example exists_on_no_psets :
  List.map issue_issueType
    (checkElement Sample.noNumber Sample.noRegExp Sample.element
       (Sample.rule "R1" "FireRating"))
  = [ MissingParam ].
Proof. reflexivity. Qed.

(** ** The header when it holds no dollar sign ([rewriteExport]) *)

Lemma str_forall_no_char (c : ascii) (s : string) :
  ~ Contains (String c "") s ->
  str_forall (fun x => negb (Ascii.eqb x c)) s = true.
Proof.
  induction s as [|d s IH]; intros Hno; [reflexivity|].
  cbn [str_forall]. apply andb_true_iff. split.
  - apply negb_true_iff. destruct (Ascii.eqb d c) eqn:Hd; [|reflexivity].
    apply Ascii.eqb_eq in Hd. subst d. exfalso. apply Hno.
    exists O, "", s. now split.
  - apply IH. intros (i & a & b & -> & Hlen). apply Hno.
    exists (S i), (String d a), b. split; [reflexivity|simpl; now rewrite Hlen].
Qed.

Lemma getSubstitution_plain (matched before after repl : string) :
  ~ Contains "$" repl ->
  Js.getSubstitution matched before after repl = repl.
Proof.
  intros Hno. apply (str_forall_no_char "$") in Hno.
  induction repl as [|c repl IH]; [reflexivity|].
  cbn [str_forall] in Hno. apply andb_true_iff in Hno as [Hc Hrest].
  apply negb_true_iff in Hc. cbn [Js.getSubstitution]. unfold Js.dollar.
  rewrite Hc. now rewrite IH.
Qed.

Lemma occurs_extend (pat a b : string) (j : nat) :
  Occurs pat a j -> Occurs pat (a ++ b) j.
Proof.
  intros (x & y & -> & Hlen). exists x, (y ++ b). split; [|assumption].
  now rewrite !str_app_assoc.
Qed.

Lemma occurs_prefix (pat a b : string) (j : nat) :
  Occurs pat (a ++ b) j -> (j + String.length pat <= String.length a)%nat ->
  Occurs pat a j.
Proof.
  intros (x & y & Heq & Hlen) Hj.
  symmetry in Heq.
  destruct (str_app_split x (pat ++ y) a b Heq ltac:(lia)) as (m & Ha & Hm).
  destruct (str_app_split pat y m b Hm) as (m' & Hm' & _).
  { apply (f_equal String.length) in Ha. rewrite str_length_app in Ha. lia. }
  exists x, m'. split; [|assumption]. now rewrite Ha, Hm'.
Qed.

Lemma occurs_of_prefix (p q s : string) (j : nat) :
  Occurs (p ++ q) s j -> Occurs p s j.
Proof.
  intros (x & y & -> & Hlen). exists x, (q ++ y). split; [|assumption].
  now rewrite !str_app_assoc.
Qed.

Lemma extractHeaderSection_offsets (text : string) :
  extractHeaderSection text
  = match Js.find "HEADER;" text with
    | None => ""
    | Some hs =>
        match Js.find "ENDSEC;" (Js.str_drop hs text) with
        | None => ""
        | Some i => Js.str_take (i + 7) (Js.str_drop hs text)
        end
    end.
Proof.
  unfold extractHeaderSection. rewrite indexOf_find.
  destruct (Js.find "HEADER;" text) as [hs|] eqn:Hhs.
  - pose proof (find_bound _ _ _ Hhs) as Hb.
    replace (Z.of_nat hs =? -1) with false by (symmetry; apply Z.eqb_neq; lia).
    rewrite indexOf_from_find by lia.
    destruct (Js.find "ENDSEC;" (Js.str_drop hs text)) as [i|] eqn:Hi.
    + pose proof (find_bound _ _ _ Hi) as Hb'. rewrite str_length_drop in Hb'.
      simpl in Hb'.
      replace (Z.of_nat (hs + i) =? -1) with false by (symmetry; apply Z.eqb_neq; lia).
      cbn [orb].
      replace (Z.of_nat (hs + i) + 7) with (Z.of_nat (hs + i + 7)) by lia.
      rewrite substring_take_drop by (simpl; lia).
      f_equal. lia.
    + reflexivity.
  - reflexivity.
Qed.

Lemma extractHeaderSection_shaped (text : string) :
  extractHeaderSection text <> "" ->
  exists body, headerShaped (extractHeaderSection text) body.
Proof.
  rewrite extractHeaderSection_offsets.
  destruct (Js.find "HEADER;" text) as [hs|] eqn:Hhs; [|contradiction].
  destruct (Js.find "ENDSEC;" (Js.str_drop hs text)) as [i|] eqn:Hi; [|contradiction].
  intros _.
  destruct (find_FirstAt_take _ _ _ Hhs) as [[Htext _] Hlen].
  destruct (find_FirstAt_take _ _ _ Hi) as [[Hdrop Hfirst] Hlen'].
  set (D := Js.str_drop hs text) in *.
  set (X := Js.str_take i D) in *.
  assert (Js.str_take (i + 7) D = X ++ "ENDSEC;") as HH.
  { rewrite Hdrop at 1. rewrite <- Hlen' at 1.
    rewrite str_take_app_plus. f_equal. }
  exists X. split.
  - assert (D = "HEADER;" ++ Js.str_drop (hs + 7) text) as HD.
    { subst D. rewrite Htext at 1. rewrite <- Hlen at 1. apply str_drop_app. }
    exists (Js.str_drop 7 (Js.str_take (i + 7) D)).
    rewrite <- (str_take_drop 7 (Js.str_take (i + 7) D)) at 1. f_equal.
    rewrite HD. replace (i + 7)%nat with (String.length "HEADER;" + i)%nat
      by (simpl; lia).
    rewrite str_take_app_plus.
    change 7%nat with (String.length "HEADER;") at 1. apply str_take_app.
  - rewrite HH. split; [reflexivity|].
    intros j Hj Hocc. apply (Hfirst j Hj).
    rewrite Hdrop. fold X.
    replace (X ++ "ENDSEC;" ++ Js.str_drop (i + String.length "ENDSEC;") D)
      with ((X ++ "ENDSEC;") ++ Js.str_drop (i + String.length "ENDSEC;") D)
      by (now rewrite str_app_assoc).
    now apply occurs_extend.
Qed.

(** A header section put after a text that leads to no earlier
    [HEADER;] is the header section of the whole. *)
Lemma extractHeaderSection_inserted (pre header body post : string) :
  headerShaped header body ->
  (forall j, (j < String.length pre)%nat -> ~ Occurs "HEADER;" (pre ++ "HEADER;") j) ->
  extractHeaderSection (pre ++ header ++ post) = header.
Proof.
  intros [[rest Hrest] [Hbody Hfirst]] Hpre.
  rewrite extractHeaderSection_offsets.
  assert (Js.find "HEADER;" (pre ++ header ++ post) = Some (String.length pre)) as ->.
  { apply find_Some_iff. split.
    - exists pre, (rest ++ post). split; [|reflexivity].
      rewrite Hrest. now rewrite !str_app_assoc.
    - intros j Hj Hocc. apply (Hpre j Hj).
      apply (occurs_prefix _ _ (rest ++ post)).
      + rewrite Hrest in Hocc. now rewrite !str_app_assoc in *.
      + rewrite str_length_app. simpl. lia. }
  rewrite str_drop_app.
  assert (String.length header = (String.length body + 7)%nat) as Hlen.
  { rewrite Hbody at 1. rewrite str_length_app. reflexivity. }
  assert (Js.find "ENDSEC;" (header ++ post) = Some (String.length body)) as ->.
  { apply find_Some_iff. split.
    - exists body, post. split; [|reflexivity].
      rewrite Hbody at 1. now rewrite !str_app_assoc.
    - intros j Hj Hocc. apply (Hfirst j Hj).
      apply (occurs_prefix _ _ post); [assumption|]. simpl. lia. }
  rewrite <- Hlen. apply str_take_app.
Qed.

(** When the original text has a header section and this holds no
    dollar sign, the rewrite keeps it byte for byte, whatever the
    patches do. *)
Lemma rewriteExport_header_kept (text : string) (patches : list PatchEntry) :
  extractHeaderSection text <> "" ->
  ~ Contains "$" (extractHeaderSection text) ->
  extractHeaderSection (rewriteExport text patches) = extractHeaderSection text.
Proof.
  intros Hne Hplain. unfold rewriteExport.
  set (header := extractHeaderSection text) in *.
  set (result := fold_left rewriteStep patches text).
  destruct (String.eqb (extractHeaderSection result) header) eqn:Hsame; cbn [negb].
  { now apply String.eqb_eq in Hsame. }
  destruct (extractHeaderSection_shaped text Hne) as [body Hshape]. fold header in Hshape.
  unfold Js.replace.
  pose proof (extractHeaderSection_offsets result) as Hoff.
  destruct (Js.find "HEADER;" result) as [hs|] eqn:Hhs.
  - destruct (Js.find "ENDSEC;" (Js.str_drop hs result)) as [i|] eqn:Hi.
    + assert (extractHeaderSection result <> "") as Hne'.
      { rewrite Hoff. intros Hnil. apply (f_equal String.length) in Hnil.
        rewrite str_length_take, str_length_drop in Hnil.
        pose proof (find_bound _ _ _ Hi) as Hb. rewrite str_length_drop in Hb.
        simpl in Hb, Hnil. lia. }
      destruct (extractHeaderSection_shaped result Hne') as [body' [[rest' Hrest'] _]].
      assert (Js.str_drop hs result
              = extractHeaderSection result ++ Js.str_drop (i + 7) (Js.str_drop hs result))
        as Hdrop by (rewrite Hoff; symmetry; apply str_take_drop).
      assert (String.length (Js.str_take hs result) = hs) as Hlen.
      { rewrite str_length_take. pose proof (find_bound _ _ _ Hhs). lia. }
      assert (Js.find (extractHeaderSection result) result = Some hs) as ->.
      { apply find_Some_iff. split.
        - exists (Js.str_take hs result),
            (Js.str_drop (i + 7) (Js.str_drop hs result)).
          split; [|assumption]. rewrite <- Hdrop. symmetry. apply str_take_drop.
        - intros j Hj Hocc. rewrite Hrest' in Hocc.
          apply occurs_of_prefix in Hocc.
          now apply (find_least _ _ _ j Hhs Hj). }
      rewrite getSubstitution_plain by assumption.
      apply (extractHeaderSection_inserted _ _ body); [assumption|].
      intros j Hj Hocc. rewrite Hlen in Hj.
      apply (find_least _ _ _ j Hhs Hj).
      destruct (find_FirstAt_take _ _ _ Hhs) as [[Hres _] _].
      rewrite Hres.
      replace (Js.str_take hs result ++ "HEADER;" ++ Js.str_drop (hs + String.length "HEADER;") result)
        with ((Js.str_take hs result ++ "HEADER;") ++ Js.str_drop (hs + String.length "HEADER;") result)
        by (now rewrite str_app_assoc).
      now apply occurs_extend.
    + rewrite Hoff.
      assert (Js.find "" result = Some O) as -> by (destruct result; reflexivity).
      rewrite getSubstitution_plain by assumption.
      cbn [Js.str_take Js.str_drop String.length Nat.add String.append].
      apply (extractHeaderSection_inserted "" header body result Hshape).
      intros j Hj. simpl in Hj. lia.
  - rewrite Hoff.
    assert (Js.find "" result = Some O) as -> by (destruct result; reflexivity).
    rewrite getSubstitution_plain by assumption.
    cbn [Js.str_take Js.str_drop String.length Nat.add String.append].
    apply (extractHeaderSection_inserted "" header body result Hshape).
    intros j Hj. simpl in Hj. lia.
Qed.

(** ** Further facts on lists *)

Lemma update_first_twice {A : Type} (p : A -> bool) (f g : A -> A) (l : list A) :
  (forall x, p x = true -> p (f x) = true) ->
  update_first p g (update_first p f l) = update_first p (fun x => g (f x)) l.
Proof.
  intros Hf. induction l as [|a l IH]; simpl; [reflexivity|].
  destruct (p a) eqn:Hpa; simpl.
  - now rewrite (Hf a Hpa).
  - now rewrite Hpa, IH.
Qed.

Lemma update_first_ext {A : Type} (p : A -> bool) (f g : A -> A) (l : list A) :
  (forall x, f x = g x) -> update_first p f l = update_first p g l.
Proof.
  intros Hfg. induction l as [|a l IH]; simpl; [reflexivity|].
  destruct (p a); [now rewrite Hfg | now rewrite IH].
Qed.

Lemma find_update_other {A : Type} (p q : A -> bool) (f : A -> A) (l : list A) :
  (forall x, q (f x) = q x) ->
  (forall x, p x = true -> q x = false) ->
  List.find q (update_first p f l) = List.find q l.
Proof.
  intros Hq Hpq. induction l as [|a l IH]; simpl; [reflexivity|].
  destruct (p a) eqn:Hpa; simpl.
  - now rewrite Hq, (Hpq a Hpa).
  - now rewrite IH.
Qed.

Lemma map_update_first {A B : Type} (h : A -> B) (p : A -> bool) (f : A -> A)
  (l : list A) :
  (forall x, h (f x) = h x) -> List.map h (update_first p f l) = List.map h l.
Proof.
  intros Hh. induction l as [|a l IH]; simpl; [reflexivity|].
  destruct (p a); simpl; [now rewrite Hh | now rewrite IH].
Qed.

Lemma lastItem_push {A : Type} (l : list A) (x : A) : lastItem (push l x) = Some x.
Proof.
  unfold push. induction l as [|a l IH]; simpl; [reflexivity|].
  rewrite IH. destruct (l ++ [x])%list eqn:E; [|reflexivity].
  now destruct l.
Qed.

Lemma removelast_push {A : Type} (l : list A) (x : A) : removelast (push l x) = l.
Proof. unfold push. apply removelast_last. Qed.

Lemma lastItem_Some {A : Type} (l : list A) (x : A) :
  lastItem l = Some x -> l = push (removelast l) x.
Proof.
  unfold push. induction l as [|a l IH]; simpl; [discriminate|].
  destruct l as [|b l]; [intros [= ->]; reflexivity|].
  intros H. change (a :: b :: l = a :: (removelast (b :: l) ++ [x])%list).
  f_equal. apply IH. exact H.
Qed.

(** ** The model store under edits ([updatePropertyValue]) *)

Lemma updatePropertyValue_missing st elementID psetName propertyName value :
  lookupProperty st elementID psetName propertyName = None ->
  updatePropertyValue st elementID psetName propertyName value = st.
Proof.
  unfold lookupProperty, updatePropertyValue.
  destruct (List.find (hasKey elementID) (elements st)) as [[k el]|]; [|reflexivity].
  destruct (List.find (psetNamed psetName) (el_psets el)) as [pset|]; [|reflexivity].
  now intros ->.
Qed.

Lemma updatePropertyValue_twice st elementID psetName propertyName v1 v2 :
  updatePropertyValue (updatePropertyValue st elementID psetName propertyName v1)
    elementID psetName propertyName v2
  = updatePropertyValue st elementID psetName propertyName v2.
Proof.
  destruct (lookupProperty st elementID psetName propertyName) as [prop|] eqn:Hlook.
  2:{ now rewrite !(updatePropertyValue_missing _ _ _ _ _ Hlook). }
  revert Hlook. unfold lookupProperty. unfold updatePropertyValue at 2 3.
  destruct (List.find (hasKey elementID) (elements st)) as [[k el]|] eqn:Hel;
    [|discriminate].
  destruct (List.find (psetNamed psetName) (el_psets el)) as [pset|] eqn:Hpset;
    [|discriminate].
  intros Hp. rewrite Hp.
  unfold updatePropertyValue. cbn [elements originalIfcText].
  rewrite find_update_first by (intros x Hx; exact Hx). rewrite Hel.
  cbn [option_map fst snd setPsets el_psets].
  rewrite find_update_first by (intros x Hx; exact Hx). rewrite Hpset.
  cbn [option_map setProperties pset_properties].
  rewrite find_update_first by (intros x Hx; exact Hx). rewrite Hp.
  cbn [option_map]. f_equal.
  rewrite update_first_twice by (intros x Hx; exact Hx).
  apply update_first_ext. intros [k' el']. cbn [fst snd]. f_equal.
  unfold setPsets. cbn. f_equal.
  rewrite update_first_twice by (intros x Hx; exact Hx).
  apply update_first_ext. intros ps. unfold setProperties. cbn. f_equal.
  rewrite update_first_twice by (intros x Hx; exact Hx).
  apply update_first_ext. intros p. reflexivity.
Qed.

Lemma map_flat_map_comm {A B C : Type} (h : B -> C) (g : A -> list B) (l : list A) :
  List.map h (List.flat_map g l) = List.flat_map (fun x => List.map h (g x)) l.
Proof.
  induction l as [|a l IH]; simpl; [reflexivity|].
  now rewrite map_app, IH.
Qed.

Lemma flat_map_update_found {A B : Type} (h : A -> list B) (p : A -> bool)
  (f : A -> A) (l : list A) (a : A) :
  List.find p l = Some a -> h (f a) = h a ->
  List.flat_map h (update_first p f l) = List.flat_map h l.
Proof.
  intros Hfind Hh. induction l as [|x l IH]; simpl in *; [reflexivity|].
  destruct (p x) eqn:Hpx; simpl.
  - injection Hfind as ->. now rewrite Hh.
  - now rewrite IH.
Qed.

Lemma propertiesOf_update_map {B : Type} (h : Property -> B) st elementID psetName
  propertyName value :
  (forall p, h (setValue value p) = h p) ->
  List.map h (propertiesOf (updatePropertyValue st elementID psetName propertyName value))
  = List.map h (propertiesOf st).
Proof.
  intros Hh. unfold updatePropertyValue.
  destruct (List.find (hasKey elementID) (elements st)) as [[k el]|] eqn:Hel;
    [|reflexivity].
  destruct (List.find (psetNamed psetName) (el_psets el)) as [pset|] eqn:Hpset;
    [|reflexivity].
  destruct (List.find (propNamed propertyName) (pset_properties pset)) as [p0|] eqn:Hp;
    [|reflexivity].
  unfold propertiesOf. cbn [elements].
  rewrite !map_flat_map_comm.
  apply (flat_map_update_found _ _ _ _ _ Hel). cbn [fst snd setPsets el_psets].
  rewrite !map_flat_map_comm.
  apply (flat_map_update_found _ _ _ _ _ Hpset). cbn [setProperties pset_properties].
  apply map_update_first. exact Hh.
Qed.

Lemma lookupProperty_update_other st elementID psetName propertyName value
  elementID' psetName' propertyName' :
  (elementID', psetName', propertyName') <> (elementID, psetName, propertyName) ->
  lookupProperty (updatePropertyValue st elementID psetName propertyName value)
                 elementID' psetName' propertyName'
  = lookupProperty st elementID' psetName' propertyName'.
Proof.
  intros Hne. unfold updatePropertyValue.
  destruct (List.find (hasKey elementID) (elements st)) as [[k el]|] eqn:Hel;
    [|reflexivity].
  destruct (List.find (psetNamed psetName) (el_psets el)) as [pset|] eqn:Hpset;
    [|reflexivity].
  destruct (List.find (propNamed propertyName) (pset_properties pset)) as [p0|] eqn:Hp;
    [|reflexivity].
  unfold lookupProperty. cbn [elements].
  destruct (Z.eq_dec elementID' elementID) as [-> | Hk].
  2:{ rewrite find_update_other; [reflexivity | reflexivity |].
      intros [k1 e1]. unfold hasKey. cbn [fst]. intros H1.
      apply Z.eqb_eq in H1. subst k1. now apply Z.eqb_neq. }
  rewrite find_update_first by (intros x Hx; exact Hx). rewrite Hel.
  cbn [option_map fst snd setPsets el_psets].
  destruct (String.eqb psetName' psetName) eqn:Hps.
  2:{ rewrite find_update_other; [reflexivity | reflexivity |].
      intros ps1. unfold psetNamed. intros H1. apply String.eqb_eq in H1.
      rewrite H1. rewrite String.eqb_sym. exact Hps. }
  apply String.eqb_eq in Hps. subst psetName'.
  rewrite find_update_first by (intros x Hx; exact Hx). rewrite Hpset.
  cbn [option_map setProperties pset_properties].
  apply find_update_other; [reflexivity|].
  intros p1. unfold propNamed. intros H1. apply String.eqb_eq in H1.
  apply String.eqb_neq. intros H2. apply Hne. congruence.
Qed.

Lemma updatePropertyValue_keys st elementID psetName propertyName value :
  List.map fst (elements (updatePropertyValue st elementID psetName propertyName value))
  = List.map fst (elements st).
Proof.
  unfold updatePropertyValue.
  destruct (List.find (hasKey elementID) (elements st)) as [[k el]|]; [|reflexivity].
  destruct (List.find (psetNamed psetName) (el_psets el)) as [pset|]; [|reflexivity].
  destruct (List.find (propNamed propertyName) (pset_properties pset)); [|reflexivity].
  cbn [elements]. now apply map_update_first.
Qed.

Lemma lookupProperty_in st elementID psetName propertyName prop :
  lookupProperty st elementID psetName propertyName = Some prop ->
  exists entry pset,
    In entry (elements st) /\ In pset (el_psets (snd entry))
    /\ In prop (pset_properties pset)
    /\ fst entry = elementID /\ pset_name pset = psetName
    /\ prop_name prop = propertyName.
Proof.
  unfold lookupProperty.
  destruct (List.find (hasKey elementID) (elements st)) as [[k el]|] eqn:Hel;
    [|discriminate].
  destruct (List.find (psetNamed psetName) (el_psets el)) as [pset|] eqn:Hpset;
    [|discriminate].
  intros Hp.
  apply find_some in Hel as [Hel Hk]. apply find_some in Hpset as [Hpset Hn].
  apply find_some in Hp as [Hp Hpn].
  exists (k, el), pset. repeat split; try assumption.
  - now apply Z.eqb_eq in Hk.
  - now apply String.eqb_eq in Hn.
  - now apply String.eqb_eq in Hpn.
Qed.

Lemma hasModifications_iff st :
  hasModifications st = true
  <-> exists prop, In prop (propertiesOf st) /\ prop_modified prop = true.
Proof.
  unfold hasModifications, propertiesOf. rewrite existsb_exists. split.
  - intros (entry & Hentry & H). apply existsb_exists in H as (pset & Hpset & H).
    apply existsb_exists in H as (prop & Hprop & H).
    exists prop. split; [|assumption].
    apply in_flat_map. exists entry. split; [assumption|].
    apply in_flat_map. eauto.
  - intros (prop & Hin & Hmod).
    apply in_flat_map in Hin as (entry & Hentry & Hin).
    apply in_flat_map in Hin as (pset & Hpset & Hin).
    exists entry. split; [assumption|].
    apply existsb_exists. exists pset. split; [assumption|].
    apply existsb_exists. eauto.
Qed.

Lemma lookupProperty_propertiesOf st elementID psetName propertyName prop :
  lookupProperty st elementID psetName propertyName = Some prop ->
  In prop (propertiesOf st).
Proof.
  intros H. apply lookupProperty_in in H as (entry & pset & He & Hp & Hin & _).
  unfold propertiesOf. apply in_flat_map. exists entry. split; [assumption|].
  apply in_flat_map. eauto.
Qed.

(** X1: a write to a property leaves the rest of the model store as it
    was: the original text, the keys of the elements and their order,
    the name, express id, type and original value of every property,
    and the property found under any other element, property set or
    property name; when the property to write is not found, nothing
    changes at all. *)
Theorem updatePropertyValue_frame (st : ModelState) (elementID : ExpressID)
  (psetName propertyName : string) (value : PropertyValue) :
  let st' := updatePropertyValue st elementID psetName propertyName value in
  originalIfcText st' = originalIfcText st
  /\ List.map fst (elements st') = List.map fst (elements st)
  /\ List.map (fun p => (prop_name p, prop_expressID p, prop_type p, prop_originalValue p))
       (propertiesOf st')
     = List.map (fun p => (prop_name p, prop_expressID p, prop_type p, prop_originalValue p))
         (propertiesOf st)
  /\ (forall elementID' psetName' propertyName',
        (elementID', psetName', propertyName') <> (elementID, psetName, propertyName) ->
        lookupProperty st' elementID' psetName' propertyName'
        = lookupProperty st elementID' psetName' propertyName')
  /\ (lookupProperty st elementID psetName propertyName = None -> st' = st).
Proof.
  cbv zeta. repeat split.
  - unfold updatePropertyValue.
    destruct (List.find (hasKey elementID) (elements st)) as [[k el]|]; [|reflexivity].
    destruct (List.find (psetNamed psetName) (el_psets el)) as [pset|]; [|reflexivity].
    now destruct (List.find (propNamed propertyName) (pset_properties pset)).
  - apply updatePropertyValue_keys.
  - now apply propertiesOf_update_map.
  - intros k' ps' pn' Hne. now apply lookupProperty_update_other.
  - apply updatePropertyValue_missing.
Qed.

(** X2: of a run of writes to one property only the last one counts:
    the model store is as if that write alone had been made. *)
Theorem updatePropertyValue_last_write (st : ModelState) (elementID : ExpressID)
  (psetName propertyName : string) (values : list PropertyValue)
  (value : PropertyValue) :
  fold_left (fun s v => updatePropertyValue s elementID psetName propertyName v)
            (values ++ [value])%list st
  = updatePropertyValue st elementID psetName propertyName value.
Proof.
  revert st. induction values as [|v values IH]; intros st; simpl; [reflexivity|].
  rewrite IH. apply updatePropertyValue_twice.
Qed.

(** ** The edit history ([useEditHistoryStore]) *)

(** X3: an undo that returns an action is taken back by the next redo,
    and a redo by the next undo: the redo returns the same action and
    the two stacks are as before; an undo or redo on an empty stack
    returns nothing and changes nothing; and a new edit empties the
    redo stack, so that no redo follows it. *)
Theorem undo_redo_round_trip (s s' : EditHistoryState) (action : EditAction) :
  (undo s = (Some action, s') -> redo s' = (Some action, s))
  /\ (redo s = (Some action, s') -> undo s' = (Some action, s))
  /\ (undoStack s = [] -> undo s = (None, s))
  /\ (redoStack s = [] -> redo s = (None, s))
  /\ redo (pushEdit action s) = (None, pushEdit action s)
  /\ undo (pushEdit action s)
     = (Some action, {| undoStack := undoStack s; redoStack := [ action ] |}).
Proof.
  repeat split.
  - unfold undo, redo. destruct (lastItem (undoStack s)) as [a|] eqn:Hlast;
      [|discriminate].
    intros [= -> <-]. cbn [redoStack undoStack].
    rewrite lastItem_push, removelast_push.
    rewrite <- (lastItem_Some _ _ Hlast). now destruct s.
  - unfold undo, redo. destruct (lastItem (redoStack s)) as [a|] eqn:Hlast;
      [|discriminate].
    intros [= -> <-]. cbn [redoStack undoStack].
    rewrite lastItem_push, removelast_push.
    rewrite <- (lastItem_Some _ _ Hlast). now destruct s.
  - intros H. unfold undo. now rewrite H.
  - intros H. unfold redo. now rewrite H.
  - unfold undo, pushEdit. cbn [undoStack redoStack].
    now rewrite lastItem_push, removelast_push.
Qed.

(** ** An edit and its undo ([handlePropertyChange], [handleUndo]) *)

(** X4: the undo of an edit of a property writes the old value back,
    and the write marks the property as modified: after the edit and
    its undo the property stands as before but for [modified = true],
    so that [hasModifications] holds even for a model that was just
    loaded; the undo stack is as before the edit and the redo stack
    holds the one action. *)
Theorem handleUndo_after_edit (element : IfcElement) (now : Z) (pset : PropertySet)
  (prop : Property) (newValue : PropertyValue) (st : ModelState)
  (history : EditHistoryState) :
  lookupProperty st (el_expressID element) (pset_name pset) (prop_name prop)
  = Some prop ->
  let app := handleUndo (handlePropertyChange element now pset prop newValue
                           (st, history)) in
  fst app = updatePropertyValue st (el_expressID element) (pset_name pset)
              (prop_name prop) (prop_value prop)
  /\ lookupProperty (fst app) (el_expressID element) (pset_name pset) (prop_name prop)
     = Some (setValue (prop_value prop) prop)
  /\ hasModifications (fst app) = true
  /\ undoStack (snd app) = undoStack history
  /\ exists action, redoStack (snd app) = [ action ]
       /\ act_oldValues action = [ (el_expressID element, prop_value prop) ]
       /\ act_newValue action = newValue.
Proof.
  intros Hlook. cbv zeta.
  unfold handleUndo, handlePropertyChange. cbn [fst snd].
  unfold undo, pushEdit. cbn [undoStack redoStack].
  rewrite lastItem_push, removelast_push.
  cbn [act_oldValues act_psetName act_propertyName fold_left fst snd
       undoStack redoStack].
  rewrite updatePropertyValue_twice.
  pose proof (lookupProperty_update _ _ _ _ (prop_value prop) _ Hlook) as Hnew.
  split; [reflexivity|]. split; [exact Hnew|]. split.
  - apply hasModifications_iff. exists (setValue (prop_value prop) prop).
    split; [|reflexivity].
    now apply lookupProperty_propertiesOf in Hnew.
  - split; [reflexivity|]. eexists. split; [reflexivity|]. split; reflexivity.
Qed.

(** ** Selection and visibility ([useSelectionStore], [useVisibilityStore]) *)

Lemma has_push (s : NumberSet.t) (x y : Z) :
  NumberSet.has (push s x) y = NumberSet.has s y || (y =? x).
Proof.
  unfold NumberSet.has, push. rewrite existsb_app. simpl. now rewrite orb_false_r.
Qed.

Lemma has_add (s : NumberSet.t) (x y : Z) :
  NumberSet.has (NumberSet.add s x) y = NumberSet.has s y || (y =? x).
Proof.
  unfold NumberSet.add. destruct (NumberSet.has s x) eqn:Hx; [|apply has_push].
  destruct (Z.eqb_spec y x) as [-> | _]; [|now rewrite orb_false_r].
  now rewrite Hx.
Qed.

Lemma has_delete (s : NumberSet.t) (x y : Z) :
  NumberSet.has (NumberSet.delete s x) y = NumberSet.has s y && negb (y =? x).
Proof.
  unfold NumberSet.has, NumberSet.delete.
  induction s as [|a s IH]; simpl; [reflexivity|].
  destruct (Z.eqb_spec a x) as [-> | Hax]; simpl.
  - rewrite IH. destruct (Z.eqb_spec y x); simpl; [now rewrite andb_false_r|].
    reflexivity.
  - rewrite IH. destruct (Z.eqb_spec y a) as [-> | Hya]; simpl; [|reflexivity].
    destruct (Z.eqb_spec a x); [contradiction|reflexivity].
Qed.

Lemma has_fold_add (ids : list Z) (s : NumberSet.t) (y : Z) :
  NumberSet.has (fold_left NumberSet.add ids s) y
  = NumberSet.has s y || NumberSet.has ids y.
Proof.
  revert s. induction ids as [|x ids IH]; intros s; simpl.
  - now rewrite orb_false_r.
  - rewrite IH, has_add. now rewrite orb_assoc.
Qed.

Lemma has_fold_delete (ids : list Z) (s : NumberSet.t) (y : Z) :
  NumberSet.has (fold_left NumberSet.delete ids s) y
  = NumberSet.has s y && negb (NumberSet.has ids y).
Proof.
  revert s. induction ids as [|x ids IH]; intros s; simpl.
  - now rewrite andb_true_r.
  - rewrite IH, has_delete, negb_orb. now rewrite andb_assoc.
Qed.

Lemma has_of_list (ids : list Z) (y : Z) :
  NumberSet.has (NumberSet.of_list ids) y = NumberSet.has ids y.
Proof. unfold NumberSet.of_list. now rewrite has_fold_add. Qed.

(** X5: to toggle an id twice leaves the membership of every id in the
    selection as it was; to add ids and then remove the same ids leaves
    selected what was selected before and is not among them; and a
    removal never moves [lastSelectedID], also when it removes that id
    from the selection. *)
Theorem selection_membership (s : SelectionState) (id x : Z) (ids : list Z) :
  NumberSet.has (selectedIDs (toggleSelect id (toggleSelect id s))) x
  = NumberSet.has (selectedIDs s) x
  /\ NumberSet.has (selectedIDs (toggleSelect id s)) id
     = negb (NumberSet.has (selectedIDs s) id)
  /\ NumberSet.has (selectedIDs (removeFromSelection ids (addToSelection ids s))) x
     = NumberSet.has (selectedIDs s) x && negb (NumberSet.has ids x)
  /\ lastSelectedID (removeFromSelection ids s) = lastSelectedID s.
Proof.
  split; [|split; [|split]].
  - unfold toggleSelect. cbn [selectedIDs].
    destruct (NumberSet.has (selectedIDs s) id) eqn:Hid.
    + rewrite has_delete, Z.eqb_refl, andb_false_r. cbn [negb].
      rewrite has_add, has_delete.
      destruct (Z.eqb_spec x id) as [-> | _];
        [now rewrite Hid | now rewrite andb_true_r, orb_false_r].
    + rewrite has_add, Z.eqb_refl, orb_true_r.
      rewrite has_delete, has_add.
      destruct (Z.eqb_spec x id) as [-> | _];
        [now rewrite Hid | now rewrite andb_true_r, orb_false_r].
  - unfold toggleSelect. cbn [selectedIDs].
    destruct (NumberSet.has (selectedIDs s) id) eqn:Hid.
    + now rewrite has_delete, Z.eqb_refl, andb_false_r.
    + now rewrite has_add, Z.eqb_refl, orb_true_r.
  - unfold removeFromSelection, addToSelection. cbn [selectedIDs].
    rewrite has_fold_delete, has_fold_add.
    destruct (NumberSet.has (selectedIDs s) x), (NumberSet.has ids x); reflexivity.
  - reflexivity.
Qed.

(** X6: while elements are isolated, exactly the isolated ones are
    visible, and hiding more elements changes nothing of that; to
    isolate discards the hidden set, so that once the isolation is
    cleared every element is visible, those hidden before included;
    without isolation an element is visible unless it was hidden. *)
Theorem isVisible_isolation (s : VisibilityState) (ids hidden : list Z) (id : Z) :
  isVisible (isolateElements ids s) id = NumberSet.has ids id
  /\ isVisible (hideElements hidden (isolateElements ids s)) id = NumberSet.has ids id
  /\ isVisible (clearIsolation (isolateElements ids (hideElements hidden s))) id = true
  /\ isVisible (hideElements hidden (unhideAll s)) id = negb (NumberSet.has hidden id).
Proof.
  unfold isVisible, isolateElements, hideElements, clearIsolation, unhideAll.
  cbn [isolatedIDs hiddenIDs]. rewrite has_of_list, has_fold_add.
  repeat split; reflexivity.
Qed.

(** ** The issues of a validation run ([runValidation], [checkElement]) *)

Lemma filter_const {A : Type} (q : A -> bool) (l : list A) (b : bool) :
  (forall y, In y l -> q y = b) -> List.filter q l = if b then l else [].
Proof.
  induction l as [|a l IH]; intros H; simpl; [now destruct b|].
  rewrite (H a) by now left. rewrite IH by (intros y Hy; apply H; now right).
  now destruct b.
Qed.

Lemma filter_flat_map {A B : Type} (q : B -> bool) (q' : A -> bool)
  (g : A -> list B) (l : list A) :
  (forall x y, In x l -> In y (g x) -> q y = q' x) ->
  List.filter q (List.flat_map g l) = List.flat_map g (List.filter q' l).
Proof.
  induction l as [|a l IH]; intros H; simpl; [reflexivity|].
  rewrite filter_app, IH by (intros x y Hx; apply H; now right).
  rewrite (filter_const q (g a) (q' a)) by (intros y Hy; apply H; [now left|assumption]).
  destruct (q' a); reflexivity.
Qed.

Lemma NoDup_map_filter {A B : Type} (f : A -> B) (p : A -> bool) (l : list A) :
  NoDup (List.map f l) -> NoDup (List.map f (List.filter p l)).
Proof.
  induction l as [|a l IH]; simpl; intros H; [constructor|].
  inversion H as [|x xs Hnot Hrest]; subst.
  destruct (p a); simpl; [|now apply IH].
  constructor; [|now apply IH].
  intros Hin. apply Hnot. apply in_map_iff in Hin as (y & Hy & Hin).
  apply filter_In in Hin as [Hin _]. apply in_map_iff. eauto.
Qed.

Lemma filter_split_length {A : Type} (p : A -> bool) (l : list A) :
  (List.length (List.filter p l) + List.length (List.filter (fun x => negb (p x)) l)
   = List.length l)%nat.
Proof.
  induction l as [|a l IH]; simpl; [reflexivity|].
  destruct (p a); simpl; lia.
Qed.

Section RunFacts.

Variable stringToNumber : string -> Num.number.
Variable regExpTest : string -> string -> option bool.

Lemma passes_cons rule rules element :
  passes stringToNumber regExpTest (rule :: rules) element
  = match checkElement stringToNumber regExpTest element rule with
    | [] => passes stringToNumber regExpTest rules element
    | _ :: _ => false
    end.
Proof.
  unfold passes, issuesOf. simpl.
  now destruct (checkElement stringToNumber regExpTest element rule).
Qed.

Lemma runElement_fold rules element acc :
  runElement stringToNumber regExpTest rules acc element
  = ((fst acc ++ issuesOf stringToNumber regExpTest rules element)%list,
     snd acc ∪ (if passes stringToNumber regExpTest rules element
                then ∅ else {[ ve_expressID element ]})).
Proof.
  unfold runElement. revert acc.
  induction rules as [|rule rules IH]; intros [issues ids]; cbn [fold_left fst snd].
  - unfold issuesOf, passes. simpl. now rewrite app_nil_r, union_empty_r_L.
  - rewrite IH, passes_cons. unfold runRule, issuesOf. cbn [flat_map fst snd].
    destruct (checkElement stringToNumber regExpTest element rule) as [|i l] eqn:Hc;
      cbn [List.length Nat.ltb Nat.leb fst snd].
    + reflexivity.
    + rewrite <- app_assoc. f_equal.
      destruct (passes stringToNumber regExpTest rules element).
      * now rewrite union_empty_r_L.
      * now rewrite <- union_assoc_L, union_idemp_L.
Qed.

Lemma runElements_fold rules elements acc :
  fold_left (runElement stringToNumber regExpTest rules) elements acc
  = ((fst acc ++ List.flat_map (issuesOf stringToNumber regExpTest rules) elements)%list,
     snd acc ∪ list_to_set
       (List.map ve_expressID
          (List.filter (fun el => negb (passes stringToNumber regExpTest rules el))
                       elements))).
Proof.
  revert acc. induction elements as [|el els IH]; intros [issues ids];
    cbn [fold_left fst snd].
  - simpl. now rewrite app_nil_r, union_empty_r_L.
  - rewrite IH, runElement_fold. cbn [fst snd flat_map List.filter].
    rewrite <- app_assoc. f_equal.
    destruct (passes stringToNumber regExpTest rules el); cbn [negb List.map].
    + now rewrite union_empty_r_L.
    + rewrite list_to_set_cons. now rewrite union_assoc_L.
Qed.

Lemma runValidation_fold elements rules :
  runValidation stringToNumber regExpTest elements rules
  = let allIssues := List.flat_map (issuesOf stringToNumber regExpTest rules) elements in
    let failing := List.filter (fun el => negb (passes stringToNumber regExpTest rules el))
                               elements in
    {| res_issues := allIssues;
       res_totalElements := Z.of_nat (List.length elements);
       res_totalIssues := Z.of_nat (List.length allIssues);
       res_errors := Z.of_nat (List.length (List.filter isError allIssues));
       res_warnings := Z.of_nat (List.length (List.filter isWarning allIssues));
       res_passed := Z.of_nat (List.length elements)
                     - Z.of_nat (size (list_to_set (List.map ve_expressID failing)
                                       : gset Z)) |}.
Proof.
  unfold runValidation. rewrite runElements_fold. cbn [fst snd app].
  now rewrite union_empty_l_L.
Qed.

Lemma checkRequirement_length element rule req :
  (List.length (checkRequirement stringToNumber regExpTest element rule req) <= 1)%nat.
Proof.
  unfold checkRequirement, checkValue.
  destruct (List.find _ (ve_psets element)) as [pset|].
  - destruct (List.find _ (vpset_properties pset)) as [prop|]; [|simpl; lia].
    destruct (req_checkType req); simpl; try lia.
    + destruct (_ || _); simpl; lia.
    + destruct (match req_expected req with ExpValue _ => _ | ExpList _ => _ end);
        simpl; lia.
    + destruct (negb _); simpl; lia.
    + destruct (_ || _); simpl; lia.
    + destruct (req_pattern req) as [[|c pat]|]; simpl; try lia.
      destruct (regExpTest _ _) as [[|]|]; simpl; lia.
    + destruct (_ && _); simpl; lia.
  - destruct (req_checkType req); simpl; lia.
Qed.

Lemma flat_map_length_le {A B : Type} (g : A -> list B) (l : list A) (n : nat) :
  (forall x, List.length (g x) <= n)%nat ->
  (List.length (List.flat_map g l) <= List.length l * n)%nat.
Proof.
  intros H. induction l as [|a l IH]; simpl; [lia|].
  rewrite length_app. pose proof (H a). lia.
Qed.

Lemma checkElement_length element rule :
  (List.length (checkElement stringToNumber regExpTest element rule)
   <= List.length (rule_requirements rule))%nat.
Proof.
  unfold checkElement.
  destruct (excludedBy _ _); [simpl; lia|].
  destruct (excludedBy _ _); [simpl; lia|].
  pose proof (flat_map_length_le (checkRequirement stringToNumber regExpTest element rule)
                (rule_requirements rule) 1 (checkRequirement_length element rule)).
  lia.
Qed.

Lemma issuesOf_length rules element :
  (List.length (issuesOf stringToNumber regExpTest rules element)
   <= List.length (List.flat_map rule_requirements rules))%nat.
Proof.
  unfold issuesOf. induction rules as [|rule rules IH]; simpl; [lia|].
  rewrite !length_app. pose proof (checkElement_length element rule). lia.
Qed.

Lemma checkElement_expressID element rule issue :
  In issue (checkElement stringToNumber regExpTest element rule) ->
  issue_expressID issue = ve_expressID element.
Proof.
  unfold checkElement.
  destruct (excludedBy _ _); [intros []|].
  destruct (excludedBy _ _); [intros []|].
  intros Hin. apply in_flat_map in Hin as (req & _ & Hin).
  apply checkRequirement_issue in Hin as (t & e & a & f & ->). reflexivity.
Qed.

Lemma filter_run_issues elements rules expressID :
  List.filter (fun i => issue_expressID i =? expressID)
    (List.flat_map (issuesOf stringToNumber regExpTest rules) elements)
  = List.flat_map (issuesOf stringToNumber regExpTest rules)
      (List.filter (fun el => ve_expressID el =? expressID) elements).
Proof.
  apply filter_flat_map. intros el issue _ Hin.
  unfold issuesOf in Hin. apply in_flat_map in Hin as (rule & _ & Hin).
  now rewrite (checkElement_expressID _ _ _ Hin).
Qed.

(** X7: the issues of a validation run are those of [checkElement],
    element by element in the order of the elements and, for each
    element, rule by rule in the order of the rules; a requirement
    gives at most one issue for an element, so that the issues are no
    more than the elements times the requirements of all rules. *)
Theorem runValidation_issues (elements : list ValidateElement)
  (rules : list ValidateRule) :
  let res := runValidation stringToNumber regExpTest elements rules in
  res_issues res
  = List.flat_map
      (fun element =>
         List.flat_map (checkElement stringToNumber regExpTest element) rules)
      elements
  /\ res_totalIssues res = Z.of_nat (List.length (res_issues res))
  /\ res_totalIssues res
     <= Z.of_nat (List.length elements)
        * Z.of_nat (List.length (List.flat_map rule_requirements rules)).
Proof.
  rewrite runValidation_fold. cbv zeta. cbn [res_issues res_totalIssues].
  split; [reflexivity|]. split; [reflexivity|].
  pose proof (flat_map_length_le (issuesOf stringToNumber regExpTest rules) elements
                _ (issuesOf_length rules)).
  nia.
Qed.

(** X8: when the elements have distinct express ids, the number of
    passed elements of a validation run is the number of elements for
    which no rule gives an issue. *)
Theorem runValidation_passed (elements : list ValidateElement)
  (rules : list ValidateRule) :
  NoDup (List.map ve_expressID elements) ->
  res_passed (runValidation stringToNumber regExpTest elements rules)
  = Z.of_nat (List.length
                (List.filter (passes stringToNumber regExpTest rules) elements)).
Proof.
  intros Hnd. rewrite runValidation_fold. cbv zeta. cbn [res_passed].
  rewrite size_list_to_set by (apply NoDup_ListNoDup; now apply NoDup_map_filter).
  rewrite length_map.
  pose proof (filter_split_length (passes stringToNumber regExpTest rules) elements).
  lia.
Qed.

(** X9: the issues the validation store gives for an express id, once
    it holds the result of a run, are the issues of the elements of
    that id, in the order of the run; without a result there are none. *)
Theorem getIssuesForElement_run (elements : list ValidateElement)
  (rules : list ValidateRule) (expressID : ExpressID) :
  getIssuesForElement
    (Some (runValidation stringToNumber regExpTest elements rules)) expressID
  = List.flat_map (issuesOf stringToNumber regExpTest rules)
      (List.filter (fun el => ve_expressID el =? expressID) elements)
  /\ getIssuesForElement None expressID = [].
Proof.
  split; [|reflexivity].
  unfold getIssuesForElement. rewrite runValidation_fold. cbv zeta. cbn [res_issues].
  apply filter_run_issues.
Qed.

End RunFacts.

Lemma excludedBy_allows (allow : option (list string)) (x : string) :
  excludedBy allow x = false <-> allows allow x.
Proof.
  unfold excludedBy, allows. destruct allow as [[|y l]|]; [tauto| |tauto].
  rewrite negb_false_iff, existsb_exists. split.
  - intros (z & Hz & Heq). apply String.eqb_eq in Heq. now subst z.
  - intros Hin. exists x. split; [assumption|apply String.eqb_refl].
Qed.

Lemma find_none_psetAbsent element req :
  List.find (fun p => String.eqb (vpset_name p) (req_psetName req)) (ve_psets element)
  = None ->
  psetAbsent element req.
Proof.
  intros H pset Hin. apply String.eqb_neq.
  now apply (proj1 (find_none_iff _ _) H).
Qed.

Lemma find_some_psetResolved element req pset :
  List.find (fun p => String.eqb (vpset_name p) (req_psetName req)) (ve_psets element)
  = Some pset ->
  psetResolved element req pset.
Proof.
  intros H. apply find_first_iff in H as (before & after & Hl & Hname & Hbefore).
  exists before, after. repeat split.
  - assumption.
  - now apply String.eqb_eq.
  - intros p Hp. apply String.eqb_neq. now apply Hbefore.
Qed.

Section IssueFacts.

Variable stringToNumber : string -> Num.number.
Variable regExpTest : string -> string -> option bool.

Lemma checkElement_in element rule issue :
  In issue (checkElement stringToNumber regExpTest element rule) ->
  applicable element rule
  /\ exists req, In req (rule_requirements rule)
       /\ In issue (checkRequirement stringToNumber regExpTest element rule req).
Proof.
  unfold checkElement, applicable.
  destruct (excludedBy _ (ve_ifcClass element)); [intros []|].
  destruct (excludedBy _ (ve_discipline element)); [intros []|].
  intros Hin. split; [split; reflexivity|].
  now apply in_flat_map in Hin.
Qed.

(** X10: every issue [checkElement] gives is that of an applicable
    element and of one requirement of the rule: it carries the express
    id, global id, class, name, level, zone and discipline of the
    element, the tag, else the name, else the global id of the element
    as its element id, the id and name of the rule, the property path
    [psetName.propertyName] of the requirement, and as severity the one
    the requirement gives or else the default of the issue type, which
    is [Warning] for a missing value and [Error] for all others. *)
Theorem checkElement_issue_fields (element : ValidateElement) (rule : ValidateRule)
  (issue : ValidationIssue) :
  In issue (checkElement stringToNumber regExpTest element rule) ->
  applicable element rule
  /\ exists req,
       In req (rule_requirements rule)
       /\ issue_expressID issue = ve_expressID element
       /\ issue_globalId issue = ve_globalId element
       /\ issue_ifcClass issue = ve_ifcClass element
       /\ issue_name issue = ve_name element
       /\ issue_level issue = ve_level element
       /\ issue_zone issue = ve_zone element
       /\ issue_discipline issue = ve_discipline element
       /\ issue_elementId issue
          = (if String.eqb (ve_tag element) "" then
               if String.eqb (ve_name element) "" then ve_globalId element
               else ve_name element
             else ve_tag element)
       /\ issue_ruleId issue = rule_id rule
       /\ issue_ruleName issue = rule_name rule
       /\ issue_propertyPath issue = req_psetName req ++ "." ++ req_propertyName req
       /\ issue_severity issue
          = match req_severity req, issue_issueType issue with
            | Some severity, _ => severity
            | None, MissingValue => Warning
            | None, _ => Error
            end.
Proof.
  intros Hin. apply checkElement_in in Hin as (Happ & req & Hreq & Hin).
  split; [assumption|]. exists req. split; [assumption|].
  apply checkRequirement_issue in Hin as (t & e & a & f & ->).
  cbn [mkElementIssue issue_expressID issue_globalId issue_ifcClass issue_name
       issue_level issue_zone issue_discipline issue_elementId issue_ruleId
       issue_ruleName issue_propertyPath issue_severity issue_issueType].
  repeat (split; [reflexivity|]). split.
  - unfold getElementId, str_or.
    destruct (ve_tag element); [|reflexivity]. now destruct (ve_name element).
  - repeat (split; [reflexivity|]).
    destruct (req_severity req); [reflexivity|]. now destruct t.
Qed.

(** X11: the type of an issue tells the check it comes from.  A
    [MissingParam] issue arises only where the property set is absent
    under an [exists] or [notEmpty] check, or where the property set is
    found and lacks the property; a [MissingValue] issue only from a
    [notEmpty] check; a [Naming] issue only from a [regex] check, and
    it alone has a suggested fix; a [WrongValue] issue only from an
    [equals], [inList], [range] or [boolean] check.  An [exists] check
    gives no issue other than [MissingParam]. *)
Theorem checkElement_issue_type (element : ValidateElement) (rule : ValidateRule)
  (issue : ValidationIssue) :
  In issue (checkElement stringToNumber regExpTest element rule) ->
  exists req,
    In req (rule_requirements rule)
    /\ issue_propertyPath issue = req_psetName req ++ "." ++ req_propertyName req
    /\ match issue_issueType issue with
       | MissingParam =>
           issue_expected issue = "Property should exist"
           /\ ((psetAbsent element req /\ presenceCheck (req_checkType req)
                /\ issue_actual issue = "Property set not found")
               \/ (exists pset, psetResolved element req pset
                                /\ propertyAbsent pset req
                                /\ issue_actual issue = "Property not found"))
       | MissingValue => req_checkType req = CkNotEmpty
       | WrongValue =>
           req_checkType req = CkEquals \/ req_checkType req = CkInList
           \/ req_checkType req = CkRange \/ req_checkType req = CkBoolean
       | Naming =>
           req_checkType req = CkRegex
           /\ issue_suggestedFix issue = Some "Check naming convention"
       end
    /\ (issue_issueType issue <> Naming -> issue_suggestedFix issue = None)
    /\ (req_checkType req = CkExists -> issue_issueType issue = MissingParam).
Proof.
  intros Hin. apply checkElement_in in Hin as (_ & req & Hreq & Hin).
  exists req. split; [assumption|].
  unfold checkRequirement in Hin.
  destruct (List.find _ (ve_psets element)) as [pset|] eqn:Hpset.
  - apply find_some_psetResolved in Hpset.
    destruct (List.find _ (vpset_properties pset)) as [prop|] eqn:Hprop.
    + unfold checkValue in Hin.
      destruct (req_checkType req) eqn:Hck; cbn [In] in Hin.
      * destruct Hin.
      * destruct (_ || _); [|destruct Hin]. destruct Hin as [<-|[]].
        cbn. repeat split; try reflexivity; discriminate.
      * destruct (match req_expected req with ExpValue _ => _ | ExpList _ => _ end);
          [|destruct Hin]. destruct Hin as [<-|[]].
        cbn. repeat split; try reflexivity; try discriminate. now left.
      * destruct (negb _); [|destruct Hin]. destruct Hin as [<-|[]].
        cbn. repeat split; try reflexivity; try discriminate. right. now left.
      * destruct (_ || _); [|destruct Hin]. destruct Hin as [<-|[]].
        cbn. repeat split; try reflexivity; try discriminate. right. right. now left.
      * destruct (req_pattern req) as [[|c pat]|]; try destruct Hin.
        destruct (regExpTest _ _) as [[|]|]; try destruct Hin.
        -- subst issue. cbn. repeat split; try reflexivity; try discriminate.
           intros H. now contradiction H.
        -- destruct H.
      * destruct (_ && _); [|destruct Hin]. destruct Hin as [<-|[]].
        cbn. repeat split; try reflexivity; try discriminate. right. right. now right.
    + destruct Hin as [<-|[]]. cbn. split; [reflexivity|]. split.
      * split; [reflexivity|]. right. exists pset. split; [assumption|].
        split; [|reflexivity].
        intros p Hp. apply String.eqb_neq.
        now apply (proj1 (find_none_iff _ _) Hprop).
      * split; [reflexivity|]. reflexivity.
  - apply find_none_psetAbsent in Hpset.
    destruct (req_checkType req) eqn:Hck; cbn [In] in Hin; try destruct Hin as [<-|[]];
      try destruct Hin.
    + cbn. split; [reflexivity|]. split.
      * split; [reflexivity|]. left. split; [assumption|].
        split; [now left|reflexivity].
      * split; [reflexivity|]. reflexivity.
    + cbn. split; [reflexivity|]. split.
      * split; [reflexivity|]. left. split; [assumption|].
        split; [now right|reflexivity].
      * split; [reflexivity|]. discriminate.
Qed.

(** X12: a rule applies to an element when each of its two allow-lists,
    of classes and of disciplines, is left out, is empty or holds the
    class or the discipline of the element, compared as exact text; an
    element the rule does not apply to has no issue; and the third
    list of the applicability, of property set names, is not read:
    the issues are the same whatever it holds. *)
Theorem checkElement_applicability (element : ValidateElement) (rule : ValidateRule) :
  (applicable element rule
   <-> allows (app_ifcClasses (rule_applicability rule)) (ve_ifcClass element)
       /\ allows (app_disciplines (rule_applicability rule)) (ve_discipline element))
  /\ (~ applicable element rule ->
      checkElement stringToNumber regExpTest element rule = [])
  /\ (forall psetNames,
        checkElement stringToNumber regExpTest element
          {| rule_id := rule_id rule; rule_name := rule_name rule;
             rule_description := rule_description rule;
             rule_applicability :=
               {| app_ifcClasses := app_ifcClasses (rule_applicability rule);
                  app_disciplines := app_disciplines (rule_applicability rule);
                  app_psetNames := psetNames |};
             rule_requirements := rule_requirements rule |}
        = checkElement stringToNumber regExpTest element rule).
Proof.
  split; [|split].
  - unfold applicable. now rewrite !excludedBy_allows.
  - unfold applicable, checkElement. intros Hno.
    destruct (excludedBy _ (ve_ifcClass element)); [reflexivity|].
    destruct (excludedBy _ (ve_discipline element)); [reflexivity|].
    exfalso. apply Hno. split; reflexivity.
  - intros psetNames. reflexivity.
Qed.

End IssueFacts.

(** ** The rules of an IDS document ([idsToRulePack]) *)

Lemma convertApplicability_fold specName facets acc :
  fst (fold_left (convertApplicability specName) facets acc)
  = (fst acc
     ++ List.flat_map
          (fun facet =>
             match facet_type facet, facet_entityName facet with
             | FEntity, Some (String c s) => [ String c s ]
             | _, _ => []
             end) facets)%list
  /\ List.length (snd (fold_left (convertApplicability specName) facets acc))
     = (List.length (snd acc)
        + List.length (List.filter unsupportedApplicability facets))%nat.
Proof.
  revert acc. induction facets as [|facet facets IH]; intros acc; simpl.
  - now rewrite app_nil_r.
  - destruct (IH (convertApplicability specName acc facet)) as [IH1 IH2].
    rewrite IH1, IH2. unfold convertApplicability, unsupportedApplicability, push.
    destruct (facet_type facet); cbn [fst snd];
      try destruct (facet_entityName facet) as [[|c s]|]; cbn [truthy opt_or fst snd];
      rewrite ?length_app; simpl; rewrite <- ?app_assoc, ?app_nil_r;
      split; try reflexivity; try lia.
Qed.

Lemma convertRequirement_unsupported specName reqs acc :
  List.length (snd (fold_left (convertRequirement specName) reqs acc))
  = (List.length (snd acc) + List.length (List.filter unsupportedRequirement reqs))%nat.
Proof.
  revert acc. induction reqs as [|req reqs IH]; intros acc; simpl; [lia|].
  rewrite IH. unfold convertRequirement, unsupportedRequirement, push.
  destruct (facet_type (ireq_facet req)); cbn [fst snd];
    try destruct (truthy _); cbn [fst snd]; rewrite ?length_app; simpl; lia.
Qed.

Lemma convertSpecification_step acc spec :
  fst (convertSpecification acc spec)
  = (if convertible spec then push (fst acc) (ruleOf (List.length (fst acc)) spec)
     else fst acc)
  /\ List.length (snd (convertSpecification acc spec))
     = (List.length (snd acc) + unsupportedCount spec)%nat.
Proof.
  unfold convertSpecification, convertible, unsupportedCount.
  pose proof (convertApplicability_fold (spec_name spec) (spec_applicability spec)
                ([], snd acc)) as [Hc Hu1].
  destruct (fold_left (convertApplicability _) _ _) as [ifcClasses unsupported1].
  pose proof (convertRequirement_fold (spec_name spec) (spec_requirements spec)
                ([], unsupported1)) as Hr.
  pose proof (convertRequirement_unsupported (spec_name spec) (spec_requirements spec)
                ([], unsupported1)) as Hu2.
  destruct (fold_left (convertRequirement _) _ _) as [requirements unsupported2].
  cbn [fst snd app] in *. subst ifcClasses requirements.
  destruct (List.flat_map convertedRequirements (spec_requirements spec)) as [|r rs] eqn:Hreqs;
    cbn [List.length Nat.ltb Nat.leb fst snd].
  - split; [reflexivity|]. lia.
  - split; [|lia]. unfold ruleOf, entityNames. rewrite Hreqs.
    destruct (List.flat_map _ (spec_applicability spec)); reflexivity.
Qed.

Lemma convertSpecifications_fold specs acc :
  fst (fold_left convertSpecification specs acc)
  = (fst acc ++ rulesFrom (List.length (fst acc)) specs)%list
  /\ List.length (snd (fold_left convertSpecification specs acc))
     = (List.length (snd acc) + list_sum (List.map unsupportedCount specs))%nat.
Proof.
  revert acc. induction specs as [|spec specs IH]; intros acc; simpl.
  - rewrite app_nil_r. split; [reflexivity|lia].
  - destruct (IH (convertSpecification acc spec)) as [IH1 IH2].
    destruct (convertSpecification_step acc spec) as [H1 H2].
    rewrite IH1, IH2, H1, H2. split; [|lia].
    destruct (convertible spec); [|reflexivity].
    unfold push. rewrite length_app, <- app_assoc. simpl.
    now rewrite Nat.add_1_r.
Qed.

Lemma idsToRulePack_rulesFrom specs fileName :
  pack_rules (idsToRulePack specs fileName) = rulesFrom 0 specs.
Proof.
  rewrite idsToRulePack_rules.
  now destruct (convertSpecifications_fold specs ([], [])) as [-> _].
Qed.

Lemma rulesFrom_in index specs rule :
  In rule (rulesFrom index specs) ->
  exists k spec, (index <= k)%nat /\ In spec specs /\ convertible spec = true
                 /\ rule = ruleOf k spec.
Proof.
  revert index. induction specs as [|spec specs IH]; intros index; simpl; [intros []|].
  destruct (convertible spec) eqn:Hc.
  - intros [<-|Hin].
    + exists index, spec. auto.
    + apply IH in Hin as (k & spec' & Hk & Hin & Hc' & ->).
      exists k, spec'. repeat split; auto. lia.
  - intros Hin. apply IH in Hin as (k & spec' & Hk & Hin & Hc' & ->).
    exists k, spec'. repeat split; auto.
Qed.

Lemma ruleOf_id_inj (k1 k2 : nat) (spec1 spec2 : IDSSpecification) :
  rule_id (ruleOf k1 spec1) = rule_id (ruleOf k2 spec2) -> k1 = k2.
Proof.
  unfold ruleOf. cbn [rule_id]. intros H.
  rewrite !int_toString_nonneg in H by lia.
  remember (toLowerCase (Regex.replace_all (spec_name spec1) re_spaces "-")) as l1.
  remember (toLowerCase (Regex.replace_all (spec_name spec2) re_spaces "-")) as l2.
  rewrite <- (str_app_assoc "ids-" l1), <- (str_app_assoc "ids-" l2) in H.
  assert (forall n, ~ Contains "-" (Num.digits n)) as Hd
    by (intros n; apply all_digits_no_dash, digits_all_digits).
  destruct (split_last "-" ("ids-" ++ l1) (Num.digits (Z.of_nat k1))
              ("ids-" ++ l2) (Num.digits (Z.of_nat k2)) H (Hd _) (Hd _)) as [_ Hb].
  apply digits_inj in Hb; lia.
Qed.

Lemma rulesFrom_NoDup index specs :
  List.NoDup (List.map rule_id (rulesFrom index specs)).
Proof.
  revert index. induction specs as [|spec specs IH]; intros index; simpl;
    [constructor|].
  destruct (convertible spec); [|apply IH].
  simpl. constructor; [|apply IH].
  intros Hin. apply in_map_iff in Hin as (rule & Hid & Hin).
  apply rulesFrom_in in Hin as (k & spec' & Hk & _ & _ & ->).
  apply ruleOf_id_inj in Hid. lia.
Qed.

(** X13: the ids of the rules made from an IDS document are pairwise
    distinct, whatever the names of the specifications: each id ends
    with the number of rules made before it. *)
Theorem idsToRulePack_ids_distinct (specs : list IDSSpecification)
  (fileName : string) :
  List.NoDup (List.map rule_id (pack_rules (idsToRulePack specs fileName))).
Proof. rewrite idsToRulePack_rulesFrom. apply rulesFrom_NoDup. Qed.

Lemma rulesFrom_names index specs :
  List.map rule_name (rulesFrom index specs)
  = List.map spec_name (List.filter convertible specs)
  /\ List.map rule_requirements (rulesFrom index specs)
     = List.map (fun spec => List.flat_map convertedRequirements (spec_requirements spec))
         (List.filter convertible specs)
  /\ List.map rule_description (rulesFrom index specs)
     = List.map (fun spec => opt_or (spec_description spec) "")
         (List.filter convertible specs).
Proof.
  revert index. induction specs as [|spec specs IH]; intros index; simpl;
    [repeat split|].
  destruct (convertible spec); [|apply IH].
  destruct (IH (S index)) as (H1 & H2 & H3). simpl. now rewrite H1, H2, H3.
Qed.

(** X14: the rules made from an IDS document are those of the
    specifications that have a requirement that converts (a property
    facet, or an attribute facet with a name), one rule each and in the
    order of the document, with the name of the specification, its
    description or the empty text, and the converted requirements in
    their order; a specification without such a requirement gives no
    rule, and no rule has an empty list of requirements. *)
Theorem idsToRulePack_rules_of_specs (specs : list IDSSpecification)
  (fileName : string) :
  let rules := pack_rules (idsToRulePack specs fileName) in
  List.map rule_name rules = List.map spec_name (List.filter convertible specs)
  /\ List.map rule_requirements rules
     = List.map (fun spec => List.flat_map convertedRequirements (spec_requirements spec))
         (List.filter convertible specs)
  /\ List.map rule_description rules
     = List.map (fun spec => opt_or (spec_description spec) "")
         (List.filter convertible specs)
  /\ (List.length rules <= List.length specs)%nat
  /\ Forall (fun rule => rule_requirements rule <> []) rules.
Proof.
  cbv zeta. rewrite idsToRulePack_rulesFrom.
  destruct (rulesFrom_names 0 specs) as (H1 & H2 & H3).
  split; [assumption|]. split; [assumption|]. split; [assumption|]. split.
  - rewrite <- (length_map rule_name), H1, length_map. apply filter_length_le.
  - apply Forall_forall. intros rule Hin.
    apply rulesFrom_in in Hin as (k & spec & _ & _ & Hc & ->).
    unfold ruleOf, convertible in *. cbn [rule_requirements].
    now destruct (List.flat_map convertedRequirements (spec_requirements spec)).
Qed.

(** X15: the description of the pack reports the number of facets that
    were skipped as unsupported: the classification, material and
    part-of facets of the applicability of every specification and the
    requirements whose facet is neither a property nor an attribute,
    also of the specifications that give no rule.  An attribute
    requirement without a name is dropped without being counted, and so
    are the attribute and property facets of an applicability. *)
Theorem idsToRulePack_description (specs : list IDSSpecification)
  (fileName : string) :
  pack_name (idsToRulePack specs fileName) = "IDS: " ++ fileName
  /\ pack_version (idsToRulePack specs fileName) = "1.0"
  /\ pack_description (idsToRulePack specs fileName)
     = "Imported from " ++ fileName ++ ". "
       ++ Num.digits (Z.of_nat (list_sum (List.map unsupportedCount specs)))
       ++ " unsupported facets skipped.".
Proof.
  unfold idsToRulePack.
  destruct (convertSpecifications_fold specs ([], [])) as [_ Hlen].
  destruct (fold_left convertSpecification specs _) as [rules unsupported].
  cbn [pack_name pack_version pack_description snd List.length] in *.
  rewrite Hlen, int_toString_nonneg by lia.
  repeat split.
Qed.

(** X16: an attribute requirement of a specification whose facet has a
    name becomes a requirement on the pseudo property set
    [__attributes__] with the attribute name as property name; its
    check is [regex] when the facet has a pattern, whether or not it
    has a literal too, else [equals] when it has a literal, else
    [notEmpty]; the cardinality of the requirement is not read. *)
Theorem idsToRulePack_attribute_checkType (specs : list IDSSpecification)
  (fileName : string) (spec : IDSSpecification) (req : IDSRequirement)
  (name : string) :
  In spec specs ->
  In req (spec_requirements spec) ->
  facet_type (ireq_facet req) = FAttribute ->
  facet_attributeName (ireq_facet req) = Some name ->
  name <> "" ->
  exists rule r,
    In rule (pack_rules (idsToRulePack specs fileName))
    /\ rule_name rule = spec_name spec
    /\ In r (rule_requirements rule)
    /\ req_psetName r = "__attributes__"
    /\ req_propertyName r = name
    /\ req_pattern r = facet_pattern (ireq_facet req)
    /\ req_severity r = None
    /\ (forall pat, facet_pattern (ireq_facet req) = Some pat -> pat <> "" ->
          req_checkType r = CkRegex)
    /\ (forall v, noText (facet_pattern (ireq_facet req)) ->
          facet_value (ireq_facet req) = Some v -> v <> "" ->
          req_checkType r = CkEquals /\ req_expected r = ExpValue (VStr v))
    /\ (noText (facet_pattern (ireq_facet req)) ->
        noText (facet_value (ireq_facet req)) ->
        req_checkType r = CkNotEmpty).
Proof.
  intros Hspec Hreq Hattr Hname Hne.
  assert (truthy (facet_attributeName (ireq_facet req)) = true) as Htruthy
    by (rewrite Hname; destruct name; [contradiction|reflexivity]).
  assert (In (attributeRequirement req)
            (List.flat_map convertedRequirements (spec_requirements spec))) as Hin.
  { apply in_flat_map. exists req. split; [assumption|].
    unfold convertedRequirements. rewrite Hattr, Htruthy. now left. }
  assert (List.flat_map convertedRequirements (spec_requirements spec) <> []) as Hnil.
  { intros Hnil. rewrite Hnil in Hin. destruct Hin. }
  destruct (convertSpecifications_rules specs ([], []) spec Hspec Hnil)
    as (rule & Hrule & Hrname & Hreqs).
  exists rule, (attributeRequirement req).
  rewrite idsToRulePack_rules, Hreqs.
  split; [assumption|]. split; [assumption|]. split; [assumption|].
  unfold attributeRequirement.
  cbn [req_psetName req_propertyName req_pattern req_severity req_checkType req_expected].
  split; [reflexivity|]. split.
  { rewrite Hname. destruct name; [contradiction|reflexivity]. }
  split; [reflexivity|]. split; [reflexivity|]. split; [|split].
  - intros pat Hpat Hpat'. rewrite Hpat. destruct pat; [contradiction|reflexivity].
  - intros v Hno Hv Hv'.
    assert (truthy (facet_pattern (ireq_facet req)) = false) as ->
      by (destruct Hno as [-> | ->]; reflexivity).
    rewrite Hv. destruct v; [contradiction|]. split; reflexivity.
  - intros Hno Hno'.
    assert (truthy (facet_pattern (ireq_facet req)) = false) as ->
      by (destruct Hno as [-> | ->]; reflexivity).
    assert (truthy (facet_value (ireq_facet req)) = false) as ->
      by (destruct Hno' as [-> | ->]; reflexivity).
    reflexivity.
Qed.

(** X17: a rule made from an IDS document restricts neither the
    discipline nor the property sets, and applies to an element when
    its specification names no entity in its applicability or names the
    class of the element, as exact text. *)
Theorem idsToRulePack_applicability (specs : list IDSSpecification)
  (fileName : string) (rule : ValidateRule) :
  In rule (pack_rules (idsToRulePack specs fileName)) ->
  exists spec,
    In spec specs
    /\ rule_name rule = spec_name spec
    /\ app_disciplines (rule_applicability rule) = None
    /\ app_psetNames (rule_applicability rule) = None
    /\ forall element,
         applicable element rule
         <-> entityNames spec = [] \/ In (ve_ifcClass element) (entityNames spec).
Proof.
  rewrite idsToRulePack_rulesFrom. intros Hin.
  apply rulesFrom_in in Hin as (k & spec & _ & Hspec & _ & ->).
  exists spec. split; [assumption|]. repeat (split; [reflexivity|]).
  intros element. unfold applicable, ruleOf.
  cbn [rule_applicability app_ifcClasses app_disciplines excludedBy].
  rewrite excludedBy_allows. unfold allows.
  destruct (entityNames spec) as [|n names].
  - split; [intros _; now left | intros _; split; [exact I|reflexivity]].
  - split.
    + intros [H _]. now right.
    + intros [H|H]; [discriminate|]. split; [assumption|reflexivity].
Qed.

Section AttributeFacts.

Variable stringToNumber : string -> Num.number.
Variable regExpTest : string -> string -> option bool.

(** X18: the elements the validation service hands over have the
    property sets of the model and no other, so that a requirement on
    the pseudo property set [__attributes__] finds no property set
    unless the file has one of that name: under an [exists] or
    [notEmpty] check it gives the issue [Property set not found], and
    under any other check it gives none.  An attribute requirement of
    an IDS document that has a pattern or a literal is therefore never
    violated. *)
Theorem attribute_requirement_unchecked (element : IfcElement) (rule : ValidateRule)
  (r : Requirement) (req : IDSRequirement) :
  (forall pset, In pset (el_psets element) -> pset_name pset <> "__attributes__") ->
  (req_psetName r = "__attributes__" ->
   checkRequirement stringToNumber regExpTest (toValidateElement element) rule r
   = match req_checkType r with
     | CkExists | CkNotEmpty =>
         [ mkElementIssue (toValidateElement element) rule r MissingParam
             "Property should exist" "Property set not found" None ]
     | _ => []
     end)
  /\ (truthy (facet_pattern (ireq_facet req)) || truthy (facet_value (ireq_facet req))
      = true ->
      checkRequirement stringToNumber regExpTest (toValidateElement element) rule
        (attributeRequirement req) = []).
Proof.
  intros Hpsets.
  assert (forall r', req_psetName r' = "__attributes__" ->
            List.find (fun p => String.eqb (vpset_name p) (req_psetName r'))
              (ve_psets (toValidateElement element)) = None) as Hfind.
  { intros r' Hname. apply find_none_iff. intros p Hp.
    cbn [toValidateElement ve_psets] in Hp.
    apply in_map_iff in Hp as (pset & <- & Hin).
    rewrite Hname. apply String.eqb_neq. cbn [toValidatePset vpset_name].
    now apply Hpsets. }
  split.
  - intros Hname. unfold checkRequirement. now rewrite (Hfind r Hname).
  - intros Htruthy. unfold checkRequirement.
    rewrite (Hfind (attributeRequirement req)) by reflexivity.
    unfold attributeRequirement. cbn [req_checkType].
    destruct (truthy (facet_pattern (ireq_facet req))); [reflexivity|].
    destruct (truthy (facet_value (ireq_facet req))); [reflexivity|discriminate].
Qed.

End AttributeFacts.

(** ** A model as loaded ([loadFile]) and the validation of it
    ([ValidationService.validate]) *)

Lemma in_map_set m k v entry :
  In entry (map_set m k v) -> entry = (k, v) \/ In entry m.
Proof.
  unfold map_set, push. destruct (existsb (hasKey k) m).
  - intros H. apply in_update_first in H as [H | (x & _ & _ & ->)]; auto.
  - intros H. apply in_app_or in H as [H | [<- | []]]; auto.
Qed.

Lemma keys_map_set m k v :
  List.map fst (map_set m k v)
  = if existsb (hasKey k) m then List.map fst m else (List.map fst m ++ [k])%list.
Proof.
  unfold map_set, push. destruct (existsb (hasKey k) m).
  - induction m as [|a m IH]; simpl; [reflexivity|].
    unfold hasKey at 1. destruct (Z.eqb_spec (fst a) k) as [Hk|Hk]; simpl.
    + now rewrite Hk.
    + now rewrite IH.
  - now rewrite map_app.
Qed.

Lemma NoDup_map_set m k v :
  List.NoDup (List.map fst m) -> List.NoDup (List.map fst (map_set m k v)).
Proof.
  intros Hnd. rewrite keys_map_set.
  destruct (existsb (hasKey k) m) eqn:Hex; [assumption|].
  apply NoDup_app; [assumption | repeat constructor; intros [] |].
  intros x Hin [->|[]].
  apply in_map_iff in Hin as (entry & Hk & Hin).
  assert (existsb (hasKey x) m = true) as Hex'.
  { apply existsb_exists. exists entry. split; [assumption|].
    unfold hasKey. now apply Z.eqb_eq. }
  congruence.
Qed.

Section LoaderFacts.

Variable getDiscipline : string -> string.

Lemma loadElements_fold parsed m :
  let m' := fold_left (fun m p => map_set m (pe_expressID p) (loadElement getDiscipline p))
              parsed m in
  (List.NoDup (List.map fst m) -> List.NoDup (List.map fst m'))
  /\ forall entry, In entry m' ->
       In entry m
       \/ exists p, In p parsed /\ entry = (pe_expressID p, loadElement getDiscipline p).
Proof.
  revert m. induction parsed as [|p parsed IH]; intros m; cbn [fold_left].
  - split; [auto|]. intros entry H. now left.
  - destruct (IH (map_set m (pe_expressID p) (loadElement getDiscipline p))) as [IH1 IH2].
    split.
    + intros Hnd. apply IH1. now apply NoDup_map_set.
    + intros entry Hin. apply IH2 in Hin as [Hin | (q & Hq & ->)].
      * apply in_map_set in Hin as [-> | Hin]; [|now left].
        right. exists p. split; [now left|reflexivity].
      * right. exists q. split; [now right|reflexivity].
Qed.

Lemma loadElements_in parsed entry :
  In entry (loadElements getDiscipline parsed) ->
  exists p, In p parsed /\ entry = (pe_expressID p, loadElement getDiscipline p).
Proof.
  intros Hin. destruct (loadElements_fold parsed []) as [_ H].
  apply H in Hin as [[] | Hin]. exact Hin.
Qed.

Lemma loadFile_loaded text parsed : loaded (loadFile getDiscipline text parsed).
Proof.
  intros prop Hin. unfold propertiesOf, loadFile in Hin. cbn [elements] in Hin.
  apply in_flat_map in Hin as (entry & Hentry & Hin).
  apply loadElements_in in Hentry as (p & _ & ->). cbn [snd loadElement el_psets] in Hin.
  apply in_flat_map in Hin as (pset & Hpset & Hin).
  apply in_map_iff in Hpset as (ps & <- & _). cbn [loadPset pset_properties] in Hin.
  apply in_map_iff in Hin as (pp & <- & _). split; reflexivity.
Qed.

Lemma loadFile_wellKeyed text parsed : wellKeyed (loadFile getDiscipline text parsed).
Proof.
  split.
  - destruct (loadElements_fold parsed []) as [H _]. apply H. constructor.
  - intros entry Hin. cbn [loadFile elements] in Hin.
    apply loadElements_in in Hin as (p & _ & ->). reflexivity.
Qed.

Lemma loadFile_editableByName text parsed :
  editableByName (loadFile getDiscipline text parsed).
Proof.
  intros entry pset Hentry Hpset. cbn [loadFile elements] in Hentry.
  apply loadElements_in in Hentry as (p & _ & ->). cbn [snd loadElement el_psets] in Hpset.
  apply in_map_iff in Hpset as (ps & <- & _). reflexivity.
Qed.

End LoaderFacts.

Lemma loaded_noPendingEdit st : loaded st -> noPendingEdit st.
Proof.
  intros Hl entry pset prop Hentry Hpset _ Hprop [Hmod _].
  destruct (Hl prop) as [Hm _]; [|congruence].
  unfold propertiesOf. apply in_flat_map. exists entry. split; [assumption|].
  apply in_flat_map. eauto.
Qed.

Lemma loaded_no_modifications st : loaded st -> hasModifications st = false.
Proof.
  intros Hl. destruct (hasModifications st) eqn:H; [|reflexivity].
  apply hasModifications_iff in H as (prop & Hin & Hmod).
  destruct (Hl prop Hin). congruence.
Qed.

Lemma in_update_first_found {A : Type} (p : A -> bool) (f : A -> A) (l : list A)
  (y : A) :
  In y (update_first p f l) ->
  In y l \/ exists x, List.find p l = Some x /\ y = f x.
Proof.
  induction l as [|a l IH]; simpl; [intros []|].
  destruct (p a) eqn:Hpa; simpl.
  - intros [<-|Hy]; [right; exists a; auto | left; now right].
  - intros [<-|Hy]; [left; now left|].
    destruct (IH Hy) as [Hin | Hx]; [left; now right | now right].
Qed.

Lemma updatePropertyValue_elements st elementID psetName propertyName value entry :
  In entry (elements (updatePropertyValue st elementID psetName propertyName value)) ->
  exists entry0,
    In entry0 (elements st) /\ fst entry = fst entry0
    /\ el_expressID (snd entry) = el_expressID (snd entry0)
    /\ forall pset, In pset (el_psets (snd entry)) ->
         exists pset0, In pset0 (el_psets (snd entry0))
                       /\ pset_name pset = pset_name pset0
                       /\ pset_isEditable pset = pset_isEditable pset0.
Proof.
  assert (forall e, In e (elements st) ->
            exists entry0,
              In entry0 (elements st) /\ fst e = fst entry0
              /\ el_expressID (snd e) = el_expressID (snd entry0)
              /\ forall pset, In pset (el_psets (snd e)) ->
                   exists pset0, In pset0 (el_psets (snd entry0))
                                 /\ pset_name pset = pset_name pset0
                                 /\ pset_isEditable pset = pset_isEditable pset0) as Hsame.
  { intros e He. exists e. repeat split; try assumption. intros pset Hp. eauto. }
  unfold updatePropertyValue.
  destruct (List.find (hasKey elementID) (elements st)) as [[k el]|] eqn:Hel;
    [|apply Hsame].
  destruct (List.find (psetNamed psetName) (el_psets el)) as [pset|] eqn:Hpset;
    [|apply Hsame].
  destruct (List.find (propNamed propertyName) (pset_properties pset)) as [p0|] eqn:Hp;
    [|apply Hsame].
  cbn [elements]. intros Hin.
  apply in_update_first_found in Hin as [Hin | (entry0 & Hfound & ->)];
    [now apply Hsame|].
  rewrite Hel in Hfound. injection Hfound as <-.
  apply find_some in Hel as [Hel _].
  exists (k, el). split; [assumption|]. split; [reflexivity|]. split; [reflexivity|].
  cbn [fst snd setPsets el_psets]. intros ps Hps.
  apply in_update_first in Hps as [Hps | (ps0 & Hps0 & _ & ->)]; eauto.
Qed.

Lemma updatePropertyValue_wellKeyed st elementID psetName propertyName value :
  wellKeyed st ->
  wellKeyed (updatePropertyValue st elementID psetName propertyName value).
Proof.
  intros [Hnd Hkey]. split.
  - now rewrite updatePropertyValue_keys.
  - intros entry Hin.
    apply updatePropertyValue_elements in Hin as (entry0 & Hin & Hfst & Hid & _).
    rewrite Hfst, Hid. now apply Hkey.
Qed.

Lemma applyEdits_invariant (P : ModelState -> Prop) (edits : list Edit)
  (st : ModelState) :
  P st ->
  (forall s elementID psetName propertyName value,
     P s -> P (updatePropertyValue s elementID psetName propertyName value)) ->
  P (applyEdits edits st).
Proof.
  intros H0 Hstep. unfold applyEdits. revert st H0.
  induction edits as [|[[[k ps] pn] v] edits IH]; intros st H0; simpl; [assumption|].
  apply IH. now apply Hstep.
Qed.

Lemma updatePropertyValue_editableByName st elementID psetName propertyName value :
  editableByName st ->
  editableByName (updatePropertyValue st elementID psetName propertyName value).
Proof.
  intros He entry pset Hentry Hpset.
  apply updatePropertyValue_elements in Hentry as (entry0 & Hin & _ & _ & Hpsets).
  apply Hpsets in Hpset as (pset0 & Hin0 & -> & ->). now apply (He entry0).
Qed.

Lemma updatePropertyValue_text st elementID psetName propertyName value :
  originalIfcText (updatePropertyValue st elementID psetName propertyName value)
  = originalIfcText st.
Proof.
  unfold updatePropertyValue.
  destruct (List.find (hasKey elementID) (elements st)) as [[k el]|]; [|reflexivity].
  destruct (List.find (psetNamed psetName) (el_psets el)) as [pset|]; [|reflexivity].
  now destruct (List.find (propNamed propertyName) (pset_properties pset)).
Qed.

Lemma collectModifiedProperties_in st patch :
  In patch (collectModifiedProperties st) ->
  exists entry pset prop,
    In entry (elements st) /\ In pset (el_psets (snd entry))
    /\ In prop (pset_properties pset)
    /\ pset_isEditable pset = true
    /\ prop_modified prop = true
    /\ strict_neq (prop_value prop) (prop_originalValue prop) = true
    /\ patch = patchOf pset prop.
Proof.
  unfold collectModifiedProperties, collectFromElement, collectFromPset.
  intros Hin. apply in_flat_map in Hin as (entry & Hentry & Hin).
  apply in_flat_map in Hin as (pset & Hpset & Hin).
  destruct (pset_isEditable pset) eqn:Hed; [|destruct Hin].
  cbn [negb] in Hin. apply in_map_iff in Hin as (prop & <- & Hin).
  apply filter_In in Hin as [Hin Hmod].
  unfold isModifiedProperty in Hmod. apply andb_true_iff in Hmod as [Hm Hneq].
  exists entry, pset, prop. repeat split; assumption.
Qed.

Section LoadedModel.

Variable getDiscipline : string -> string.

(** X19: the model store right after a load has no modified property
    and every value is its original value; the keys of the elements
    are distinct and each is the express id of its element; a property
    set is editable exactly when its name matches [isPsetCommon];
    [hasModifications] is false and no patch is collected; and the
    export of it is the text of the file as it was read, with or
    without a forced rewrite, unless that text is empty, in which case
    the export throws. *)
Theorem loadFile_state (text : string) (parsed : list ParsedElement)
  (forceRewrite : bool) :
  let st := loadFile getDiscipline text parsed in
  loaded st /\ wellKeyed st /\ editableByName st
  /\ hasModifications st = false
  /\ collectModifiedProperties st = []
  /\ (text <> "" -> exportModifiedIfc st forceRewrite = Blob text)
  /\ (text = "" ->
      exportModifiedIfc st forceRewrite
      = Throws "No original IFC text available for export").
Proof.
  cbv zeta.
  pose proof (loadFile_loaded getDiscipline text parsed) as Hl.
  assert (collectModifiedProperties (loadFile getDiscipline text parsed) = []) as Hnil
    by (apply collectModifiedProperties_nil; now apply loaded_noPendingEdit).
  split; [assumption|]. split; [apply loadFile_wellKeyed|].
  split; [apply loadFile_editableByName|].
  split; [now apply loaded_no_modifications|]. split; [assumption|]. split.
  - intros Hne. unfold exportModifiedIfc. rewrite Hnil.
    cbn [loadFile originalIfcText]. destruct text; [contradiction|reflexivity].
  - intros ->. reflexivity.
Qed.

(** X20: whatever writes follow a load, the original text, the keys of
    the elements and the editable flags stay as loaded, and every patch
    the export collects is for a property set whose name matches
    [isPsetCommon], with the formatted value of a property as it was
    loaded as its old value. *)
Theorem applyEdits_patches (text : string) (parsed : list ParsedElement)
  (edits : list Edit) :
  let st0 := loadFile getDiscipline text parsed in
  let st := applyEdits edits st0 in
  originalIfcText st = Some text
  /\ List.map fst (elements st) = List.map fst (elements st0)
  /\ wellKeyed st /\ editableByName st
  /\ forall patch, In patch (collectModifiedProperties st) ->
       isPsetCommon (patch_psetName patch) = true
       /\ exists prop0, In prop0 (propertiesOf st0)
            /\ patch_expressID patch = prop_expressID prop0
            /\ patch_propertyName patch = prop_name prop0
            /\ patch_oldValue patch = formatIfcValue (prop_value prop0).
Proof.
  cbv zeta. set (st0 := loadFile getDiscipline text parsed).
  split; [|split; [|split; [|split]]].
  - apply (applyEdits_invariant (fun s => originalIfcText s = Some text));
      [reflexivity|].
    intros s k ps pn v H. now rewrite updatePropertyValue_text.
  - apply (applyEdits_invariant
             (fun s => List.map fst (elements s) = List.map fst (elements st0)));
      [reflexivity|].
    intros s k ps pn v H. now rewrite updatePropertyValue_keys.
  - apply applyEdits_invariant; [apply loadFile_wellKeyed|].
    intros s k ps pn v. apply updatePropertyValue_wellKeyed.
  - apply applyEdits_invariant; [apply loadFile_editableByName|].
    intros s k ps pn v. apply updatePropertyValue_editableByName.
  - intros patch Hin.
    apply collectModifiedProperties_in in Hin
      as (entry & pset & prop & Hentry & Hpset & Hprop & Hed & _ & _ & ->).
    split.
    + assert (editableByName (applyEdits edits st0)) as He.
      { apply applyEdits_invariant; [apply loadFile_editableByName|].
        intros s k ps pn v. apply updatePropertyValue_editableByName. }
      cbn [patchOf patch_psetName]. now rewrite <- (He entry pset Hentry Hpset).
    + set (key := fun p => (prop_name p, prop_expressID p, prop_type p,
                             prop_originalValue p)).
      assert (List.map key (propertiesOf (applyEdits edits st0))
              = List.map key (propertiesOf st0)) as Hmap.
      { apply (applyEdits_invariant
                 (fun s => List.map key (propertiesOf s) = List.map key (propertiesOf st0)));
          [reflexivity|].
        intros s k ps pn v H. rewrite <- H. now apply propertiesOf_update_map. }
      assert (In (key prop) (List.map key (propertiesOf (applyEdits edits st0)))) as Hk.
      { apply in_map. unfold propertiesOf. apply in_flat_map.
        exists entry. split; [assumption|]. apply in_flat_map. eauto. }
      rewrite Hmap in Hk. apply in_map_iff in Hk as (prop0 & Hkey & Hin0).
      unfold key in Hkey. injection Hkey as Hn Hid _ Ho.
      exists prop0. split; [assumption|]. cbn [patchOf patch_expressID
        patch_propertyName patch_oldValue].
      destruct (loadFile_loaded getDiscipline text parsed prop0 Hin0) as [_ Hv].
      repeat split; congruence.
Qed.

End LoadedModel.

Lemma filter_map_length {A B : Type} (f : A -> B) (p : B -> bool) (l : list A) :
  List.length (List.filter p (List.map f l))
  = List.length (List.filter (fun x => p (f x)) l).
Proof.
  induction l as [|a l IH]; simpl; [reflexivity|].
  destruct (p (f a)); simpl; now rewrite IH.
Qed.

Lemma filter_unique {A : Type} (g : A -> Z) (l : list A) (x : A) :
  List.NoDup (List.map g l) -> In x l ->
  List.filter (fun y => g y =? g x) l = [ x ].
Proof.
  induction l as [|a l IH]; simpl; [intros _ []|].
  intros Hnd Hin. inversion Hnd as [|? ? Hnot Hrest]; subst.
  destruct Hin as [-> | Hin].
  - rewrite Z.eqb_refl. f_equal.
    apply filter_nil_iff. intros y Hy. apply Z.eqb_neq. intros Heq.
    apply Hnot. rewrite <- Heq. now apply in_map.
  - destruct (Z.eqb_spec (g a) (g x)) as [Heq|_]; [|now apply IH].
    exfalso. apply Hnot. rewrite Heq. now apply in_map.
Qed.

Section ValidateFacts.

Variable stringToNumber : string -> Num.number.
Variable regExpTest : string -> string -> option bool.

(** X21: the validation of a model without elements throws
    [No model loaded]; of any other model whose keys are distinct and
    are the express ids of the elements it gives a result that counts
    every element, counts as passed the elements for which no rule of
    the pack gives an issue on their current values, and from which the
    validation store gives, for the key of an element, the issues of
    that element and no other. *)
Theorem validate_model (st : ModelState) (rulePack : RulePack) :
  (elements st = [] ->
   validate stringToNumber regExpTest st rulePack = ValidateThrows "No model loaded")
  /\ (elements st <> [] -> wellKeyed st ->
      exists res,
        validate stringToNumber regExpTest st rulePack = Validated res
        /\ res_totalElements res = Z.of_nat (List.length (elements st))
        /\ res_passed res
           = Z.of_nat (List.length
               (List.filter
                  (fun entry => passes stringToNumber regExpTest (pack_rules rulePack)
                                  (toValidateElement (snd entry)))
                  (elements st)))
        /\ forall k el, In (k, el) (elements st) ->
             getIssuesForElement (Some res) k
             = issuesOf stringToNumber regExpTest (pack_rules rulePack)
                 (toValidateElement el)).
Proof.
  split.
  - intros H. unfold validate. now rewrite H.
  - intros Hne [Hnd Hkey]. unfold validate.
    destruct (Nat.eqb_spec (List.length (elements st)) 0) as [Hz|_].
    { apply length_zero_iff_nil in Hz. contradiction. }
    set (ves := List.map (fun entry => toValidateElement (snd entry)) (elements st)).
    assert (List.map ve_expressID ves = List.map fst (elements st)) as Hids.
    { unfold ves. rewrite map_map. apply map_ext_in. intros entry Hin.
      cbn [toValidateElement ve_expressID]. now apply Hkey. }
    assert (List.NoDup (List.map ve_expressID ves)) as Hnd' by now rewrite Hids.
    eexists. split; [reflexivity|].
    rewrite runValidation_fold. cbv zeta.
    cbn [res_totalElements res_passed res_issues]. split; [|split].
    + unfold ves. now rewrite length_map.
    + rewrite size_list_to_set
        by (apply NoDup_ListNoDup, NoDup_map_filter; exact Hnd').
      rewrite length_map.
      pose proof (filter_split_length
                    (passes stringToNumber regExpTest (pack_rules rulePack)) ves) as Hs.
      unfold ves at 1 in Hs. rewrite filter_map_length in Hs.
      unfold ves in *. rewrite length_map in *. lia.
    + intros k el Hin. unfold getIssuesForElement. cbn [res_issues].
      rewrite filter_run_issues.
      assert (In (toValidateElement el) ves) as Hve
        by (unfold ves; apply in_map_iff; exists (k, el); auto).
      assert (k = ve_expressID (toValidateElement el)) as ->
        by (symmetry; apply (Hkey (k, el) Hin)).
      rewrite (filter_unique ve_expressID ves _ Hnd' Hve).
      cbn [flat_map]. now rewrite app_nil_r.
Qed.

End ValidateFacts.

(** ** The matcher and the texts of a pattern *)

Lemma ahead_refl (st : Regex.mstate) : ahead st "" st.
Proof. split; [reflexivity|simpl; lia]. Qed.

Lemma ahead_trans (st1 st2 st3 : Regex.mstate) (s t : string) :
  ahead st1 s st2 -> ahead st2 t st3 -> ahead st1 (s ++ t) st3.
Proof.
  intros [H1 H1'] [H2 H2']. split.
  - now rewrite H1, H2, str_app_assoc.
  - rewrite H2', H1', str_length_app. lia.
Qed.

Lemma star_loop_sound (a : Regex.regex) :
  (forall st k res, Regex.rmatch a st k = Some res ->
     exists s st', ahead st s st' /\ lang a s
       /\ (groupfree a = true -> Regex.m_caps st' = Regex.m_caps st)
       /\ k st' = Some res) ->
  forall fuel st k res,
    Regex.star_loop (Regex.rmatch a) k fuel st = Some res ->
    exists s st', ahead st s st' /\ lang (Regex.Star a) s
      /\ (groupfree a = true -> Regex.m_caps st' = Regex.m_caps st)
      /\ k st' = Some res.
Proof.
  intros Hbody. induction fuel as [|fuel IH]; intros st k res; cbn [Regex.star_loop].
  - intros H. exists "", st. split; [apply ahead_refl|].
    split; [constructor|]. split; [reflexivity|assumption].
  - destruct (Regex.rmatch a st _) as [res'|] eqn:Hround.
    + intros [= <-]. apply Hbody in Hround as (s & st1 & Ha & Hl & Hc & Hk).
      destruct (Regex.m_pos st1 =? Regex.m_pos st)%nat; [discriminate|].
      apply IH in Hk as (t & st2 & Ha' & Hl' & Hc' & Hk').
      exists (s ++ t), st2. split; [now apply (ahead_trans _ st1)|].
      split; [now constructor|]. split; [|assumption].
      intros Hg. now rewrite Hc', Hc.
    + intros H. exists "", st. split; [apply ahead_refl|].
      split; [constructor|]. split; [reflexivity|assumption].
Qed.

Lemma rmatch_sound (r : Regex.regex) :
  forall st k res, Regex.rmatch r st k = Some res ->
    exists s st', ahead st s st' /\ lang r s
      /\ (groupfree r = true -> Regex.m_caps st' = Regex.m_caps st)
      /\ k st' = Some res.
Proof.
  induction r as [|p|a IHa b IHb|a IHa b IHb|a IHa|i a IHa| |];
    intros st k res; cbn [Regex.rmatch groupfree].
  - intros H. exists "", st. split; [apply ahead_refl|].
    split; [constructor|]. split; [reflexivity|assumption].
  - destruct (Regex.m_rest st) as [|c s'] eqn:Hrest; [discriminate|].
    destruct (p c) eqn:Hp; [|discriminate]. intros H.
    exists (String c ""), (Regex.advance c s' st). split.
    + split; [exact Hrest|]. cbn. lia.
    + split; [now constructor|]. split; [reflexivity|assumption].
  - intros H. apply IHa in H as (s & st1 & Ha & Hl & Hc & Hk).
    apply IHb in Hk as (t & st2 & Ha' & Hl' & Hc' & Hk').
    exists (s ++ t), st2. split; [now apply (ahead_trans _ st1)|].
    split; [now constructor|]. split; [|assumption].
    intros Hg. apply andb_true_iff in Hg as [Hga Hgb]. now rewrite Hc', Hc.
  - destruct (Regex.rmatch a st k) as [res'|] eqn:Hleft.
    + intros [= <-]. apply IHa in Hleft as (s & st1 & Ha & Hl & Hc & Hk).
      exists s, st1. split; [assumption|]. split; [now apply lang_alt_l|].
      split; [|assumption]. intros Hg. apply andb_true_iff in Hg as [Hga _]. auto.
    + intros H. apply IHb in H as (s & st1 & Ha & Hl & Hc & Hk).
      exists s, st1. split; [assumption|]. split; [now apply lang_alt_r|].
      split; [|assumption]. intros Hg. apply andb_true_iff in Hg as [_ Hgb]. auto.
  - apply (star_loop_sound a IHa).
  - intros H. apply IHa in H as (s & st1 & [Ha Ha'] & Hl & _ & Hk).
    exists s, (Regex.set_cap i st st1). split; [split; assumption|].
    split; [now constructor|]. split; [discriminate|assumption].
  - destruct (Regex.m_pos st =? 0)%nat; [|discriminate]. intros H.
    exists "", st. split; [apply ahead_refl|].
    split; [constructor|]. split; [reflexivity|assumption].
  - destruct (Regex.m_rest st); [|discriminate]. intros H.
    exists "", st. split; [apply ahead_refl|].
    split; [constructor|]. split; [reflexivity|assumption].
Qed.

(** A group: the capture is the text the group read. *)
Lemma rmatch_group_sound (i : nat) (a : Regex.regex) :
  groupfree a = true ->
  forall st k res, Regex.rmatch (Regex.Group i a) st k = Some res ->
    exists s st', ahead st s st' /\ lang a s
      /\ Regex.m_caps st' = (i, s) :: Regex.m_caps st
      /\ k st' = Some res.
Proof.
  intros Hg st k res. cbn [Regex.rmatch]. intros H.
  apply rmatch_sound in H as (s & st1 & [Ha Ha'] & Hl & Hc & Hk).
  exists s, (Regex.set_cap i st st1). split; [split; assumption|].
  split; [assumption|]. split; [|assumption].
  unfold Regex.set_cap. cbn [Regex.m_caps]. rewrite (Hc Hg). f_equal. f_equal.
  rewrite Ha, Ha'. replace (Regex.m_pos st + String.length s - Regex.m_pos st)%nat
    with (String.length s) by lia.
  apply str_take_app.
Qed.

Lemma search_bol (r : Regex.regex) (pos : nat) (s : string) :
  Regex.search (Regex.Seq Regex.Bol r) (S pos) s = None.
Proof.
  revert pos. induction s as [|c s IH]; intros pos; cbn; [reflexivity|apply IH].
Qed.

Lemma exec_bol (r : Regex.regex) (s : string) :
  Regex.exec (Regex.Seq Regex.Bol r) s
  = match Regex.rmatch r {| Regex.m_pos := 0; Regex.m_rest := s; Regex.m_caps := [] |}
            Some with
    | Some st => Some (O, st)
    | None => None
    end.
Proof.
  unfold Regex.exec. destruct s as [|c s]; cbn [Regex.search Regex.rmatch Regex.m_pos Nat.eqb].
  - now destruct (Regex.rmatch r _ Some).
  - destruct (Regex.rmatch r _ Some); [reflexivity|apply search_bol].
Qed.

Lemma lang_lit (c : ascii) (s : string) : lang (Regex.lit c) s -> s = String c "".
Proof.
  unfold Regex.lit. intros H. inversion H as [|p c' Hp| | | | | | | |]; subst.
  apply Ascii.eqb_eq in Hp. now subst.
Qed.

Lemma lang_word (w s : string) : lang (word w) s -> s = w.
Proof.
  revert s. induction w as [|c w IH]; intros s; cbn [word].
  - intros H. now inversion H.
  - destruct w as [|d w].
    + apply lang_lit.
    + intros H. inversion H as [| |a b s1 s2 H1 H2| | | | | | |]; subst.
      apply lang_lit in H1. apply IH in H2. now subst.
Qed.

Lemma lang_star_chr (p : ascii -> bool) (s : string) :
  lang (Regex.Star (Regex.Chr p)) s -> str_forall p s = true.
Proof.
  intros H. remember (Regex.Star (Regex.Chr p)) as r eqn:Hr.
  induction H as [| | | | | |a s t Ha _ Hs IH| | |]; try discriminate.
  - reflexivity.
  - injection Hr as ->. inversion Ha as [|q c Hq| | | | | | | |]; subst.
    cbn. rewrite Hq. now apply IH.
Qed.

Lemma lang_plus_chr (p : ascii -> bool) (s : string) :
  lang (Regex.Plus (Regex.Chr p)) s ->
  exists c t, s = String c t /\ p c = true /\ str_forall p t = true.
Proof.
  unfold Regex.Plus. intros H.
  inversion H as [| |a b s1 s2 H1 H2| | | | | | |]; subst.
  inversion H1 as [|q c Hq| | | | | | | |]; subst.
  apply lang_star_chr in H2. exists c, s2. auto.
Qed.

(** *** Matches that are sure to be found *)

Lemma rmatch_lit_complete (c : ascii) (st : Regex.mstate) (rest : string)
  (k : Regex.mstate -> option Regex.mstate) :
  Regex.m_rest st = String c rest ->
  Regex.rmatch (Regex.lit c) st k = k (Regex.advance c rest st).
Proof.
  intros H. unfold Regex.lit. cbn [Regex.rmatch]. rewrite H.
  now rewrite Ascii.eqb_refl.
Qed.

Lemma rmatch_word_complete (w : string) :
  forall st rest k,
    Regex.m_rest st = w ++ rest ->
    (forall st', Regex.m_rest st' = rest -> k st' <> None) ->
    Regex.rmatch (word w) st k <> None.
Proof.
  induction w as [|c w IH]; intros st rest k Hrest Hk; cbn [word].
  - cbn [Regex.rmatch]. now apply Hk.
  - destruct w as [|d w].
    + rewrite (rmatch_lit_complete c st rest) by exact Hrest. now apply Hk.
    + cbn [Regex.rmatch]. fold (Regex.lit c).
      rewrite (rmatch_lit_complete c st (String d w ++ rest)) by exact Hrest.
      now apply (IH _ rest).
Qed.

Lemma star_chr_complete (p : ascii -> bool) (k : Regex.mstate -> option Regex.mstate)
  (rest : string) :
  (forall st', Regex.m_rest st' = rest -> k st' <> None) ->
  forall fuel st x,
    Regex.m_rest st = x ++ rest -> str_forall p x = true ->
    (String.length x <= fuel)%nat ->
    Regex.star_loop (Regex.rmatch (Regex.Chr p)) k fuel st <> None.
Proof.
  intros Hk. induction fuel as [|fuel IH]; intros st x Hrest Hx Hlen;
    cbn [Regex.star_loop].
  - destruct x; [|simpl in Hlen; lia]. now apply Hk.
  - destruct x as [|c x].
    + destruct (Regex.rmatch _ st _); [discriminate|]. now apply Hk.
    + cbn [Regex.rmatch]. rewrite Hrest. cbn [String.append].
      cbn [str_forall] in Hx. apply andb_true_iff in Hx as [Hc Hx]. rewrite Hc.
      cbn [Regex.advance Regex.m_pos].
      destruct (Nat.eqb_spec (S (Regex.m_pos st)) (Regex.m_pos st)) as [Heq|_]; [lia|].
      destruct (Regex.star_loop _ k fuel _) eqn:Hloop; [discriminate|].
      exfalso. revert Hloop. apply (IH _ x); [reflexivity|assumption|].
      simpl in Hlen. lia.
Qed.

Lemma plus_chr_complete (p : ascii -> bool) (k : Regex.mstate -> option Regex.mstate)
  (rest : string) (st : Regex.mstate) (c : ascii) (x : string) :
  (forall st', Regex.m_rest st' = rest -> k st' <> None) ->
  Regex.m_rest st = String c x ++ rest -> p c = true -> str_forall p x = true ->
  Regex.rmatch (Regex.Plus (Regex.Chr p)) st k <> None.
Proof.
  intros Hk Hrest Hc Hx. unfold Regex.Plus. cbn [Regex.rmatch].
  rewrite Hrest. cbn [String.append]. rewrite Hc.
  apply (star_chr_complete p k rest Hk _ _ x); [reflexivity|assumption|].
  cbn [Regex.advance Regex.m_rest]. rewrite str_length_app. lia.
Qed.

(** ** Property sets that can be edited ([isPsetCommon]) *)

(** X22: a property set name is that of an editable set exactly when it
    is [Pset_], then one or more letters, digits or underscores, then
    [Common], with nothing before or after. *)
Theorem isPsetCommon_iff (psetName : string) :
  isPsetCommon psetName = true
  <-> exists x, psetName = "Pset_" ++ x ++ "Common"
                /\ x <> "" /\ str_forall is_word x = true.
Proof.
  unfold isPsetCommon, Regex.test, PSET_COMMON_REGEX. cbn [Regex.seq].
  rewrite exec_bol. split.
  - destruct (Regex.rmatch _ _ Some) as [res|] eqn:Hm; [intros _|discriminate].
    cbn [Regex.rmatch] in Hm.
    change (Regex.rmatch (word "Pset_")
              {| Regex.m_pos := 0; Regex.m_rest := psetName; Regex.m_caps := [] |}
              (fun st1 => Regex.rmatch (Regex.Plus (Regex.Chr is_word)) st1
                 (fun st2 => Regex.rmatch (word "Common") st2
                    (fun st3 => Regex.rmatch Regex.Eol st3 Some))) = Some res) in Hm.
    apply rmatch_sound in Hm as (s1 & st1 & [H1 _] & L1 & _ & Hm).
    apply rmatch_sound in Hm as (s2 & st2 & [H2 _] & L2 & _ & Hm).
    apply rmatch_sound in Hm as (s3 & st3 & [H3 _] & L3 & _ & Hm).
    cbn [Regex.rmatch] in Hm. destruct (Regex.m_rest st3) eqn:H4; [|discriminate].
    apply lang_word in L1, L3. apply lang_plus_chr in L2 as (c & t & -> & Hc & Ht).
    cbn [Regex.m_rest] in H1. subst s1 s3.
    exists (String c t). split; [|split].
    + rewrite H1, H2, H3. now rewrite str_app_nil_r.
    + discriminate.
    + cbn. now rewrite Hc, Ht.
  - intros (x & -> & Hne & Hx). destruct x as [|c x]; [contradiction|].
    cbn [str_forall] in Hx. apply andb_true_iff in Hx as [Hc Hx].
    destruct (Regex.rmatch _ _ Some) eqn:Hm; [reflexivity|]. exfalso. revert Hm.
    change (Regex.rmatch (word "Pset_")
              {| Regex.m_pos := 0;
                 Regex.m_rest := "Pset_" ++ String c x ++ "Common";
                 Regex.m_caps := [] |}
              (fun st1 => Regex.rmatch (Regex.Plus (Regex.Chr is_word)) st1
                 (fun st2 => Regex.rmatch (word "Common") st2
                    (fun st3 => Regex.rmatch Regex.Eol st3 Some))) <> None).
    apply (rmatch_word_complete "Pset_" _ (String c x ++ "Common")); [reflexivity|].
    intros st1 H1.
    apply (plus_chr_complete is_word _ "Common" st1 c x); try assumption.
    intros st2 H2.
    apply (rmatch_word_complete "Common" _ ""); [now rewrite H2|].
    intros st3 H3. cbn [Regex.rmatch]. now rewrite H3.
Qed.

(** ** The rewrite of a record ([rebuildPropertyLine], [rewriteExport]) *)

Lemma re_property_line_groups :
  re_property_line
  = Regex.Seq Regex.Bol
      (Regex.Seq (Regex.Group 1 re_line_prefix)
         (Regex.Seq (Regex.Group 2 re_line_value)
            (Regex.Seq (Regex.Group 3 re_line_suffix) Regex.Eol))).
Proof. reflexivity. Qed.

Lemma rmatch_seq (a b : Regex.regex) (st : Regex.mstate)
  (k : Regex.mstate -> option Regex.mstate) :
  Regex.rmatch (Regex.Seq a b) st k
  = Regex.rmatch a st (fun st' => Regex.rmatch b st' k).
Proof. reflexivity. Qed.

Lemma exec_three_groups (A B C : Regex.regex) (line : string) (i : nat)
  (m : Regex.mstate) :
  groupfree A = true -> groupfree B = true -> groupfree C = true ->
  Regex.exec
    (Regex.Seq Regex.Bol
       (Regex.Seq (Regex.Group 1 A)
          (Regex.Seq (Regex.Group 2 B) (Regex.Seq (Regex.Group 3 C) Regex.Eol))))
    line = Some (i, m) ->
  exists c1 c2 c3,
    line = c1 ++ c2 ++ c3 /\ lang A c1 /\ lang B c2 /\ lang C c3
    /\ Regex.m_caps m = [ (3%nat, c3); (2%nat, c2); (1%nat, c1) ].
Proof.
  intros HA HB HC. rewrite exec_bol.
  destruct (Regex.rmatch _ _ Some) as [res|] eqn:Hm; [|discriminate].
  intros [= _ <-].
  rewrite rmatch_seq in Hm.
  apply (rmatch_group_sound 1 A HA) in Hm as (c1 & st1 & [H1 _] & L1 & C1 & Hm).
  cbv beta in Hm. rewrite rmatch_seq in Hm.
  apply (rmatch_group_sound 2 B HB) in Hm as (c2 & st2 & [H2 _] & L2 & C2 & Hm).
  cbv beta in Hm. rewrite rmatch_seq in Hm.
  apply (rmatch_group_sound 3 C HC) in Hm as (c3 & st3 & [H3 _] & L3 & C3 & Hm).
  cbv beta in Hm. cbn [Regex.rmatch] in Hm.
  destruct (Regex.m_rest st3) eqn:H4; [|discriminate]. injection Hm as <-.
  exists c1, c2, c3. cbn [Regex.m_rest Regex.m_caps] in *.
  split; [|split; [assumption|split; [assumption|split; [assumption|]]]].
  - rewrite H1, H2, H3. now rewrite str_app_nil_r.
  - now rewrite C3, C2, C1.
Qed.

Lemma rebuildPropertyLine_groups (line newValue out : string) :
  rebuildPropertyLine line newValue = Some out ->
  exists prefix value suffix,
    line = prefix ++ value ++ suffix
    /\ lang re_line_prefix prefix /\ lang re_line_value value
    /\ lang re_line_suffix suffix
    /\ out = prefix ++ wrapValue newValue ++ suffix.
Proof.
  unfold rebuildPropertyLine. rewrite re_property_line_groups.
  destruct (Regex.exec _ line) as [[i m]|] eqn:Hexec; [|discriminate].
  apply exec_three_groups in Hexec as (c1 & c2 & c3 & Hline & L1 & L2 & L3 & Hcaps);
    try reflexivity.
  rewrite Hcaps. cbn [Regex.capture Nat.eqb]. intros [= <-].
  exists c1, c2, c3. repeat split; assumption.
Qed.

Lemma count_app (c : ascii) (a b : string) :
  count c (a ++ b) = (count c a + count c b)%nat.
Proof. induction a as [|d a IH]; simpl; [reflexivity|]. rewrite IH. lia. Qed.

Lemma lang_rejects (c : ascii) (r : Regex.regex) (s : string) :
  lang r s -> rejects c r = true -> count c s = O.
Proof.
  intros H. induction H as [|p d Hp|a b s t _ IHa _ IHb|a b s _ IH|a b s _ IH|a
                            |a s t _ IHa _ IHs|i a s _ IH| |];
    cbn [rejects]; intros Hrej; try reflexivity.
  - cbn. destruct (Ascii.eqb_spec d c) as [-> | _]; [|reflexivity].
    rewrite Hp in Hrej. discriminate.
  - apply andb_true_iff in Hrej as [Ha Hb]. rewrite count_app, IHa, IHb; auto.
  - apply andb_true_iff in Hrej as [Ha _]. auto.
  - apply andb_true_iff in Hrej as [_ Hb]. auto.
  - rewrite count_app, IHa, IHs; auto.
  - auto.
Qed.

Lemma lang_seq_inv (a b : Regex.regex) (s : string) :
  lang (Regex.Seq a b) s -> exists s1 s2, s = s1 ++ s2 /\ lang a s1 /\ lang b s2.
Proof.
  intros H. inversion H as [| |a' b' s1 s2 H1 H2| | | | | | |]; subst. eauto.
Qed.

Lemma lang_opt_inv (a : Regex.regex) (s : string) :
  lang (Regex.Opt a) s -> lang a s \/ s = "".
Proof.
  unfold Regex.Opt. intros H.
  inversion H as [| | |a' b' s' H1|a' b' s' H1| | | | |]; subst; [now left|].
  right. now inversion H1.
Qed.

Lemma lang_lit_i (c : ascii) (s : string) :
  lang (Regex.lit_i c) s ->
  exists d, s = String d "" /\ Regex.canonicalize d = Regex.canonicalize c.
Proof.
  unfold Regex.lit_i. intros H. inversion H as [|p d Hp| | | | | | | |]; subst.
  exists d. split; [reflexivity|]. now apply N.eqb_eq in Hp.
Qed.

Lemma canonicalize_comma (d : ascii) :
  Regex.canonicalize d = Regex.canonicalize "," -> d = ","%char.
Proof.
  destruct d as [[] [] [] [] [] [] [] []]; vm_compute; intros H;
    try reflexivity; discriminate.
Qed.

Lemma canonicalize_open (d : ascii) :
  Regex.canonicalize d = Regex.canonicalize "(" -> d = "("%char.
Proof.
  destruct d as [[] [] [] [] [] [] [] []]; vm_compute; intros H;
    try reflexivity; discriminate.
Qed.

Lemma canonicalize_close (d : ascii) :
  Regex.canonicalize d = Regex.canonicalize ")" -> d = ")"%char.
Proof.
  destruct d as [[] [] [] [] [] [] [] []]; vm_compute; intros H;
    try reflexivity; discriminate.
Qed.

Lemma canonicalize_hash (d : ascii) :
  Regex.canonicalize d = Regex.canonicalize "#" -> d = "#"%char.
Proof.
  destruct d as [[] [] [] [] [] [] [] []]; vm_compute; intros H;
    try reflexivity; discriminate.
Qed.

Lemma split_count (c : ascii) (a x a' x' : string) :
  a ++ String c x = a' ++ String c x' -> count c a = O -> count c a' = O ->
  a = a' /\ x = x'.
Proof.
  revert a'. induction a as [|d a IH]; intros [|d' a']; cbn.
  - intros [= ->]. auto.
  - intros [= <- _] _. rewrite Ascii.eqb_refl. discriminate.
  - intros [= -> _]. rewrite Ascii.eqb_refl. discriminate.
  - intros [= -> H]. destruct (Ascii.eqb d' c); [discriminate|]. cbn.
    intros Ha Ha'. destruct (IH a' H Ha Ha') as [-> ->]. auto.
Qed.

(** The first group reads two arguments without a comma, each with the
    comma after it, and white space. *)
Lemma lang_line_prefix (s : string) :
  lang re_line_prefix s ->
  exists a b w,
    s = a ++ "," ++ b ++ "," ++ w
    /\ count "," a = O /\ count "," b = O
    /\ count ")" w = O /\ count "(" w = O
    /\ exists t, a = "#" ++ t.
Proof.
  unfold re_line_prefix. cbv zeta. cbn [Regex.seq]. intros H.
  apply lang_seq_inv in H as (p1 & r1 & -> & H1 & H).
  apply lang_seq_inv in H as (p2 & r2 & -> & H2 & H).
  apply lang_seq_inv in H as (p3 & r3 & -> & H3 & H).
  apply lang_seq_inv in H as (p4 & r4 & -> & H4 & H).
  apply lang_seq_inv in H as (p5 & r5 & -> & H5 & H).
  apply lang_seq_inv in H as (p6 & r6 & -> & H6 & H).
  apply lang_seq_inv in H as (p7 & r7 & -> & H7 & H).
  apply lang_seq_inv in H as (p8 & r8 & -> & H8 & H).
  apply lang_seq_inv in H as (p9 & r9 & -> & H9 & H).
  apply lang_seq_inv in H as (p10 & r10 & -> & H10 & H).
  apply lang_seq_inv in H as (p11 & p12 & -> & H11 & H12).
  apply lang_lit_i in H9 as (d9 & -> & Hd9). apply canonicalize_comma in Hd9 as ->.
  apply lang_lit_i in H11 as (d11 & -> & Hd11). apply canonicalize_comma in Hd11 as ->.
  exists (p1 ++ p2 ++ p3 ++ p4 ++ p5 ++ p6 ++ p7 ++ p8), p10, p12.
  split; [now rewrite !str_app_assoc|].
  split.
  { rewrite !count_app.
    rewrite (lang_rejects "," _ _ H1), (lang_rejects "," _ _ H2),
      (lang_rejects "," _ _ H3), (lang_rejects "," _ _ H4),
      (lang_rejects "," _ _ H5), (lang_rejects "," _ _ H6),
      (lang_rejects "," _ _ H7), (lang_rejects "," _ _ H8); reflexivity. }
  split; [apply (lang_rejects "," _ _ H10); reflexivity|].
  split; [apply (lang_rejects ")" _ _ H12); reflexivity|].
  split; [apply (lang_rejects "(" _ _ H12); reflexivity|].
  apply lang_lit_i in H1 as (d1 & -> & Hd1). apply canonicalize_hash in Hd1 as ->.
  eexists. reflexivity.
Qed.

(** The second group reads one code unit or more, none of them a comma
    or a closing parenthesis, and then at most one pair of parentheses. *)
Lemma lang_line_value (s : string) :
  lang re_line_value s ->
  s <> ""
  /\ (count ")" s <= 1)%nat
  /\ ((1 <= count ")" s)%nat -> (1 <= count "(" s)%nat).
Proof.
  unfold re_line_value. cbv zeta. cbn [Regex.seq]. intros H.
  apply lang_seq_inv in H as (v & o & -> & Hv & Ho).
  pose proof (lang_rejects ")" _ _ Hv eq_refl) as Hvc.
  apply lang_plus_chr in Hv as (c & t & -> & _ & _).
  split; [discriminate|]. rewrite !count_app, Hvc.
  apply lang_opt_inv in Ho as [Ho | ->]; [|cbn; lia].
  apply lang_seq_inv in Ho as (o1 & r1 & -> & Ho1 & Ho).
  apply lang_seq_inv in Ho as (o2 & o3 & -> & Ho2 & Ho3).
  pose proof (lang_rejects ")" _ _ Ho2 eq_refl) as Ho2c.
  apply lang_lit_i in Ho1 as (d1 & -> & Hd1). apply canonicalize_open in Hd1 as ->.
  apply lang_lit_i in Ho3 as (d3 & -> & Hd3). apply canonicalize_close in Hd3 as ->.
  rewrite !count_app, Ho2c. cbn. lia.
Qed.

Lemma rebuildPropertyLine_closed (line newValue : string) :
  closedRecord line -> rebuildPropertyLine line newValue = None.
Proof.
  intros (a & b & rest & Hline & Ha & Hb & Hrest).
  destruct (rebuildPropertyLine line newValue) as [out|] eqn:Hout; [|reflexivity].
  exfalso.
  apply rebuildPropertyLine_groups in Hout as (c1 & c2 & c3 & Hline' & L1 & L2 & L3 & _).
  apply lang_line_prefix in L1 as (a' & b' & w & -> & Ha' & Hb' & Hw & Hw' & _).
  apply lang_line_value in L2 as (_ & Hc2 & Hc2').
  pose proof (lang_rejects ")" _ _ L3 eq_refl) as Hc3.
  rewrite Hline in Hline'. rewrite !str_app_assoc in Hline'.
  change ("," ++ ?x) with (String "," x) in Hline'.
  cbn [String.append] in Hline'.
  apply split_count in Hline' as [_ Hline']; [|assumption|assumption].
  apply split_count in Hline' as [_ ->]; [|assumption|assumption].
  rewrite !count_app in Hrest. rewrite Hw, Hw', Hc3 in Hrest.
  destruct Hrest as [H2 | [H1 H0]]; lia.
Qed.

Lemma rewriteStep_offsets (cur : string) (p : PatchEntry) :
  rewriteStep cur p =
  match Js.find (patchKey p) cur with
  | None => cur
  | Some ls =>
      match Js.find ";" (Js.str_drop ls cur) with
      | None => cur
      | Some i =>
          match rebuildPropertyLine (Js.str_take (S i) (Js.str_drop ls cur))
                  (patch_newValue p) with
          | Some newLine =>
              if String.eqb newLine "" then cur
              else Js.str_take ls cur ++ newLine ++ Js.str_drop (ls + S i) cur
          | None => cur
          end
      end
  end.
Proof.
  unfold rewriteStep, patchKey.
  replace (("#" ++ int_toString (patch_expressID p)) ++ "=")
    with ("#" ++ int_toString (patch_expressID p) ++ "=")
    by (symmetry; apply str_app_assoc).
  set (key := "#" ++ int_toString (patch_expressID p) ++ "=").
  rewrite indexOf_find.
  destruct (Js.find key cur) as [ls|] eqn:Hls; [|reflexivity].
  pose proof (find_bound _ _ _ Hls) as Hlsb.
  replace (Z.of_nat ls =? -1) with false by (symmetry; apply Z.eqb_neq; lia).
  rewrite indexOf_from_find by lia.
  destruct (Js.find ";" (Js.str_drop ls cur)) as [i|] eqn:Hi; [|reflexivity].
  pose proof (find_bound _ _ _ Hi) as Hib. rewrite str_length_drop in Hib.
  simpl in Hib.
  replace (Z.of_nat (ls + i) =? -1) with false by (symmetry; apply Z.eqb_neq; lia).
  replace (Z.of_nat (ls + i) + 1) with (Z.of_nat (ls + S i)) by lia.
  rewrite substring_take_drop by lia.
  replace (ls + S i - ls)%nat with (S i) by lia.
  destruct (rebuildPropertyLine _ _) as [newLine|]; [|reflexivity].
  destruct (String.eqb newLine ""); [reflexivity|].
  rewrite substring_prefix by lia.
  rewrite substring_from_drop by lia.
  reflexivity.
Qed.


Lemma rewriteStep_closed (cur : string) (p : PatchEntry) :
  (forall line, recordLine (patchKey p) cur = Some line -> closedRecord line) ->
  rewriteStep cur p = cur.
Proof.
  intros Hclosed. rewrite rewriteStep_offsets. unfold recordLine in Hclosed.
  destruct (Js.find (patchKey p) cur) as [ls|]; [|reflexivity].
  destruct (Js.find ";" (Js.str_drop ls cur)) as [i|]; [|reflexivity].
  now rewrite rebuildPropertyLine_closed by now apply Hclosed.
Qed.

Lemma rewriteExport_closed (text : string) (patches : list PatchEntry) :
  (forall p line, In p patches -> recordLine (patchKey p) text = Some line ->
                  closedRecord line) ->
  rewriteExport text patches = text.
Proof.
  intros Hclosed. unfold rewriteExport.
  assert (fold_left rewriteStep patches text = text) as ->.
  { induction patches as [|p patches IH]; cbn [fold_left]; [reflexivity|].
    rewrite rewriteStep_closed by (intros line; apply Hclosed; now left).
    apply IH. intros q line Hq. apply Hclosed. now right. }
  now rewrite String.eqb_refl.
Qed.

(** X24: the pattern of the rewrite does not match a record that is
    closed: one that, after its first two arguments, has two closing
    parentheses or more, as every record with a typed value and its own
    closing parenthesis has, or has a closing parenthesis and no
    opening one, as a record without a value has.  For such a record
    [rebuildPropertyLine] is [null], and a rewrite all of whose patches
    are for closed records, or for records that are not in the text,
    gives the text back as it was. *)
Theorem rewriteExport_closed_records (text : string) (patches : list PatchEntry) :
  (forall line newValue, closedRecord line -> rebuildPropertyLine line newValue = None)
  /\ ((forall p line, In p patches -> recordLine (patchKey p) text = Some line ->
                      closedRecord line) ->
      rewriteExport text patches = text).
Proof.
  split; [apply rebuildPropertyLine_closed | apply rewriteExport_closed].
Qed.

(** X25: when the records of all modified properties are closed in the
    original text, an export with a forced rewrite returns the original
    text: no edit is written.  The same holds without the forced
    rewrite whenever the patch attempt fails, as it does for a property
    that had no value when loaded. *)
Theorem exportModifiedIfc_closed_records (st : ModelState) (text : string) :
  originalIfcText st = Some text ->
  text <> "" ->
  (forall p line, In p (collectModifiedProperties st) ->
                  recordLine (patchKey p) text = Some line -> closedRecord line) ->
  exportModifiedIfc st true = Blob text
  /\ (tryPatchExport text (collectModifiedProperties st) = None ->
      exportModifiedIfc st false = Blob text)
  /\ ((exists p, In p (collectModifiedProperties st) /\ patch_oldValue p = "$") ->
      exportModifiedIfc st false = Blob text).
Proof.
  intros Htext Hne Hclosed.
  pose proof (rewriteExport_closed text _ Hclosed) as Hrw.
  unfold exportModifiedIfc. rewrite Htext.
  destruct text as [|c text]; [contradiction|].
  destruct (collectModifiedProperties st) as [|p0 patches] eqn:Hpatches.
  { cbn. split; [reflexivity|]. split; [reflexivity|].
    intros (p & [] & _). }
  cbn [List.length Nat.eqb negb]. rewrite Hrw.
  split; [reflexivity|].
  split; [now intros ->|].
  intros (p & Hin & Hold).
  assert (tryPatchExport (String c text) (p0 :: patches) = None) as Hnone;
    [|now rewrite Hnone].
  destruct (tryPatchExport (String c text) (p0 :: patches)) as [out|] eqn:Htry;
    [|reflexivity].
  exfalso. apply tryPatchExport_patched in Htry.
  clear Hrw Hclosed Hpatches Htext Hne.
  revert Htry Hin. generalize (String c text) as cur. generalize (p0 :: patches) as l.
  induction l as [|q l IH]; intros cur Hp Hin; [destruct Hin|].
  inversion Hp as [|? ? mid ? ? Happ Hrest]; subst.
  destruct Hin as [-> | Hin].
  - destruct Happ as [Hno _]. contradiction.
  - now apply (IH mid).
Qed.

(** ** The wrapper of a formatted value ([rebuildPropertyLine]) *)

Lemma rmatch_opt_skip (a : Regex.regex) (st : Regex.mstate)
  (k : Regex.mstate -> option Regex.mstate) :
  k st <> None -> Regex.rmatch (Regex.Opt a) st k <> None.
Proof.
  intros Hk. unfold Regex.Opt. cbn [Regex.rmatch].
  now destruct (Regex.rmatch a st k).
Qed.

Lemma rmatch_opt_take (a : Regex.regex) (st : Regex.mstate)
  (k : Regex.mstate -> option Regex.mstate) :
  Regex.rmatch a st k <> None -> Regex.rmatch (Regex.Opt a) st k <> None.
Proof.
  intros Hk. unfold Regex.Opt. cbn [Regex.rmatch].
  now destruct (Regex.rmatch a st k).
Qed.

(** The texts [/^-?\d+(\.\d+)?$/] is sure to match. *)
Lemma numeric_test (sign : string) (c : ascii) (x tail : string) :
  sign = "" \/ sign = "-" ->
  Regex.is_digit c = true -> str_forall Regex.is_digit x = true ->
  tail = ""
  \/ (exists d f, tail = "." ++ String d f /\ Regex.is_digit d = true
                  /\ str_forall Regex.is_digit f = true) ->
  Regex.test re_numeric (sign ++ String c x ++ tail) = true.
Proof.
  intros Hsign Hc Hx Htail. unfold Regex.test, re_numeric. cbn [Regex.seq].
  rewrite exec_bol.
  destruct (Regex.rmatch _ _ Some) eqn:Hm; [reflexivity|]. exfalso. revert Hm.
  rewrite rmatch_seq.
  set (K2 := fun st' : Regex.mstate =>
         Regex.rmatch
           (Regex.Seq
              (Regex.Opt
                 (Regex.Group 1
                    (Regex.Seq (Regex.lit ".")
                       (Regex.Plus (Regex.Chr Regex.is_digit))))) Regex.Eol)
           st' Some).
  assert (forall st', Regex.m_rest st' = tail -> K2 st' <> None) as HK2.
  { intros st' Hrest. unfold K2. rewrite rmatch_seq.
    destruct Htail as [-> | (d & f & -> & Hd & Hf)].
    - apply rmatch_opt_skip. cbn [Regex.rmatch]. now rewrite Hrest.
    - apply rmatch_opt_take. cbn [Regex.rmatch]. fold (Regex.lit ".").
      rewrite (rmatch_lit_complete "." st' (String d f)) by exact Hrest.
      apply (plus_chr_complete Regex.is_digit _ "" _ d f); try assumption.
      + intros st'' Hrest''. cbn [Regex.rmatch Regex.set_cap Regex.m_rest].
        now rewrite Hrest''.
      + cbn [Regex.advance Regex.m_rest]. now rewrite str_app_nil_r. }
  assert (forall st, Regex.m_rest st = String c x ++ tail ->
            Regex.rmatch
              (Regex.Seq (Regex.Plus (Regex.Chr Regex.is_digit))
                 (Regex.Seq
                    (Regex.Opt
                       (Regex.Group 1
                          (Regex.Seq (Regex.lit ".")
                             (Regex.Plus (Regex.Chr Regex.is_digit))))) Regex.Eol))
              st Some <> None) as HK1.
  { intros st Hrest. rewrite rmatch_seq.
    now apply (plus_chr_complete Regex.is_digit _ tail st c x). }
  destruct Hsign as [-> | ->].
  - apply rmatch_opt_skip. now apply HK1.
  - apply rmatch_opt_take.
    rewrite (rmatch_lit_complete "-" _ (String c x ++ tail)) by reflexivity.
    now apply HK1.
Qed.

Lemma quoted_not_numeric (t : string) :
  Regex.test re_numeric (String "'" t) = false.
Proof.
  unfold Regex.test, re_numeric. cbn [Regex.seq]. now rewrite exec_bol.
Qed.

Lemma endsWith_app (a pat : string) : Js.endsWith (a ++ pat) pat = true.
Proof.
  unfold Js.endsWith. rewrite str_length_app.
  replace (String.length a + String.length pat - String.length pat)%nat
    with (String.length a) by lia.
  rewrite str_drop_app, String.eqb_refl. apply Nat.leb_le. lia.
Qed.

Lemma digit_first (c : ascii) :
  Regex.is_digit c = true ->
  Ascii.eqb c "$" = false /\ Ascii.eqb c "." = false /\ Ascii.eqb c "'" = false.
Proof.
  destruct c as [[] [] [] [] [] [] [] []]; vm_compute; intros H;
    try discriminate; repeat split.
Qed.

Lemma wrapValue_numeric (sign : string) (c : ascii) (x tail : string) :
  sign = "" \/ sign = "-" ->
  Regex.is_digit c = true -> str_forall Regex.is_digit x = true ->
  tail = ""
  \/ (exists d f, tail = "." ++ String d f /\ Regex.is_digit d = true
                  /\ str_forall Regex.is_digit f = true) ->
  wrapValue (sign ++ String c x ++ tail)
  = "IFCREAL(" ++ (sign ++ String c x ++ tail) ++ ")".
Proof.
  intros Hsign Hc Hx Htail. unfold wrapValue.
  rewrite (numeric_test sign c x tail Hsign Hc Hx Htail).
  destruct (digit_first c Hc) as (H1 & H2 & _).
  destruct Hsign as [-> | ->]; cbn [String.append String.eqb];
    rewrite ?H1, ?H2; reflexivity.
Qed.

Lemma trimFraction_digits (f6 : string) :
  str_forall Regex.is_digit f6 = true ->
  exists d f, trimFraction f6 = String d f /\ Regex.is_digit d = true
              /\ str_forall Regex.is_digit f = true.
Proof.
  intros H. unfold trimFraction.
  destruct (stripZeros_split f6) as (z & Hsplit & _).
  rewrite Hsplit, str_forall_app in H. apply andb_true_iff in H as [H _].
  destruct (stripZeros f6) as [|d f].
  - exists "0"%char, "". repeat split.
  - cbn [str_forall] in H. apply andb_true_iff in H as [Hd Hf]. eauto.
Qed.

(** X26: the rewrite writes every formatted value in a wrapper chosen
    by the shape of the text and not by the type of the property: an
    absent value stays [$]; a boolean goes into [IFCBOOLEAN]; a text
    goes into [IFCLABEL] whatever it holds; a number goes into
    [IFCREAL], an integral one below [10^21] included; and the texts
    [NaN], [Infinity] and [-Infinity] are written bare. *)
Theorem wrapValue_formatted :
  wrapValue (formatIfcValue VNull) = "$"
  /\ wrapValue (formatIfcValue VUndefined) = "$"
  /\ (forall b, wrapValue (formatIfcValue (VBool b))
                = "IFCBOOLEAN(" ++ formatIfcValue (VBool b) ++ ")")
  /\ (forall s, wrapValue (formatIfcValue (VStr s))
                = "IFCLABEL(" ++ formatIfcValue (VStr s) ++ ")")
  /\ (forall x,
        Num.is_double x = true -> Num.isInteger x = true ->
        Num.magnitude x < 10 ^ 21 ->
        wrapValue (formatIfcValue (VNum x))
        = "IFCREAL(" ++ formatIfcValue (VNum x) ++ ")")
  /\ (forall s m e,
        Num.is_double (S754_finite s m e) = true ->
        Num.isInteger (S754_finite s m e) = false ->
        wrapValue (formatIfcValue (VNum (S754_finite s m e)))
        = "IFCREAL(" ++ formatIfcValue (VNum (S754_finite s m e)) ++ ")")
  /\ wrapValue (formatIfcValue (VNum S754_nan)) = "NaN"
  /\ wrapValue (formatIfcValue (VNum (S754_infinity false))) = "Infinity"
  /\ wrapValue (formatIfcValue (VNum (S754_infinity true))) = "-Infinity".
Proof.
  split; [reflexivity|]. split; [reflexivity|].
  split; [intros []; reflexivity|]. split.
  { intros s. cbn [formatIfcValue]. rewrite replace_all_quote.
    unfold wrapValue. cbn [String.append String.eqb Ascii.eqb Bool.eqb andb orb].
    rewrite quoted_not_numeric.
    replace (String "'" (doubleQuotes s ++ "'"))
      with (String "'" (doubleQuotes s) ++ "'") by reflexivity.
    rewrite endsWith_app. unfold Js.startsWith. simpl.
    assert (String.prefix "" (doubleQuotes s ++ "'") = true) as ->
      by (apply prefix_iff; eexists; reflexivity).
    reflexivity. }
  split.
  { intros x Hd Hi Hm.
    destruct (formatIfcValue_integer_digits x Hd Hi Hm) as (body & -> & Hne & Hdig & _).
    destruct body as [|c t]; [contradiction|].
    cbn [str_forall] in Hdig. apply andb_true_iff in Hdig as [Hc Ht].
    pose proof (wrapValue_numeric (signText (Num.is_negative x)) c t "") as H.
    rewrite !str_app_nil_r in H. apply H; auto.
    unfold signText. destruct (Num.is_negative x); auto. }
  split.
  { intros s m e Hd Hi.
    destruct (formatIfcValue_fraction s m e Hd Hi)
      as (ip & f6 & n & -> & Hne & _ & Hip & Hf6 & _).
    destruct ip as [|c t]; [contradiction|].
    cbn [str_forall] in Hip. apply andb_true_iff in Hip as [Hc Ht].
    destruct (trimFraction_digits f6 Hf6) as (d & f & -> & Hdd & Hf).
    apply wrapValue_numeric; auto.
    - unfold signText. destruct s; auto.
    - right. eauto. }
  repeat split; vm_compute; reflexivity.
Qed.

(** ** The header section ([extractHeaderSection], [rewriteExport]) *)

(** X27: the header section of a text is empty, as it is for a text
    without [HEADER;], or it is a part of the text that starts at the
    first [HEADER;] and ends with the first [ENDSEC;] from there on;
    the header section of a header section is that section itself; and
    when the original text has a header section that holds no dollar
    sign, the rewrite keeps it byte for byte, whatever the patches do. *)
Theorem extractHeaderSection_spec (text : string) (patches : list PatchEntry) :
  (extractHeaderSection text = ""
   \/ exists pre body post,
        text = pre ++ extractHeaderSection text ++ post
        /\ headerShaped (extractHeaderSection text) body
        /\ forall j, (j < String.length pre)%nat -> ~ Occurs "HEADER;" text j)
  /\ (~ Contains "HEADER;" text -> extractHeaderSection text = "")
  /\ extractHeaderSection (extractHeaderSection text) = extractHeaderSection text
  /\ (extractHeaderSection text <> "" ->
      ~ Contains "$" (extractHeaderSection text) ->
      extractHeaderSection (rewriteExport text patches) = extractHeaderSection text).
Proof.
  assert (extractHeaderSection text = ""
          \/ exists pre body post,
               text = pre ++ extractHeaderSection text ++ post
               /\ headerShaped (extractHeaderSection text) body
               /\ forall j, (j < String.length pre)%nat -> ~ Occurs "HEADER;" text j)
    as Hshape.
  { destruct (String.eqb_spec (extractHeaderSection text) "") as [He|Hne]; [now left|].
    right. destruct (extractHeaderSection_shaped text Hne) as [body Hbody].
    revert Hbody Hne. rewrite extractHeaderSection_offsets.
    destruct (Js.find "HEADER;" text) as [hs|] eqn:Hhs; [|contradiction].
    destruct (Js.find "ENDSEC;" (Js.str_drop hs text)) as [i|] eqn:Hi; [|contradiction].
    intros Hbody _.
    exists (Js.str_take hs text), body, (Js.str_drop (i + 7) (Js.str_drop hs text)).
    split; [now rewrite !str_take_drop|]. split; [assumption|].
    intros j Hj. apply (find_least _ _ _ j Hhs).
    rewrite str_length_take in Hj. lia. }
  split; [assumption|]. split; [|split].
  - intros Hno. rewrite extractHeaderSection_offsets.
    now rewrite (proj2 (find_None_iff "HEADER;" text) Hno).
  - destruct Hshape as [-> | (pre & body & post & _ & Hbody & _)]; [reflexivity|].
    pose proof (extractHeaderSection_inserted "" _ body "" Hbody) as H.
    cbn [String.append] in H. rewrite str_app_nil_r in H. apply H.
    intros j Hj. simpl in Hj. lia.
  - apply rewriteExport_header_kept.
Qed.

(** ** The patch attempt, patch by patch ([tryPatchExport]) *)

Lemma tryPatchLoop_app (text : string) (ps qs : list PatchEntry) :
  tryPatchLoop text (ps ++ qs)
  = match tryPatchLoop text ps with
    | Some mid => tryPatchLoop mid qs
    | None => None
    end.
Proof.
  revert text. induction ps as [|p ps IH]; intros text; cbn [tryPatchLoop app];
    [reflexivity|].
  destruct (patchStep text p); [apply IH|reflexivity].
Qed.

Lemma patchApplies_length (cur : string) (p : PatchEntry) (out : string) :
  PatchApplies cur p out ->
  (String.length out + String.length (patch_oldValue p)
   = String.length cur + String.length (patch_newValue p))%nat.
Proof.
  intros (_ & pre & body & post & a & b & (_ & Hcur & _) & [Hline _] & ->).
  rewrite Hcur.
  replace (pre ++ body ++ ";" ++ post) with (pre ++ (body ++ ";") ++ post)
    by (now rewrite !str_app_assoc).
  rewrite Hline. rewrite !str_length_app. lia.
Qed.

(** X28: the patch attempt works patch by patch, each on the text the
    ones before it left: the attempt for a list followed by another is
    the attempt for the second on the outcome of the first, and fails
    when the first fails; without patches the text is returned as it
    is; and a successful attempt changes the length of the text by the
    lengths of the new values less those of the old ones. *)
Theorem tryPatchExport_compose (text : string) (ps qs : list PatchEntry) :
  tryPatchExport text (ps ++ qs)
  = match tryPatchExport text ps with
    | Some mid => tryPatchExport mid qs
    | None => None
    end
  /\ tryPatchExport text [] = Some text
  /\ forall out, tryPatchExport text ps = Some out ->
       (String.length out
        + list_sum (List.map (fun p => String.length (patch_oldValue p)) ps)
        = String.length text
          + list_sum (List.map (fun p => String.length (patch_newValue p)) ps))%nat.
Proof.
  unfold tryPatchExport. split; [apply tryPatchLoop_app|]. split; [reflexivity|].
  revert text. induction ps as [|p ps IH]; intros text out; cbn [tryPatchLoop].
  - intros [= ->]. simpl. lia.
  - destruct (patchStep text p) as [mid|] eqn:Hstep; [|discriminate].
    intros Hout. apply IH in Hout. apply patchStep_applies in Hstep.
    apply patchApplies_length in Hstep. cbn [List.map].
    unfold list_sum in *. cbn [fold_right]. lia.
Qed.

(** ** Text values ([formatIfcValue]) *)

Lemma doubleQuotes_inj (a b : string) : doubleQuotes a = doubleQuotes b -> a = b.
Proof.
  revert b. induction a as [|c a IH]; intros [|d b]; cbn [doubleQuotes].
  - reflexivity.
  - destruct (Ascii.eqb d "'"); discriminate.
  - destruct (Ascii.eqb c "'"); discriminate.
  - destruct (Ascii.eqb_spec c "'") as [-> | Hc], (Ascii.eqb_spec d "'") as [-> | Hd].
    + intros [= H]. now rewrite (IH b H).
    + intros [= <- H]. contradiction.
    + intros [= -> H]. contradiction.
    + intros [= -> H]. now rewrite (IH b H).
Qed.

Lemma count_doubleQuotes (a : string) :
  count "'" (doubleQuotes a) = (2 * count "'" a)%nat.
Proof.
  induction a as [|c a IH]; cbn [doubleQuotes count]; [reflexivity|].
  destruct (Ascii.eqb_spec c "'") as [-> | Hc]; cbn [count].
  - rewrite IH. cbn. lia.
  - destruct (Ascii.eqb_spec c "'"); [contradiction|]. rewrite IH. lia.
Qed.

(** X29: the formatted text of a text value tells the value: two texts
    with the same formatted text are equal; the formatted text of a
    text is never that of an absent value or of a boolean; and it has
    an even number of single quotes, twice those of the text and the
    two around it. *)
Theorem formatIfcValue_text (a b : string) :
  (formatIfcValue (VStr a) = formatIfcValue (VStr b) -> a = b)
  /\ formatIfcValue (VStr a) <> formatIfcValue VNull
  /\ (forall flag, formatIfcValue (VStr a) <> formatIfcValue (VBool flag))
  /\ count "'" (formatIfcValue (VStr a)) = (2 * count "'" a + 2)%nat.
Proof.
  cbn [formatIfcValue]. rewrite !replace_all_quote. cbn [String.append].
  split; [|split; [|split]].
  - intros [= H].
    assert (forall x y, x ++ "'" = y ++ "'" -> x = y) as Hcancel.
    { intros x y Hxy.
      destruct (str_app_inv x "'" y "'" Hxy) as [Hx _]; [|assumption].
      apply (f_equal String.length) in Hxy. rewrite !str_length_app in Hxy.
      simpl in Hxy. lia. }
    apply doubleQuotes_inj. now apply Hcancel.
  - discriminate.
  - intros []; discriminate.
  - cbn [count]. rewrite count_app, count_doubleQuotes. cbn. lia.
Qed.

(** ** Modifications and the export ([hasModifications]) *)

(** X30: where the export collects a patch, [hasModifications] holds;
    so a model for which [hasModifications] is false exports as its
    original text, with or without a forced rewrite. *)
Theorem hasModifications_export (st : ModelState) :
  (collectModifiedProperties st <> [] -> hasModifications st = true)
  /\ (hasModifications st = false ->
      collectModifiedProperties st = []
      /\ forall text forceRewrite,
           originalIfcText st = Some text -> text <> "" ->
           exportModifiedIfc st forceRewrite = Blob text).
Proof.
  assert (collectModifiedProperties st <> [] -> hasModifications st = true) as H.
  { destruct (collectModifiedProperties st) as [|patch l] eqn:Hc; [contradiction|].
    intros _.
    assert (In patch (collectModifiedProperties st)) as Hin by (rewrite Hc; now left).
    apply collectModifiedProperties_in in Hin
      as (entry & pset & prop & He & Hp & Hin & _ & Hmod & _).
    apply hasModifications_iff. exists prop. split; [|assumption].
    unfold propertiesOf. apply in_flat_map. exists entry. split; [assumption|].
    apply in_flat_map. eauto. }
  split; [assumption|]. intros Hfalse.
  assert (collectModifiedProperties st = []) as Hnil.
  { destruct (collectModifiedProperties st) as [|patch l] eqn:Hc; [reflexivity|].
    rewrite H in Hfalse; [discriminate|]. discriminate. }
  split; [assumption|]. intros text force Htext Hne.
  unfold exportModifiedIfc. rewrite Htext, Hnil.
  destruct text; [contradiction|reflexivity].
Qed.

(** ** The further properties on sample data *)

Lemma updatePropertyValue_frame_witness :
  lookupProperty
    (updatePropertyValue Sample.wall 5 "Pset_WallCommon" "Ref" (VStr "B"))
    5 "Pset_WallCommon" "IsExternal"
  = lookupProperty Sample.wall 5 "Pset_WallCommon" "IsExternal"
  /\ updatePropertyValue Sample.wall 5 "Pset_WallCommon" "Width" (VStr "B")
     = Sample.wall.
Proof.
  pose proof (updatePropertyValue_frame Sample.wall 5 "Pset_WallCommon" "Ref"
                (VStr "B")) as H.
  pose proof (updatePropertyValue_frame Sample.wall 5 "Pset_WallCommon" "Width"
                (VStr "B")) as H'.
  cbv zeta in H, H'.
  destruct H as (_ & _ & _ & H & _). destruct H' as (_ & _ & _ & _ & H').
  split; [apply H; discriminate | apply H'; reflexivity].
Defined.

Lemma undo_redo_round_trip_witness :
  redo {| undoStack := []; redoStack := [ Sample.action ] |}
  = (Some Sample.action, {| undoStack := [ Sample.action ]; redoStack := [] |})
  /\ undo {| undoStack := []; redoStack := [ Sample.action ] |}
     = (None, {| undoStack := []; redoStack := [ Sample.action ] |}).
Proof.
  destruct (undo_redo_round_trip
              {| undoStack := [ Sample.action ]; redoStack := [] |}
              {| undoStack := []; redoStack := [ Sample.action ] |}
              Sample.action) as (H1 & _).
  destruct (undo_redo_round_trip
              {| undoStack := []; redoStack := [ Sample.action ] |}
              {| undoStack := []; redoStack := [] |}
              Sample.action) as (_ & _ & H3 & _).
  split; [apply H1; reflexivity | apply H3; reflexivity].
Defined.

Lemma handleUndo_after_edit_witness :
  lookupProperty Sample.wall 5 "Pset_WallCommon" "Ref" = Some Sample.refProperty
  /\ hasModifications Sample.wall = false
  /\ hasModifications
       (fst (handleUndo
               (handlePropertyChange Sample.wallElement 0 Sample.wallPset
                  Sample.refProperty (VStr "B")
                  (Sample.wall, {| undoStack := []; redoStack := [] |}))))
     = true.
Proof.
  split; [reflexivity|]. split; [reflexivity|].
  pose proof (handleUndo_after_edit Sample.wallElement 0 Sample.wallPset
                Sample.refProperty (VStr "B") Sample.wall
                {| undoStack := []; redoStack := [] |} eq_refl) as H.
  cbv zeta in H. destruct H as (_ & _ & H & _). exact H.
Defined.

Lemma runValidation_passed_witness :
  res_passed (runValidation Sample.noNumber Sample.noRegExp [ Sample.element ]
                [ Sample.rule "R1" "FireRating" ])
  = Z.of_nat (List.length
                (List.filter
                   (passes Sample.noNumber Sample.noRegExp
                      [ Sample.rule "R1" "FireRating" ])
                   [ Sample.element ])).
Proof.
  apply runValidation_passed. constructor; [intros []|constructor].
Defined.

Lemma checkElement_issue_fields_witness :
  exists req,
    In req (rule_requirements (Sample.rule "R1" "FireRating"))
    /\ issue_ruleId (Sample.issue "R1") = "R1"
    /\ issue_propertyPath (Sample.issue "R1")
       = req_psetName req ++ "." ++ req_propertyName req
    /\ issue_severity (Sample.issue "R1") = Error.
Proof.
  destruct (checkElement_issue_fields Sample.noNumber Sample.noRegExp Sample.element
              (Sample.rule "R1" "FireRating") (Sample.issue "R1"))
    as (_ & req & Hreq & _ & _ & _ & _ & _ & _ & _ & _ & Hid & _ & Hpath & Hsev).
  { now left. }
  exists req. split; [assumption|]. split; [assumption|]. split; [assumption|].
  destruct Hreq as [<-|[]]. exact Hsev.
Defined.

Lemma checkElement_issue_type_witness :
  exists req,
    In req (rule_requirements (Sample.rule "R1" "FireRating"))
    /\ psetAbsent Sample.element req
    /\ issue_actual (Sample.issue "R1") = "Property set not found".
Proof.
  destruct (checkElement_issue_type Sample.noNumber Sample.noRegExp Sample.element
              (Sample.rule "R1" "FireRating") (Sample.issue "R1"))
    as (req & Hreq & _ & Htype & _).
  { now left. }
  exists req. split; [assumption|].
  cbn in Htype. destruct Htype as [_ [(Habs & _ & Hact) | (pset & Hres & _)]].
  - split; assumption.
  - destruct Hres as (before & after & Hl & _). destruct before; discriminate.
Defined.

Lemma checkElement_applicability_witness :
  checkElement Sample.noNumber Sample.noRegExp Sample.element Sample.doorRule = [].
Proof.
  destruct (checkElement_applicability Sample.noNumber Sample.noRegExp Sample.element
              Sample.doorRule) as (_ & H & _).
  apply H. intros [Hclass _]. discriminate Hclass.
Defined.

Lemma idsToRulePack_attribute_checkType_witness :
  exists rule r,
    In rule (pack_rules (idsToRulePack [ Sample.attributeSpec ] "a.ids"))
    /\ In r (rule_requirements rule)
    /\ req_psetName r = "__attributes__"
    /\ req_propertyName r = "Name"
    /\ req_checkType r = CkRegex.
Proof.
  destruct (idsToRulePack_attribute_checkType [ Sample.attributeSpec ] "a.ids"
              Sample.attributeSpec Sample.attributeReq "Name")
    as (rule & r & Hrule & _ & Hr & Hpset & Hname & _ & _ & Hregex & _).
  - now left.
  - now left.
  - reflexivity.
  - reflexivity.
  - discriminate.
  - exists rule, r. repeat (split; [assumption|]).
    apply (Hregex "^W"); [reflexivity|discriminate].
Defined.

Lemma idsToRulePack_applicability_witness :
  exists rule spec,
    In rule (pack_rules (idsToRulePack [ Sample.specification (Some "2HR") None ]
                           "a.ids"))
    /\ In spec [ Sample.specification (Some "2HR") None ]
    /\ rule_name rule = spec_name spec
    /\ app_disciplines (rule_applicability rule) = None
    /\ applicable Sample.element rule.
Proof.
  assert (exists rule,
            In rule (pack_rules (idsToRulePack
                                   [ Sample.specification (Some "2HR") None ] "a.ids")))
    as [rule Hin] by (eexists; vm_compute; left; reflexivity).
  destruct (idsToRulePack_applicability _ _ rule Hin)
    as (spec & Hspec & Hname & Hdis & _ & Happ).
  exists rule, spec. repeat (split; [assumption|]).
  apply Happ. left. destruct Hspec as [<-|[]]. reflexivity.
Defined.

Lemma attribute_requirement_unchecked_witness :
  checkRequirement Sample.noNumber Sample.noRegExp
    (toValidateElement Sample.wallElement) (Sample.rule "R1" "Name")
    (attributeRequirement Sample.attributeReq) = [].
Proof.
  destruct (attribute_requirement_unchecked Sample.noNumber Sample.noRegExp
              Sample.wallElement (Sample.rule "R1" "Name")
              (attributeRequirement Sample.attributeReq) Sample.attributeReq)
    as [_ H].
  - intros pset [<-|[]]. discriminate.
  - apply H. reflexivity.
Defined.

Lemma loadFile_state_witness :
  exportModifiedIfc (loadFile Sample.disciplineOf Sample.cleanText
                       [ Sample.parsedWall ]) true
  = Blob Sample.cleanText.
Proof.
  pose proof (loadFile_state Sample.disciplineOf Sample.cleanText
                [ Sample.parsedWall ] true) as H.
  cbv zeta in H. destruct H as (_ & _ & _ & _ & _ & H & _).
  apply H. discriminate.
Defined.

Lemma applyEdits_patches_witness :
  In Sample.patch
     (collectModifiedProperties
        (applyEdits [ (5, "Pset_WallCommon", "Ref", VStr "B") ]
           (loadFile Sample.disciplineOf Sample.cleanText [ Sample.parsedWall ])))
  /\ isPsetCommon (patch_psetName Sample.patch) = true.
Proof.
  assert (In Sample.patch
            (collectModifiedProperties
               (applyEdits [ (5, "Pset_WallCommon", "Ref", VStr "B") ]
                  (loadFile Sample.disciplineOf Sample.cleanText
                     [ Sample.parsedWall ])))) as Hin
    by (vm_compute; left; reflexivity).
  split; [assumption|].
  pose proof (applyEdits_patches Sample.disciplineOf Sample.cleanText
                [ Sample.parsedWall ] [ (5, "Pset_WallCommon", "Ref", VStr "B") ])
    as H.
  cbv zeta in H. destruct H as (_ & _ & _ & _ & H).
  now destruct (H Sample.patch Hin).
Defined.

Lemma validate_model_witness :
  exists res,
    validate Sample.noNumber Sample.noRegExp Sample.wall Sample.pack = Validated res
    /\ res_totalElements res = 1.
Proof.
  destruct (validate_model Sample.noNumber Sample.noRegExp Sample.wall Sample.pack)
    as [_ H].
  destruct H as (res & Hres & Htotal & _).
  - discriminate.
  - split.
    + constructor; [intros []|constructor].
    + intros entry [<-|[]]. reflexivity.
  - exists res. split; [assumption|]. exact Htotal.
Defined.

Lemma rewriteExport_closed_records_witness :
  rebuildPropertyLine Sample.line "'B'" = None
  /\ rewriteExport Sample.cleanText [ Sample.patch ] = Sample.cleanText.
Proof.
  assert (closedRecord Sample.line) as Hclosed.
  { exists "#7=IFCPROPERTYSINGLEVALUE('Ref'", "$", "IFCLABEL('A'),$);".
    split; [reflexivity|]. split; [reflexivity|]. split; [reflexivity|].
    left. vm_compute. lia. }
  destruct (rewriteExport_closed_records Sample.cleanText [ Sample.patch ])
    as [H1 H2].
  split; [now apply H1|].
  apply H2. intros p line [<-|[]] Hline.
  vm_compute in Hline. injection Hline as <-. exact Hclosed.
Defined.

Lemma exportModifiedIfc_closed_records_witness :
  exportModifiedIfc Sample.unsetState false = Blob Sample.unsetText
  /\ exportModifiedIfc Sample.unsetState true = Blob Sample.unsetText.
Proof.
  assert (In {| patch_expressID := 1; patch_propertyName := "N";
                patch_psetName := "Pset_WallCommon";
                patch_oldValue := "$"; patch_newValue := "'x'" |}
             (collectModifiedProperties Sample.unsetState)) as Hin
    by (vm_compute; left; reflexivity).
  destruct (exportModifiedIfc_closed_records Sample.unsetState Sample.unsetText)
    as (Hforced & _ & Hpatch).
  - reflexivity.
  - discriminate.
  - intros p line Hp Hline. vm_compute in Hp. destruct Hp as [<-|[]].
    vm_compute in Hline. injection Hline as <-.
    exists "#1=IFCPROPERTYSINGLEVALUE('N'", "$", "$,$);".
    split; [reflexivity|]. split; [reflexivity|]. split; [reflexivity|].
    right. split; [vm_compute; lia | reflexivity].
  - split; [|assumption]. apply Hpatch. eexists. split; [exact Hin|reflexivity].
Defined.

Lemma wrapValue_formatted_witness :
  wrapValue (formatIfcValue (VNum Sample.fortyTwo))
  = "IFCREAL(" ++ formatIfcValue (VNum Sample.fortyTwo) ++ ")"
  /\ wrapValue (formatIfcValue (VNum Sample.pi314))
     = "IFCREAL(" ++ formatIfcValue (VNum Sample.pi314) ++ ")".
Proof.
  destruct wrapValue_formatted as (_ & _ & _ & _ & Hint & Hfrac & _).
  split.
  - apply Hint; reflexivity.
  - apply Hfrac; reflexivity.
Defined.

Lemma extractHeaderSection_spec_witness :
  extractHeaderSection (rewriteExport Sample.cleanText [ Sample.patch ])
  = extractHeaderSection Sample.cleanText.
Proof.
  destruct (extractHeaderSection_spec Sample.cleanText [ Sample.patch ])
    as (_ & _ & _ & H).
  apply H.
  - vm_compute. discriminate.
  - apply find_None_iff. vm_compute. reflexivity.
Defined.

Lemma tryPatchExport_compose_witness :
  (String.length "#7=IFCPROPERTYSINGLEVALUE('Ref',$,IFCLABEL('B'),$);"
   + list_sum (List.map (fun p => String.length (patch_oldValue p)) [ Sample.patch ])
   = String.length Sample.line
     + list_sum (List.map (fun p => String.length (patch_newValue p))
                   [ Sample.patch ]))%nat.
Proof.
  destruct (tryPatchExport_compose Sample.line [ Sample.patch ] []) as (_ & _ & H).
  apply H. vm_compute. reflexivity.
Defined.

Lemma formatIfcValue_text_witness :
  formatIfcValue (VStr "it's") = "'it''s'" /\ "it's" = "it's".
Proof.
  split; [vm_compute; reflexivity|].
  destruct (formatIfcValue_text "it's" "it's") as (H & _).
  apply H. reflexivity.
Defined.

Lemma hasModifications_export_witness :
  hasModifications (Sample.state (VStr "A") false) = false
  /\ exportModifiedIfc (Sample.state (VStr "A") false) true = Blob Sample.text.
Proof.
  split; [reflexivity|].
  destruct (hasModifications_export (Sample.state (VStr "A") false)) as [_ H].
  destruct H as [_ H]; [reflexivity|].
  apply H; [reflexivity|discriminate].
Defined.
